(** * Design Transfer plugin: tree codec, relay consumer and orchestrator

    A shallow embedding of the plugin's main script (the version with the
    cross-file relay: [deepSerializeNode], [createNodeFromSerialized],
    [applyPendingTransfer], [checkAndApplyPendingTransfers],
    [transferWithinCurrentFile], [transferToOtherFile], [handleTransfer]).

    The host document API, the REST endpoint and the JSON codec are not part
    of the script; they appear here as an explicit document store, an
    explicit remote state and a record of oracles ([Host]) that decides
    which host calls throw. *)

From stdpp Require Import base option list strings gmap fin_maps pretty sorting.
From Stdlib Require Import ZArith Ascii.

Open Scope string_scope.
Open Scope list_scope.
Set Warnings "-register-all".

(** ** JavaScript values *)

(** The values that travel through property bags.  Numbers are integers
    here: the script never computes with them, it only copies them, tests
    them for truthiness and prints them; [JNum z] stands for the Number
    nearest to [z]. *)
Inductive jsval : Type :=
| JUndef
| JNull
| JBool (b : bool)
| JNum (z : Z)
| JStr (s : string)
| JArr (l : list jsval)
| JObj (l : list (string * jsval)).

(** [!v] is false exactly on truthy values. *)
Definition truthy (v : jsval) : bool :=
  match v with
  | JUndef | JNull => false
  | JBool b => b
  | JNum z => negb (Z.eqb z 0)
  | JStr s => negb (bool_decide (s = ""))
  | JArr _ | JObj _ => true
  end.

(** [v !== undefined] *)
Definition defined (v : jsval) : bool :=
  match v with JUndef => false | _ => true end.

(** [a || b] *)
Definition js_or (a b : jsval) : jsval := if truthy a then a else b.

(** [v === "s"] *)
Definition is_str (v : jsval) (s : string) : bool :=
  match v with JStr s' => bool_decide (s' = s) | _ => false end.

(** [o.k] on a property bag: a missing key reads as [undefined]. *)
Definition prop (o : gmap string jsval) (k : string) : jsval :=
  default JUndef (o !! k).

(** ["k" in o] *)
Definition has (o : gmap string jsval) (k : string) : bool :=
  bool_decide (is_Some (o !! k)).

(** [v.k] on an arbitrary value that is known to be truthy. *)
Fixpoint assoc (l : list (string * jsval)) (k : string) : jsval :=
  match l with
  | [] => JUndef
  | (k', v) :: l' => if bool_decide (k' = k) then v else assoc l' k
  end.

Definition field (v : jsval) (k : string) : jsval :=
  match v with JObj l => assoc l k | _ => JUndef end.

(** ** The portable representation *)

(** What [createNodeFromSerialized] receives as [nodeData]: [NNull] stands
    for [undefined] and [null] (any property read on it throws), [NObj] for
    an object with its own properties and, apart from them, its [children]
    entry ([None]: no such entry, [Some l]: an array). *)
Inductive NodeData : Type :=
| NNull
| NObj (fields : gmap string jsval) (children : option (list NodeData)).

(** ** Live elements as the serializer reads them *)

(** A [BaseNode] as an object graph: [type], [id], the remaining readable
    properties (among them [name]) and, for containers, the [children]
    array. *)
Inductive BaseNode : Type :=
| Element (type : string) (id : string) (props : gmap string jsval)
          (children : option (list BaseNode)).

Definition node_type (n : BaseNode) : string :=
  match n with Element t _ _ _ => t end.
Definition node_id (n : BaseNode) : string :=
  match n with Element _ i _ _ => i end.
Definition node_props (n : BaseNode) : gmap string jsval :=
  match n with Element _ _ p _ => p end.
Definition node_children (n : BaseNode) : option (list BaseNode) :=
  match n with Element _ _ _ c => c end.

(** [if ("k" in node) serialized.k = node.k] *)
Definition copy_if_present (node : gmap string jsval) (k : string)
    (serialized : gmap string jsval) : gmap string jsval :=
  match node !! k with
  | Some v => <[k := v]> serialized
  | None => serialized
  end.

(** The property names [deepSerializeNode] copies, in source order. *)
Definition serialized_keys : list string :=
  [ "visible"; "locked";
    "x"; "y"; "width"; "height"; "rotation";
    "opacity"; "blendMode"; "fills"; "strokes"; "strokeWeight";
    "strokeAlign"; "effects"; "cornerRadius";
    "characters"; "fontSize"; "fontName";
    "layoutMode"; "primaryAxisSizingMode"; "counterAxisSizingMode";
    "paddingLeft"; "paddingRight"; "paddingTop"; "paddingBottom";
    "itemSpacing" ].

(** [deepSerializeNode]: the object literal [{type, name, id}], then one
    conditional copy per property, then the children in their order. *)
Fixpoint deepSerializeNode (node : BaseNode) : NodeData :=
  match node with
  | Element type id props children =>
      let serialized : gmap string jsval :=
        <["id" := JStr id]>
          (<["name" := prop props "name"]>
             (<["type" := JStr type]> ∅)) in
      let serialized :=
        foldl (fun s k => copy_if_present props k s) serialized
              serialized_keys in
      NObj serialized
           (match children with
            | Some cs => Some (map deepSerializeNode cs)
            | None => None
            end)
  end.

(** ** The host document *)

Abbreviation handle := nat.

(** One element of the document store.  [n_children] is [Some] exactly on
    elements that expose [children] and [appendChild]. *)
Record HNode : Type := mkHNode {
  n_type : string;
  n_id : string;
  n_props : gmap string jsval;
  n_children : option (list handle);
}.

Record Doc : Type := mkDoc {
  nodes : gmap nat HNode;
  next : handle;               (* next unused handle *)
  pages : list handle;         (* figma.root.children *)
  currentPage : handle;        (* figma.currentPage *)
  selection : list handle;     (* figma.currentPage.selection *)
  fonts : list jsval;          (* fonts loaded so far *)
}.

Definition id_of (h : handle) : string := pretty h.

Definition with_nodes (f : gmap nat HNode -> gmap nat HNode) (d : Doc) : Doc :=
  mkDoc (f (nodes d)) (next d) (pages d) (currentPage d) (selection d) (fonts d).
Definition with_next (n : handle) (d : Doc) : Doc :=
  mkDoc (nodes d) n (pages d) (currentPage d) (selection d) (fonts d).
Definition with_pages (ps : list handle) (d : Doc) : Doc :=
  mkDoc (nodes d) (next d) ps (currentPage d) (selection d) (fonts d).
Definition with_currentPage (p : handle) (d : Doc) : Doc :=
  mkDoc (nodes d) (next d) (pages d) p (selection d) (fonts d).
Definition with_selection (s : list handle) (d : Doc) : Doc :=
  mkDoc (nodes d) (next d) (pages d) (currentPage d) s (fonts d).
Definition with_fonts (fs : list jsval) (d : Doc) : Doc :=
  mkDoc (nodes d) (next d) (pages d) (currentPage d) (selection d) fs.

Definition with_props (f : gmap string jsval -> gmap string jsval) (n : HNode) : HNode :=
  mkHNode (n_type n) (n_id n) (f (n_props n)) (n_children n).
Definition with_children (f : list handle -> list handle) (n : HNode) : HNode :=
  mkHNode (n_type n) (n_id n) (n_props n) (f <$> n_children n).

(** ** The remote comment feed and the file endpoint *)

Record Comment : Type := mkComment {
  c_id : string;
  c_message : string;
  c_created_at : Z;
}.

Record RemoteFile : Type := mkRemoteFile {
  f_name : string;
  f_pages : list (string * string);   (* document.children: id, name *)
  f_readable : bool;                  (* GET answers ok *)
  f_writable : bool;                  (* POST answers ok *)
  f_comments : list Comment;          (* the feed, in the order GET returns it *)
}.

Record Remote : Type := mkRemote {
  online : bool;                      (* false: fetch rejects *)
  files : gmap string RemoteFile;
}.

Inductive Request : Type :=
| GetFile (fileKey : string) (token : jsval)
| PostComment (fileKey : string) (token : jsval) (message : string)
| GetComments (fileKey : string) (token : jsval)
| DeleteComment (fileKey : string) (commentId : string) (token : jsval).

(** Whether a request changes the destination file. *)
Definition mutating (r : Request) : bool :=
  match r with
  | PostComment _ _ _ | DeleteComment _ _ _ => true
  | GetFile _ _ | GetComments _ _ => false
  end.

(** [figma.ui.postMessage] *)
Inductive UiMessage : Type :=
| UiError (message : string)
| UiProgress (progress : Z) (message : string)
| UiComplete (success : bool) (message : string).

(** ** The plugin's world *)

Record World : Type := mkWorld {
  doc : Doc;
  fileKey : jsval;                    (* figma.fileKey *)
  rootName : string;                  (* figma.root.name *)
  storage : gmap string jsval;        (* figma.clientStorage *)
  remote : Remote;
  clock : Z;                          (* new Date() *)
  calls : list Request;               (* requests issued, oldest first *)
  ui : list UiMessage;                (* posted to the panel, oldest first *)
  notes : list string;                (* figma.notify *)
  console : list string;              (* console.log and console.error *)
}.

Definition with_doc (f : Doc -> Doc) (w : World) : World :=
  mkWorld (f (doc w)) (fileKey w) (rootName w) (storage w) (remote w)
          (clock w) (calls w) (ui w) (notes w) (console w).
Definition with_remote (f : Remote -> Remote) (w : World) : World :=
  mkWorld (doc w) (fileKey w) (rootName w) (storage w) (f (remote w))
          (clock w) (calls w) (ui w) (notes w) (console w).
Definition with_calls (f : list Request -> list Request) (w : World) : World :=
  mkWorld (doc w) (fileKey w) (rootName w) (storage w) (remote w)
          (clock w) (f (calls w)) (ui w) (notes w) (console w).
Definition with_ui (f : list UiMessage -> list UiMessage) (w : World) : World :=
  mkWorld (doc w) (fileKey w) (rootName w) (storage w) (remote w)
          (clock w) (calls w) (f (ui w)) (notes w) (console w).
Definition with_notes (f : list string -> list string) (w : World) : World :=
  mkWorld (doc w) (fileKey w) (rootName w) (storage w) (remote w)
          (clock w) (calls w) (ui w) (f (notes w)) (console w).
Definition with_console (f : list string -> list string) (w : World) : World :=
  mkWorld (doc w) (fileKey w) (rootName w) (storage w) (remote w)
          (clock w) (calls w) (ui w) (notes w) (f (console w)).

(** ** Computations that may throw *)

Inductive result (A : Type) : Type :=
| Ok (a : A)
| Thrown (message : string).
Arguments Ok {A} a.
Arguments Thrown {A} message.

(** A computation over a state [S]: the state survives a throw, as the
    document survives an exception in the script. *)
Definition St (S A : Type) : Type := S -> result A * S.

Definition ret {S A} (a : A) : St S A := fun s => (Ok a, s).

Definition bind {S A B} (m : St S A) (k : A -> St S B) : St S B :=
  fun s =>
    match m s with
    | (Ok a, s') => k a s'
    | (Thrown e, s') => (Thrown e, s')
    end.

Definition throw {S A} (e : string) : St S A := fun s => (Thrown e, s).

(** [try { m } catch (error) { handler(error.message) }] *)
Definition try_catch {S A} (m : St S A) (handler : string -> St S A) : St S A :=
  fun s =>
    match m s with
    | (Ok a, s') => (Ok a, s')
    | (Thrown e, s') => handler e s'
    end.

Definition gets {S A} (f : S -> A) : St S A := fun s => (Ok (f s), s).
Definition modify {S} (f : S -> S) : St S unit := fun s => (Ok tt, f s).

(** [if (c) m] *)
Definition when {S} (c : bool) (m : St S unit) : St S unit :=
  if c then m else ret tt.

Notation "'do' x <- m ; k" := (bind m (fun x => k))
  (at level 10, x name, m at level 100, k at level 200, only parsing).
Notation "'run' m ; k" := (bind m (fun _ => k))
  (at level 10, m at level 100, k at level 200, only parsing).

(** A document computation inside the world. *)
Definition lift {A} (m : St Doc A) : St World A :=
  fun w =>
    let '(r, d) := m (doc w) in
    (r, with_doc (fun _ => d) w).

Definition log (line : string) : St World unit :=
  modify (with_console (fun c => c ++ [line])).
Definition postMessage (m : UiMessage) : St World unit :=
  modify (with_ui (fun u => u ++ [m])).
Definition notify (line : string) : St World unit :=
  modify (with_notes (fun c => c ++ [line])).

(** ** The relay envelope *)

(** What [JSON.parse] yields for a relay message, field by field. *)
Record TransferData : Type := mkTransferData {
  t_type : jsval;
  t_nodeData : NodeData;
  t_sourceName : jsval;
  t_sourceFile : jsval;
  t_targetPageId : jsval;
  t_timestamp : jsval;
}.

(** ** The host's behaviour *)

(** Everything the script cannot decide by itself: the shape of a freshly
    created element, which host calls throw, and the JSON codec. *)
Record Host : Type := mkHost {
  host_defaults : string -> gmap string jsval;
  host_container : string -> bool;
  host_creates : Doc -> string -> bool;
  host_clones : Doc -> handle -> bool;
  host_loads : Doc -> jsval -> bool;
  host_accepts : Doc -> handle -> string -> jsval -> bool;
  host_resizes : Doc -> handle -> jsval -> jsval -> bool;
  host_appends : Doc -> handle -> handle -> bool;
  host_removes : Doc -> handle -> bool;
  JSON_parse : string -> option TransferData;
  JSON_stringify : TransferData -> string;
}.

Definition attach (p c : handle) (ns : gmap nat HNode) : gmap nat HNode :=
  alter (with_children (fun l => l ++ [c])) p ns.

Definition detach (c : handle) (ns : gmap nat HNode) : gmap nat HNode :=
  with_children (filter (fun x => x ≠ c)) <$> ns.

(** The element behind a handle as an object graph.  The fuel bounds the
    depth; [next d] exceeds the depth of any tree in the store. *)
Fixpoint node_object (fuel : nat) (d : Doc) (h : handle) : BaseNode :=
  match nodes d !! h with
  | None => Element "" "" ∅ None
  | Some n =>
      Element (n_type n) (n_id n) (n_props n)
        (match fuel with
         | 0 => None
         | S fuel' => map (node_object fuel' d) <$> n_children n
         end)
  end.

Section HostCalls.

Variable H : Host.

(** [figma.createFrame()] and its siblings: the new element gets the next
    handle and is parented under [parent]. *)
Definition create (kind : string) (parent : handle) : St Doc handle :=
  fun d =>
    if host_creates H d kind then
      let c := next d in
      let n := mkHNode kind (id_of c) (host_defaults H kind)
                 (if host_container H kind then Some [] else None) in
      (Ok c, with_next (S c) (with_nodes (fun ns => attach parent c (<[c := n]> ns)) d))
    else (Thrown ("cannot create " +:+ kind), d).

Definition createOnCurrentPage (kind : string) : St Doc handle :=
  do p <- gets currentPage; create kind p.

(** ["k" in node] *)
Definition in_node (c : handle) (k : string) : St Doc bool :=
  gets (fun d => match nodes d !! c with
                 | Some n => has (n_props n) k
                 | None => false
                 end).

(** ["appendChild" in node] *)
Definition exposes_appendChild (c : handle) : St Doc bool :=
  gets (fun d => match nodes d !! c with
                 | Some n => bool_decide (is_Some (n_children n))
                 | None => false
                 end).

(** [node.type] *)
Definition kind_of (c : handle) : St Doc string :=
  gets (fun d => match nodes d !! c with
                 | Some n => n_type n
                 | None => ""
                 end).

(** [node.k = v] *)
Definition set_prop (c : handle) (k : string) (v : jsval) : St Doc unit :=
  fun d =>
    match nodes d !! c with
    | None => (Thrown "node does not exist", d)
    | Some n =>
        if host_accepts H d c k v then
          (Ok tt, with_nodes (fun ns => <[c := with_props (fun p => <[k := v]> p) n]> ns) d)
        else (Thrown ("cannot write " +:+ k), d)
    end.

(** [node.resize(width, height)] *)
Definition resize (c : handle) (width height : jsval) : St Doc unit :=
  fun d =>
    match nodes d !! c with
    | None => (Thrown "node does not exist", d)
    | Some n =>
        if host_resizes H d c width height then
          (Ok tt, with_nodes (fun ns =>
             <[c := with_props (fun p => <["height" := height]> (<["width" := width]> p)) n]> ns) d)
        else (Thrown "cannot resize", d)
    end.

(** [parent.appendChild(child)]: the child leaves its previous parent and
    becomes the last child of [p]. *)
Definition appendChild (p c : handle) : St Doc unit :=
  fun d =>
    match nodes d !! p with
    | None => (Thrown "node does not exist", d)
    | Some n =>
        match n_children n with
        | None => (Thrown "appendChild is not a function", d)
        | Some _ =>
            if host_appends H d p c then
              (Ok tt, with_nodes (fun ns => attach p c (detach c ns)) d)
            else (Thrown "cannot append", d)
        end
    end.

(** [figma.loadFontAsync(font)] *)
Definition loadFontAsync (font : jsval) : St Doc unit :=
  fun d =>
    if host_loads H d font then (Ok tt, with_fonts (fonts d ++ [font]) d)
    else (Thrown "font could not be loaded", d).

(** The handles of an element and of everything below it.  The fuel
    bounds the depth, as in [node_object]. *)
Fixpoint subtree (fuel : nat) (d : Doc) (h : handle) : list handle :=
  h :: match fuel with
       | 0 => []
       | S fuel' =>
           match nodes d !! h with
           | Some n => flat_map (subtree fuel' d) (default [] (n_children n))
           | None => []
           end
       end.

(** [node.remove()]: the element leaves its parent and goes, with
    everything below it. *)
Definition remove (c : handle) : St Doc unit :=
  fun d =>
    if host_removes H d c then
      (Ok tt, with_nodes (fun ns => foldr delete (detach c ns) (subtree (next d) d c)) d)
    else (Thrown "cannot remove", d).

(** A copy of an object graph planted in the store, unattached. *)
Fixpoint plant (n : BaseNode) : St Doc handle :=
  match n with
  | Element type _ props children =>
      do c <- gets next;
      run modify (fun d =>
            with_next (S c)
              (with_nodes (fun ns =>
                 <[c := mkHNode type (id_of c) props
                          (match children with Some _ => Some [] | None => None end)]> ns) d));
      run (match children with
           | Some cs =>
               (fix each (l : list BaseNode) : St Doc unit :=
                  match l with
                  | [] => ret tt
                  | k :: l' =>
                      do kc <- plant k;
                      run modify (with_nodes (attach c kc));
                      each l'
                  end) cs
           | None => ret tt
           end);
      ret c
  end.

(** [node.clone()]: a deep copy, parented under the current page. *)
Definition clone (h : handle) : St Doc handle :=
  fun d =>
    if host_clones H d h then
      (do c <- plant (node_object (next d) d h);
       do p <- gets currentPage;
       run modify (with_nodes (attach p c));
       ret c) d
    else (Thrown "cannot clone", d).

End HostCalls.

(** ** Reconstruction *)

Section Codec.

Variable H : Host.

(** The [switch (nodeData.type)] of [createNodeFromSerialized].  The result
    is the script's [createdNode: SceneNode | null]. *)
Definition createByType (type fontName : jsval) (targetPage : handle)
    : St World (option handle) :=
  let case := is_str type in
  if case "FRAME" then
    do c <- lift (createOnCurrentPage H "FRAME"); ret (Some c)
  else if case "RECTANGLE" then
    do c <- lift (createOnCurrentPage H "RECTANGLE"); ret (Some c)
  else if case "ELLIPSE" then
    do c <- lift (createOnCurrentPage H "ELLIPSE"); ret (Some c)
  else if case "TEXT" then
    do c <- lift (createOnCurrentPage H "TEXT");
    run when (truthy fontName)
          (try_catch (lift (loadFontAsync H fontName))
                     (fun e => log "Could not load font:"));
    ret (Some c)
  else if case "GROUP" then
    do c <- lift (create H "GROUP" targetPage); ret (Some c)
  else if case "COMPONENT" then
    do c <- lift (createOnCurrentPage H "COMPONENT"); ret (Some c)
  else
    run log "Unknown node type, creating frame:";
    do c <- lift (createOnCurrentPage H "FRAME"); ret (Some c).

(** [if ("k" in createdNode && nodeData.k !== undefined) createdNode.k = nodeData.k] *)
Definition assign_if_defined (c : handle) (fields : gmap string jsval)
    (k : string) : St Doc unit :=
  do present <- in_node c k;
  when (present && defined (prop fields k)) (set_prop H c k (prop fields k)).

(** [if (nodeData.k) createdNode.k = nodeData.k] *)
Definition assign_if_truthy (c : handle) (fields : gmap string jsval)
    (k : string) : St Doc unit :=
  when (truthy (prop fields k)) (set_prop H c k (prop fields k)).

(** [if (nodeData.k !== undefined) createdNode.k = nodeData.k] *)
Definition assign_if_given (c : handle) (fields : gmap string jsval)
    (k : string) : St Doc unit :=
  when (defined (prop fields k)) (set_prop H c k (prop fields k)).

(** The "Apply properties" part of [createNodeFromSerialized], from
    [createdNode.name = nodeData.name] down to the auto-layout block. *)
Definition applyProperties (c : handle) (fields : gmap string jsval)
    : St Doc unit :=
  run set_prop H c "name" (prop fields "name");
  run assign_if_defined c fields "x";
  run assign_if_defined c fields "y";
  run (do present <- in_node c "width";
       when (present && defined (prop fields "width"))
            (resize H c (prop fields "width")
                    (js_or (prop fields "height") (JNum 100))));
  run assign_if_defined c fields "rotation";
  run assign_if_defined c fields "opacity";
  run assign_if_defined c fields "blendMode";
  run assign_if_defined c fields "fills";
  run assign_if_defined c fields "strokes";
  run assign_if_defined c fields "strokeWeight";
  run assign_if_defined c fields "effects";
  run assign_if_defined c fields "cornerRadius";
  run (do type <- kind_of c;
       do present <- in_node c "characters";
       when (bool_decide (type = "TEXT") && present)
            (run assign_if_truthy c fields "characters";
             assign_if_truthy c fields "fontSize"));
  do present <- in_node c "layoutMode";
  when (present && truthy (prop fields "layoutMode"))
       (run set_prop H c "layoutMode" (prop fields "layoutMode");
        run assign_if_truthy c fields "primaryAxisSizingMode";
        run assign_if_truthy c fields "counterAxisSizingMode";
        run assign_if_given c fields "paddingLeft";
        run assign_if_given c fields "paddingRight";
        run assign_if_given c fields "paddingTop";
        run assign_if_given c fields "paddingBottom";
        assign_if_given c fields "itemSpacing").

(** [if (childNode && "appendChild" in createdNode) createdNode.appendChild(childNode)] *)
Definition adopt (created : handle) (childNode : option handle) : St World unit :=
  match childNode with
  | Some child =>
      do can <- lift (exposes_appendChild created);
      when can (lift (appendChild H created child))
  | None => ret tt
  end.

(** [createNodeFromSerialized]: the whole body runs inside one [try]; the
    [catch] logs and answers [null]. *)
Fixpoint createNodeFromSerialized (nodeData : NodeData) (targetPage : handle)
    {struct nodeData} : St World (option handle) :=
  try_catch
    (match nodeData with
     | NNull => throw "Cannot read properties of undefined"
     | NObj fields children =>
         run log "Creating node from serialized data:";
         do createdNode <-
           createByType (prop fields "type") (prop fields "fontName") targetPage;
         match createdNode with
         | None => run log "Failed to create node of type:"; ret None
         | Some created =>
             run log "Node created, applying properties...";
             run lift (applyProperties created fields);
             run (match children with
                  | Some cs =>
                      do can <- lift (exposes_appendChild created);
                      when can
                        (run log "Creating children:";
                         (fix each (l : list NodeData) : St World unit :=
                            match l with
                            | [] => ret tt
                            | childData :: l' =>
                                do childNode <-
                                  createNodeFromSerialized childData targetPage;
                                run adopt created childNode;
                                each l'
                            end) cs)
                  | None => ret tt
                  end);
             run log "Adding node to target page";
             run lift (appendChild H targetPage created);
             ret (Some created)
         end
     end)
    (fun error => run log "Error creating node from serialized:"; ret None).

End Codec.

(** ** Strings and the network *)

Definition newline : string := String "010"%char "".

(** The reserved marker of relay messages. *)
Definition marker : string := "[FIGMA_DESIGN_TRANSFER]".

(** [s.startsWith(p)] *)
Definition startsWith (p s : string) : bool := String.prefix p s.

(** [s.replace(p, "")]: the first occurrence of [p] is dropped. *)
Definition drop_first (p s : string) : string :=
  match String.index 0 p s with
  | Some n =>
      String.substring 0 n s
      +:+ String.substring (n + String.length p)
                           (String.length s - (n + String.length p)) s
  | None => s
  end.

(** The Number nearest to a non-negative integer: 53 significant bits,
    ties to even. *)
Definition nearest_double (z : Z) : Z :=
  let bits := (Z.log2 z + 1)%Z in
  if (bits <=? 53)%Z then z
  else
    let shift := (bits - 53)%Z in
    let q := Z.shiftr z shift in
    let r := Z.land z (Z.ones shift) in
    let half := Z.shiftl 1 (shift - 1) in
    let q := if (half <? r)%Z || ((r =? half)%Z && Z.odd q) then (q + 1)%Z else q in
    Z.shiftl q shift.

(** The decimal with the fewest significant digits that reads back as the
    Number [x]; of two with the same digit count the closer one, and of
    two equally close the even one. *)
Definition shortest_decimal (x : Z) : Z :=
  let digits := String.length (pretty x) in
  default x
    (foldl (fun found k =>
              match found with
              | Some v => Some v
              | None =>
                  let p := (10 ^ Z.of_nat (digits - k))%Z in
                  let lo := (x / p * p)%Z in
                  let hi := (lo + p)%Z in
                  let lo_ok := (nearest_double lo =? x)%Z in
                  let hi_ok := (nearest_double hi =? x)%Z in
                  if lo_ok && hi_ok then
                    if (x - lo <? hi - x)%Z then Some lo
                    else if (hi - x <? x - lo)%Z then Some hi
                    else if Z.even (x / p) then Some lo else Some hi
                  else if lo_ok then Some lo
                  else if hi_ok then Some hi
                  else None
              end) None (seq 1 digits)).

Fixpoint without_trailing_zeros (s : string) : string :=
  match s with
  | "" => ""
  | String a s' =>
      match without_trailing_zeros s' with
      | "" => if bool_decide (a = "0"%char) then "" else String a ""
      | t => String a t
      end
  end.

(** [Number::toString] on a non-negative integer-valued Number: plain
    digits up to 21 of them, exponent notation beyond. *)
Definition number_text (x : Z) : string :=
  if (2 ^ 1024 <=? x)%Z then "Infinity"
  else
    let t := pretty (shortest_decimal x) in
    let n := String.length t in
    if (n <=? 21)%nat then t
    else
      match without_trailing_zeros t with
      | String a "" => String a "" +:+ "e+" +:+ pretty (n - 1)
      | String a s => String a "" +:+ "." +:+ s +:+ "e+" +:+ pretty (n - 1)
      | "" => t
      end.

(** The text of the Number an integer stands for; a safe integer prints
    its digits. *)
Definition integer_text (z : Z) : string :=
  if (Z.abs z <? 2 ^ 53)%Z then pretty z
  else (if (z <? 0)%Z then "-" else "")
       +:+ number_text (nearest_double (Z.abs z)).

(** A value inside a template literal: an array prints its elements
    between commas, [null] and [undefined] among them as nothing. *)
Fixpoint to_string (v : jsval) : string :=
  match v with
  | JStr s => s
  | JUndef => "undefined"
  | JNull => "null"
  | JBool true => "true"
  | JBool false => "false"
  | JNum z => integer_text z
  | JArr l =>
      String.concat ","
        (map (fun x => match x with
                       | JUndef | JNull => ""
                       | _ => to_string x
                       end) l)
  | JObj _ => "[object Object]"
  end.

(** A text between double quotes. *)
Definition in_quotes (s : string) : string :=
  String "034"%char "" +:+ s +:+ String "034"%char "".

(** A non-negative number in at least [width] digits. *)
Definition padded (width : nat) (z : Z) : string :=
  let t := pretty z in
  String.concat "" (replicate (width - String.length t) "0") +:+ t.

(** [new Date(ms).toISOString()] for a time value in milliseconds since
    the epoch. *)
Definition toISOString (ms : Z) : string :=
  let days := (ms / 86400000)%Z in
  let rest := (ms mod 86400000)%Z in
  let z := (days + 719468)%Z in
  let era := (z / 146097)%Z in
  let doe := (z - era * 146097)%Z in
  let yoe := ((doe - doe / 1460 + doe / 36524 - doe / 146096) / 365)%Z in
  let doy := (doe - (365 * yoe + yoe / 4 - yoe / 100))%Z in
  let mp := ((5 * doy + 2) / 153)%Z in
  let day := (doy - (153 * mp + 2) / 5 + 1)%Z in
  let month := (if (mp <? 10)%Z then mp + 3 else mp - 9)%Z in
  let year := (yoe + era * 400 + (if (month <=? 2)%Z then 1 else 0))%Z in
  (if (year <? 0)%Z then "-" +:+ padded 6 (- year)
   else if (9999 <? year)%Z then "+" +:+ padded 6 year
   else padded 4 year)
  +:+ "-" +:+ padded 2 month +:+ "-" +:+ padded 2 day
  +:+ "T" +:+ padded 2 (rest / 3600000)
  +:+ ":" +:+ padded 2 (rest / 60000 mod 60)
  +:+ ":" +:+ padded 2 (rest / 1000 mod 60)
  +:+ "." +:+ padded 3 (rest mod 1000) +:+ "Z".

(** [fetch]: the request is recorded; it rejects when the network is down. *)
Definition request {A} (r : Request) (answer : Remote -> A)
    (effect : Remote -> Remote) : St World A :=
  fun w =>
    let w := with_calls (fun c => c ++ [r]) w in
    if online (remote w) then (Ok (answer (remote w)), with_remote effect w)
    else (Thrown "Failed to fetch", w).

(** [GET /v1/files/:key]: the file when the response is ok. *)
Definition fetch_file (key : string) (token : jsval) : St World (option RemoteFile) :=
  request (GetFile key token)
    (fun r => match files r !! key with
              | Some f => if f_readable f then Some f else None
              | None => None
              end)
    (fun r => r).

(** [GET /v1/files/:key/comments]: the feed when the response is ok. *)
Definition fetch_comments (key : string) (token : jsval)
    : St World (option (list Comment)) :=
  request (GetComments key token)
    (fun r => match files r !! key with
              | Some f => if f_readable f then Some (f_comments f) else None
              | None => None
              end)
    (fun r => r).

Definition add_comment (c : Comment) (f : RemoteFile) : RemoteFile :=
  mkRemoteFile (f_name f) (f_pages f) (f_readable f) (f_writable f)
               (f_comments f ++ [c]).
Definition drop_comment (id : string) (f : RemoteFile) : RemoteFile :=
  mkRemoteFile (f_name f) (f_pages f) (f_readable f) (f_writable f)
               (List.filter (fun c => negb (bool_decide (c_id c = id))) (f_comments f)).
Definition accepts_comment (key : string) (r : Remote) : bool :=
  match files r !! key with
  | Some f => f_writable f
  | None => false
  end.

(** [POST /v1/files/:key/comments]: whether the response is ok. *)
Definition post_comment (key : string) (token : jsval) (message : string)
    : St World bool :=
  do now <- gets clock;
  request (PostComment key token message)
    (accepts_comment key)
    (fun r => if accepts_comment key r then
                mkRemote (online r)
                  (alter (add_comment (mkComment (pretty now) message now)) key (files r))
              else r).

(** [DELETE /v1/files/:key/comments/:id]; the script ignores the response. *)
Definition delete_comment (key id : string) (token : jsval) : St World unit :=
  request (DeleteComment key id token)
    (fun _ => tt)
    (fun r => mkRemote (online r) (alter (drop_comment id) key (files r))).

(** ** Applying a pending transfer *)

(** [figma.loadAllPagesAsync()] and [page.loadAsync()]: the store holds
    every page with its content, so loading changes nothing. *)
Definition loadAllPagesAsync : St World unit := ret tt.
Definition loadAsync (p : handle) : St World unit := ret tt.

Definition setCurrentPage (p : handle) : St Doc unit :=
  modify (with_currentPage p).
Definition select (l : list handle) : St Doc unit :=
  modify (with_selection l).

(** [figma.root.children.find(p => p.id === id)] *)
Definition find_page (id : jsval) (d : Doc) : option handle :=
  List.find (fun p => match nodes d !! p with
                      | Some n => is_str id (n_id n)
                      | None => false
                      end) (pages d).

Definition is_page (d : Doc) (p : handle) : bool :=
  match nodes d !! p with
  | Some n => bool_decide (n_type n = "PAGE")
  | None => false
  end.

Definition name_of (d : Doc) (h : handle) : jsval :=
  match nodes d !! h with
  | Some n => prop (n_props n) "name"
  | None => JUndef
  end.

Section Relay.

Variable H : Host.

(** [applyPendingTransfer] *)
Definition applyPendingTransfer (nodeData : NodeData) (targetPageId : jsval)
    : St World unit :=
  try_catch
    (run log "Applying pending transfer for page:";
     run loadAllPagesAsync;
     do found <- gets (fun w => find_page targetPageId (doc w));
     do ok <- gets (fun w => match found with
                             | Some p => is_page (doc w) p
                             | None => false
                             end);
     match found with
     | Some targetPage =>
         if ok then
           run log "Target page found:";
           do createdNode <- createNodeFromSerialized H nodeData targetPage;
           match createdNode with
           | Some created =>
               run log "Node created successfully:";
               run lift (setCurrentPage targetPage);
               run lift (select [created]);
               run log "Transfer completed and element selected";
               do pageName <- gets (fun w => name_of (doc w) targetPage);
               notify ("✓ Transfer applied! Element placed on page "
                       +:+ in_quotes (to_string pageName))
           | None => log "Failed to create node from serialized data"
           end
         else throw ("Target page not found: " +:+ to_string targetPageId)
     | None => throw ("Target page not found: " +:+ to_string targetPageId)
     end)
    (fun error => run log "Error applying transfer:"; throw error).

(** The claim step: the marked comments, and of those the last one. *)
Definition transferComments (comments : list Comment) : list Comment :=
  List.filter (fun c => startsWith marker (c_message c)) comments.

Definition latestComment (comments : list Comment) : option Comment :=
  last (transferComments comments).

(** [checkAndApplyPendingTransfers]: one polling cycle. *)
Definition checkAndApplyPendingTransfers : St World unit :=
  try_catch
    (do token <- gets (fun w => prop (storage w) "figmaApiToken");
     do key <- gets fileKey;
     if negb (truthy token) || negb (truthy key) then
       log "No token or fileKey available for transfer check"
     else
       run log "Checking for pending transfers...";
       do response <- fetch_comments (to_string key) token;
       match response with
       | None => log "Failed to fetch comments:"
       | Some comments =>
           run log "Total comments:";
           run log "Transfer comments found:";
           match latestComment comments with
           | None => log "No pending transfers"
           | Some latest =>
               run log "Processing transfer comment:";
               let transferDataStr :=
                 drop_first (marker +:+ newline) (c_message latest) in
               match JSON_parse H transferDataStr with
               | None => throw "Unexpected token in JSON"
               | Some transferData =>
                   run log "Transfer data parsed:";
                   run applyPendingTransfer (t_nodeData transferData)
                                            (t_targetPageId transferData);
                   run delete_comment (to_string key) (c_id latest) token;
                   log "Transfer applied and comment deleted"
               end
           end
       end)
    (fun error => log "Error checking transfers:").

End Relay.

(** ** The transfer orchestrator *)

(** The [transfer] message of the panel. *)
Record TransferRequest : Type := mkTransferRequest {
  m_fileKey : string;
  m_pageId : jsval;
  m_newPageName : jsval;
  m_token : jsval;
}.

Definition no_write_permission : string :=
  "Your token does not have file_write permission. Cross-file transfers require write access. Please generate a new token with file_write scope.".
Definition no_destination : string :=
  "Cannot access destination file. Please verify your token has edit access to this file.".
Definition no_new_pages : string :=
  "Creating new pages via API is not supported. Please select an existing page.".
Definition bad_selection : string :=
  "Please select exactly one frame or component".

Section Orchestrator.

Variable H : Host.

Definition progress (p : Z) (message : string) : St World unit :=
  postMessage (UiProgress p message).

(** [figma.createPage()] *)
Definition createPage : St Doc handle :=
  fun d =>
    if host_creates H d "PAGE" then
      let c := next d in
      let n := mkHNode "PAGE" (id_of c) (host_defaults H "PAGE") (Some []) in
      (Ok c, with_pages (pages d ++ [c])
               (with_next (S c) (with_nodes (fun ns => <[c := n]> ns) d)))
    else (Thrown "cannot create PAGE", d).

(** [transferWithinCurrentFile] *)
Definition transferWithinCurrentFile (node : handle) (msg : TransferRequest)
    : St World unit :=
  try_catch
    (run progress 10 "Loading pages...";
     run loadAllPagesAsync;
     run progress 30 "Cloning element...";
     do clonedNode <- lift (clone H node);
     run progress 50 "Preparing target page...";
     do targetPage <-
       (if truthy (m_newPageName msg) then
          do p <- lift createPage;
          run lift (set_prop H p "name" (m_newPageName msg));
          ret p
        else if truthy (m_pageId msg) then
          do page <- gets (fun w => find_page (m_pageId msg) (doc w));
          match page with
          | None => throw "Target page not found"
          | Some p => run loadAsync p; ret p
          end
        else throw "No target page specified");
     run progress 70 "Transferring to page...";
     run lift (appendChild H targetPage clonedNode);
     run progress 90 "Finalizing...";
     run lift (setCurrentPage targetPage);
     run lift (select [clonedNode]);
     run progress 100 "Transfer complete!";
     do nodeName <- gets (fun w => name_of (doc w) node);
     do pageName <- gets (fun w => name_of (doc w) targetPage);
     run postMessage (UiComplete true
           ("Successfully transferred " +:+ in_quotes (to_string nodeName)
            +:+ " to page " +:+ in_quotes (to_string pageName)));
     notify ("✓ Transferred to " +:+ in_quotes (to_string pageName)))
    (fun error => run postMessage (UiComplete false error); throw error).

(** [transferToOtherFile] *)
Definition transferToOtherFile (node : handle) (msg : TransferRequest)
    : St World unit :=
  try_catch
    (do tokenScopes <- gets (fun w => prop (storage w) "tokenScopes");
     if negb (truthy tokenScopes)
        || negb (truthy (field tokenScopes "hasWriteAccess")) then
       throw no_write_permission
     else
       run progress 5 "Starting cross-file transfer...";
       do clonedNode <- lift (clone H node);
       run progress 15 "Preparing element data...";
       do nodeData <-
         gets (fun w => deepSerializeNode
                          (node_object (next (doc w)) (doc w) clonedNode));
       run progress 50 "Validating destination file...";
       do fileResponse <- fetch_file (m_fileKey msg) (m_token msg);
       run progress 60 "Accessing destination file...";
       match fileResponse with
       | None => throw no_destination
       | Some fileData =>
           let targetPageId := m_pageId msg in
           if truthy (m_newPageName msg) then throw no_new_pages
           else
             match List.find (fun p => is_str targetPageId (fst p))
                             (f_pages fileData) with
             | None => throw "Target page not found in destination file."
             | Some targetPage =>
                 run progress 70 "Storing transfer data in destination file...";
                 do sourceName <- gets (fun w => name_of (doc w) node);
                 do sourceFile <- gets rootName;
                 do now <- gets clock;
                 let transferData :=
                   mkTransferData (JStr "DESIGN_TRANSFER") nodeData sourceName
                                  (JStr sourceFile) targetPageId
                                  (JStr (toISOString now)) in
                 do commentOk <-
                   post_comment (m_fileKey msg) (m_token msg)
                     (marker +:+ newline +:+ JSON_stringify H transferData);
                 if negb commentOk then
                   throw "Failed to store transfer data in destination file"
                 else
                   run progress 90 "Triggering destination file...";
                   run lift (remove H clonedNode);
                   run progress 100 "Transfer complete!";
                   run postMessage (UiComplete true
                         ("✓ Element transferred to " +:+ f_name fileData
                          +:+ " - applying automatically..."));
                   notify ("✓ Element transferred to " +:+ in_quotes (f_name fileData)
                           +:+ " and will apply automatically")
             end
       end)
    (fun error => run postMessage (UiComplete false error); throw error).

(** [handleTransfer] *)
Definition handleTransfer (msg : TransferRequest) : St World unit :=
  do selection <- gets (fun w => selection (doc w));
  match selection with
  | [node] =>
      try_catch
        (do key <- gets fileKey;
         if is_str key (m_fileKey msg) || bool_decide (m_fileKey msg = "current")
         then transferWithinCurrentFile node msg
         else transferToOtherFile node msg)
        (fun error => postMessage (UiError ("Failed to transfer: " +:+ error)))
  | _ => postMessage (UiError bad_selection)
  end.

(** The kinds [handleGetSelection] reports as a valid selection. *)
Definition validTypes : list string :=
  ["FRAME"; "COMPONENT"; "COMPONENT_SET"; "INSTANCE"; "GROUP"].

End Orchestrator.

(** ** A reference host and reference documents *)

Module Reference.

Definition quoted (s : string) : string :=
  String "034"%char "" +:+ s +:+ String "034"%char "".

Fixpoint join (l : list string) : string :=
  match l with
  | [] => ""
  | [s] => s
  | s :: l' => s +:+ "," +:+ join l'
  end.

(** JSON text of a value; object members that are [undefined] are left
    out, as [JSON.stringify] does. *)
Fixpoint print_value (v : jsval) : string :=
  match v with
  | JUndef | JNull => "null"
  | JBool true => "true"
  | JBool false => "false"
  | JNum z => pretty z
  | JStr s => quoted s
  | JArr l => "[" +:+ join (map print_value l) +:+ "]"
  | JObj l =>
      "{" +:+ join ((fix members (l : list (string * jsval)) : list string :=
                       match l with
                       | [] => []
                       | (k, JUndef) :: l' => members l'
                       | (k, v) :: l' =>
                           (quoted k +:+ ":" +:+ print_value v) :: members l'
                       end) l) +:+ "}"
  end.

Definition print_member (kv : string * jsval) : list string :=
  match snd kv with
  | JUndef => []
  | v => [quoted (fst kv) +:+ ":" +:+ print_value v]
  end.

Fixpoint print_node (n : NodeData) : string :=
  match n with
  | NNull => "null"
  | NObj fields children =>
      "{" +:+ join (concat (map print_member (map_to_list fields))
                    ++ match children with
                       | Some cs =>
                           [quoted "children" +:+ ":[" +:+ join (map print_node cs) +:+ "]"]
                       | None => []
                       end) +:+ "}"
  end.

Definition print_envelope (t : TransferData) : string :=
  "{" +:+ join (print_member ("type", t_type t)
                ++ match t_nodeData t with
                   | NNull => []
                   | n => [quoted "nodeData" +:+ ":" +:+ print_node n]
                   end
                ++ print_member ("sourceName", t_sourceName t)
                ++ print_member ("sourceFile", t_sourceFile t)
                ++ print_member ("targetPageId", t_targetPageId t)
                ++ print_member ("timestamp", t_timestamp t)) +:+ "}".

(** The relay message carrying an envelope. *)
Definition message_of (t : TransferData) : string :=
  marker +:+ newline +:+ print_envelope t.

Definition bag (l : list (string * jsval)) : gmap string jsval := list_to_map l.

Definition white : jsval :=
  JArr [JObj [("type", JStr "SOLID"); ("opacity", JNum 1)]].
Definition inter : jsval :=
  JObj [("family", JStr "Inter"); ("style", JStr "Regular")].
Definition roboto : jsval :=
  JObj [("family", JStr "Roboto"); ("style", JStr "Bold")].

Definition geometry : list (string * jsval) :=
  [("visible", JBool true); ("locked", JBool false);
   ("x", JNum 0); ("y", JNum 0); ("width", JNum 100); ("height", JNum 100);
   ("rotation", JNum 0); ("opacity", JNum 1); ("blendMode", JStr "PASS_THROUGH")].
Definition paint : list (string * jsval) :=
  [("fills", white); ("strokes", JArr []); ("strokeWeight", JNum 1);
   ("strokeAlign", JStr "INSIDE"); ("effects", JArr [])].
Definition layout : list (string * jsval) :=
  [("layoutMode", JStr "NONE"); ("primaryAxisSizingMode", JStr "AUTO");
   ("counterAxisSizingMode", JStr "FIXED");
   ("paddingLeft", JNum 0); ("paddingRight", JNum 0);
   ("paddingTop", JNum 0); ("paddingBottom", JNum 0); ("itemSpacing", JNum 0)].

(** The property bag of a fresh element, per kind. *)
Definition defaults (kind : string) : gmap string jsval :=
  if bool_decide (kind = "FRAME") then
    bag (("name", JStr "Frame") :: ("cornerRadius", JNum 0) :: geometry ++ paint ++ layout)
  else if bool_decide (kind = "COMPONENT") then
    bag (("name", JStr "Component") :: ("cornerRadius", JNum 0) :: geometry ++ paint ++ layout)
  else if bool_decide (kind = "RECTANGLE") then
    bag (("name", JStr "Rectangle") :: ("cornerRadius", JNum 0) :: geometry ++ paint)
  else if bool_decide (kind = "ELLIPSE") then
    bag (("name", JStr "Ellipse") :: geometry ++ paint)
  else if bool_decide (kind = "TEXT") then
    bag (("name", JStr "Text") :: ("characters", JStr "") :: ("fontSize", JNum 12)
         :: ("fontName", inter) :: geometry ++ paint)
  else if bool_decide (kind = "GROUP") then
    bag (("name", JStr "Group") :: ("effects", JArr []) :: geometry)
  else bag [("name", JStr "Page")].

Definition container (kind : string) : bool :=
  bool_decide (kind ∈ ["FRAME"; "COMPONENT"; "GROUP"; "PAGE"]).

(** Envelopes the reference codec can decode: the ones it printed. *)
Definition decode (known : list TransferData) (s : string) : option TransferData :=
  List.find (fun t => bool_decide (print_envelope t = s)) known.

(** A host that creates every kind except the kinds in [refused], loads
    only the Inter family, and accepts every write, resize, append and
    removal. *)
Definition host (refused : list string) (known : list TransferData) : Host :=
  mkHost defaults container
         (fun _ kind => bool_decide (kind ∉ refused))
         (fun _ _ => true)
         (fun _ font => is_str (field font "family") "Inter")
         (fun _ _ _ _ => true)
         (fun _ _ _ _ => true)
         (fun _ _ _ => true)
         (fun _ _ => true)
         (decode known)
         print_envelope.

(** The family and style of a font name. *)
Definition font_key (font : jsval) : string * string :=
  (to_string (field font "family"), to_string (field font "style")).

(** A host like [host] on which the text of an element can only be
    written in a loaded font: a write of [characters] or [fontSize] is
    refused while the element's own [fontName] is not among the loaded
    fonts. *)
Definition typesetter (refused : list string) (known : list TransferData) : Host :=
  mkHost defaults container
         (fun _ kind => bool_decide (kind ∉ refused))
         (fun _ _ => true)
         (fun _ font => is_str (field font "family") "Inter")
         (fun d c k _ =>
            if bool_decide (k = "characters") || bool_decide (k = "fontSize") then
              match nodes d !! c with
              | Some n =>
                  existsb (fun f => bool_decide
                                      (font_key f = font_key (prop (n_props n) "fontName")))
                          (fonts d)
              | None => false
              end
            else true)
         (fun _ _ _ _ => true)
         (fun _ _ _ => true)
         (fun _ _ => true)
         (decode known)
         print_envelope.

End Reference.

Module Scenario.

Import Reference.

Definition element (kind id : string) (overrides : list (string * jsval))
    (children : option (list handle)) : HNode :=
  mkHNode kind id (bag overrides ∪ defaults kind) children.

(** The source document: a page holding the frame "Card" (stroke outside,
    a rectangle and the text "Hi" inside). *)
Definition library : Doc :=
  mkDoc (list_to_map
           [ (0, element "PAGE" "0" [("name", JStr "Page 1")] (Some [1]));
             (1, element "FRAME" "1"
                   [("name", JStr "Card"); ("strokeAlign", JStr "OUTSIDE")]
                   (Some [2; 3]));
             (2, element "RECTANGLE" "2" [("name", JStr "Box")] None);
             (3, element "TEXT" "3"
                   [("name", JStr "Label"); ("characters", JStr "Hi");
                    ("fontName", roboto)] None) ])
        4 [0] 0 [1] [].

(** The destination document: one empty page. *)
Definition product : Doc :=
  mkDoc (list_to_map [ (0, element "PAGE" "0" [("name", JStr "Page 1")] (Some [])) ])
        1 [0] 0 [] [].

Definition full_access : jsval :=
  JObj [("hasReadAccess", JBool true); ("hasWriteAccess", JBool true);
        ("scopeMessage", JStr " (Full access: read and write)")].
Definition read_only : jsval :=
  JObj [("hasReadAccess", JBool true); ("hasWriteAccess", JBool false)].

Definition destination (readable : bool) (feed : list Comment) : Remote :=
  mkRemote true
    {[ "DEST" := mkRemoteFile "Product" [("0", "Page 1")] readable true feed ]}.

(** The sending session. *)
Definition sender (scopes : jsval) (r : Remote) : World :=
  mkWorld library (JStr "SRC") "Library"
          (bag [("figmaApiToken", JStr "figd_token"); ("tokenScopes", scopes)])
          r 100 [] [] [] [].

(** The polling session inside the destination file. *)
Definition receiver (feed : list Comment) : World :=
  mkWorld product (JStr "DEST") "Product"
          (bag [("figmaApiToken", JStr "figd_token"); ("tokenScopes", full_access)])
          (destination true feed) 300 [] [] [] [].

Definition to_product : TransferRequest :=
  mkTransferRequest "DEST" (JStr "0") JUndef (JStr "figd_token").

(** The wire form of "Card", as the sender serializes it. *)
Definition card : NodeData :=
  deepSerializeNode (node_object 4 library 1).

Definition envelope (payload : NodeData) (name : string) (stamp : Z) : TransferData :=
  mkTransferData (JStr "DESIGN_TRANSFER") payload (JStr name) (JStr "Library")
                 (JStr "0") (JStr (toISOString stamp)).

(** A wire form with three children; the second is a group. *)
Definition row_fields : gmap string jsval :=
  bag [("type", JStr "FRAME"); ("name", JStr "Row")].
Definition row_children : list NodeData :=
  [ NObj (bag [("type", JStr "RECTANGLE"); ("name", JStr "A")]) None;
    NObj (bag [("type", JStr "GROUP"); ("name", JStr "Icons")]) (Some []);
    NObj (bag [("type", JStr "TEXT"); ("name", JStr "B");
               ("characters", JStr "Hi"); ("fontName", roboto)]) None ].
Definition row : NodeData := NObj row_fields (Some row_children).

(** A text set in a font the reference host cannot load. *)
Definition label_fields : gmap string jsval :=
  bag [("type", JStr "TEXT"); ("name", JStr "Label"); ("x", JNum 40);
       ("characters", JStr "Hi"); ("fontSize", JNum 14); ("fontName", roboto)].
Definition label : NodeData := NObj label_fields None.

(** The same text set in the font a fresh text element has. *)
Definition plain_label : NodeData :=
  NObj (<["fontName" := inter]> label_fields) None.

End Scenario.

(** * The rest of the plugin: the panel protocol

    The handlers of the main script that the relay does not go through
    ([handleValidateToken], [handleCheckStoredToken], [handleGetSelection],
    [handleGetFiles], [handleGetPages], [addToRecentFiles], the dispatcher
    [figma.ui.onmessage]) and, in [Earlier], the transfer functions of the
    script's earlier version. *)

(** ** Records of the panel protocol *)

(** [interface FileData] *)
Record FileData : Type := mkFileData {
  fd_key : string;
  fd_name : string;
  fd_lastModified : option Z;
}.

(** [interface PageData] *)
Record PageData : Type := mkPageData {
  pd_id : string;
  pd_name : jsval;
}.

(** What [GET /v1/me] answers, as far as the script reads it. *)
Record UserData : Type := mkUserData {
  u_handle : jsval;
  u_email : jsval;
}.

(** The messages to the panel that are neither [error], nor
    [transfer-progress], nor [transfer-complete]. *)
Inductive PanelMessage : Type :=
| TokenValidated (userName : jsval) (hasReadAccess hasWriteAccess : bool)
                 (scopeMessage : string)         (* token-validated, success *)
| TokenRejected (message : string)               (* token-validated, failure *)
| StoredTokenValid (token userName : jsval)      (* stored-token-valid *)
| NoStoredToken                                  (* stored-token-valid, token: null *)
| SelectionInfo (nodeName : jsval) (nodeType nodeId : string)
| NoSelection (message : string)                 (* selection-info, hasSelection: false *)
| FilesList (files : list FileData) (currentFileKey : jsval)
| PagesList (pages : list PageData) (fileKey : string) (fileName : jsval)
| Success (message : string)                     (* success (earlier version) *)
| CrossFileReady (name : jsval) (type : string) (svg : string)
                 (targetFileKey : string) (targetPageId newPageName : jsval).

(** What the REST service answers and the plugin never changes. *)
Record Service : Type := mkService {
  (* GET /v1/me with a token: the user when the response is ok *)
  service_me : jsval -> option UserData;
  (* the [type] of each entry of [document.children] of a file, in order *)
  service_types : string -> list jsval;
}.

(** The export side of the host. *)
Record Exporter : Type := mkExporter {
  has_exportAsync : Doc -> handle -> bool;       (* "exportAsync" in node *)
  export_svg : Doc -> handle -> option string;   (* base64 of the SVG; None: rejects *)
}.

(** The world together with what the remaining handlers touch.  The
    [recentFiles] entry of the client storage is kept here, typed as the
    script types it; requests to [/v1/me] are recorded in [probes], the
    other requests in [calls]. *)
Record Session : Type := mkSession {
  world : World;
  recentFiles : option (list FileData);
  probes : list jsval;                 (* tokens of GET /v1/me, oldest first *)
  panel : list PanelMessage;           (* oldest first *)
  thumbnails : list handle;            (* thumbnail exports started *)
  closed : bool;                       (* figma.closePlugin() *)
}.

Definition with_world (f : World -> World) (s : Session) : Session :=
  mkSession (f (world s)) (recentFiles s) (probes s) (panel s) (thumbnails s) (closed s).
Definition with_recentFiles (f : option (list FileData) -> option (list FileData))
    (s : Session) : Session :=
  mkSession (world s) (f (recentFiles s)) (probes s) (panel s) (thumbnails s) (closed s).
Definition with_probes (f : list jsval -> list jsval) (s : Session) : Session :=
  mkSession (world s) (recentFiles s) (f (probes s)) (panel s) (thumbnails s) (closed s).
Definition with_panel (f : list PanelMessage -> list PanelMessage) (s : Session) : Session :=
  mkSession (world s) (recentFiles s) (probes s) (f (panel s)) (thumbnails s) (closed s).
Definition with_thumbnails (f : list handle -> list handle) (s : Session) : Session :=
  mkSession (world s) (recentFiles s) (probes s) (panel s) (f (thumbnails s)) (closed s).
Definition with_closed (b : bool) (s : Session) : Session :=
  mkSession (world s) (recentFiles s) (probes s) (panel s) (thumbnails s) b.

Definition with_storage (f : gmap string jsval -> gmap string jsval) (w : World) : World :=
  mkWorld (doc w) (fileKey w) (rootName w) (f (storage w)) (remote w)
          (clock w) (calls w) (ui w) (notes w) (console w).

(** A computation of the world inside the session. *)
Definition in_world {A} (m : St World A) : St Session A :=
  fun s =>
    let '(r, w) := m (world s) in
    (r, with_world (fun _ => w) s).

Definition post (m : PanelMessage) : St Session unit :=
  modify (with_panel (fun p => p ++ [m])).

(** [figma.clientStorage.setAsync(k, v)] *)
Definition setAsync (k : string) (v : jsval) : St Session unit :=
  in_world (modify (with_storage (fun st => <[k := v]> st))).

(** [node.id] *)
Definition id_in (d : Doc) (h : handle) : string :=
  match nodes d !! h with
  | Some n => n_id n
  | None => ""
  end.

(** [userData.handle || userData.email || "User"] *)
Definition userName (u : UserData) : jsval :=
  js_or (js_or (u_handle u) (u_email u)) (JStr "User").

Definition scopeMessage : string := " (Full access: read and write)".

(** [{ hasReadAccess, hasWriteAccess, scopeMessage }] *)
Definition full_scopes : jsval :=
  JObj [("hasReadAccess", JBool true); ("hasWriteAccess", JBool true);
        ("scopeMessage", JStr scopeMessage)].

(** The merge loop of [handleGetFiles]: a recent file is pushed unless the
    list built so far holds an entry with its key. *)
Definition merge_recent (files recent : list FileData) : list FileData :=
  foldl (fun files file =>
           if existsb (fun f => bool_decide (fd_key f = fd_key file)) files
           then files else files ++ [file])
        files recent.

(** [document.children.filter(child => child.type === "CANVAS").map(...)];
    a child without a type entry has type [undefined] and is left out. *)
Definition canvases (types : list jsval) (children : list (string * string))
    : list PageData :=
  map (fun tc => mkPageData (fst (snd tc)) (JStr (snd (snd tc))))
      (List.filter (fun tc => is_str (fst tc) "CANVAS") (zip types children)).


Section Handlers.

Variable H : Host.
Variable V : Service.
Variable X : Exporter.

(** [fetch("https://api.figma.com/v1/me", ...)]: the user when the
    response is ok; the fetch rejects when the network is down. *)
Definition fetch_me (token : jsval) : St Session (option UserData) :=
  fun s =>
    let s := with_probes (fun l => l ++ [token]) s in
    if online (remote (world s)) then (Ok (service_me V token), s)
    else (Thrown "Failed to fetch", s).

(** [handleValidateToken] *)
Definition handleValidateToken (token : jsval) : St Session unit :=
  try_catch
    (do response <- fetch_me token;
     match response with
     | None => throw "Invalid API token. Please check your token and try again."
     | Some userData =>
         run setAsync "figmaApiToken" token;
         run setAsync "tokenScopes" full_scopes;
         run post (TokenValidated (userName userData) true true scopeMessage);
         in_world (notify ("✓ Token validated successfully" +:+ scopeMessage))
     end)
    (fun error => post (TokenRejected error)).

(** [handleCheckStoredToken]; [answered] stands for the early [return]. *)
Definition handleCheckStoredToken : St Session unit :=
  try_catch
    (do storedToken <- gets (fun s => prop (storage (world s)) "figmaApiToken");
     do answered <-
       (if truthy storedToken then
          do response <- fetch_me storedToken;
          match response with
          | Some userData =>
              run post (StoredTokenValid storedToken (userName userData));
              ret true
          | None => ret false
          end
        else ret false);
     when (negb answered) (post NoStoredToken))
    (fun error => post NoStoredToken).

(** [handleGetSelection]; the thumbnail export is started and its result
    arrives later, outside this function. *)
Definition handleGetSelection : St Session unit :=
  do selection <- gets (fun s => selection (doc (world s)));
  match selection with
  | [] => post (NoSelection "No frame or component selected")
  | [node] =>
      do type <- in_world (lift (kind_of node));
      if bool_decide (type ∈ validTypes) then
        do exportable <- gets (fun s => has_exportAsync X (doc (world s)) node);
        run when exportable (modify (with_thumbnails (fun l => l ++ [node])));
        do name <- gets (fun s => name_of (doc (world s)) node);
        do id <- gets (fun s => id_in (doc (world s)) node);
        post (SelectionInfo name type id)
      else post (NoSelection "Please select a frame, component, or group")
  | _ => post (NoSelection "Please select only one frame or component")
  end.

(** [handleGetFiles] *)
Definition handleGetFiles (token : jsval) : St Session unit :=
  try_catch
    (do userResponse <- fetch_me token;
     match userResponse with
     | None => throw "Failed to authenticate with Figma API"
     | Some userData =>
         do key <- gets (fun s => fileKey (world s));
         do name <- gets (fun s => rootName (world s));
         do now <- gets (fun s => clock (world s));
         let files :=
           [mkFileData (to_string (js_or key (JStr "current")))
                       (name +:+ " (Current File)") (Some now)] in
         do recent <- gets (fun s => default [] (recentFiles s));
         post (FilesList (merge_recent files recent) key)
     end)
    (fun error => in_world (postMessage (UiError error))).

(** [addToRecentFiles] *)
Definition addToRecentFiles (file : FileData) : St Session unit :=
  do recent <- gets (fun s => default [] (recentFiles s));
  let filtered := filter (fun f => fd_key f ≠ fd_key file) recent in
  let updated := take 20 (file :: filtered) in
  modify (with_recentFiles (fun _ => Some updated)).

(** [handleGetPages] *)
Definition handleGetPages (key : string) (token : jsval) : St Session unit :=
  try_catch
    (do current <- gets (fun s => fileKey (world s));
     if is_str current key || bool_decide (key = "current") then
       run in_world loadAllPagesAsync;
       do pages <- gets (fun s =>
                     map (fun p => mkPageData (id_in (doc (world s)) p)
                                              (name_of (doc (world s)) p))
                         (pages (doc (world s))));
       do name <- gets (fun s => rootName (world s));
       post (PagesList pages key (JStr name))
     else
       do response <- in_world (fetch_file key token);
       match response with
       | None =>
           throw "Failed to fetch file. Please check the file key and your permissions."
       | Some fileData =>
           let pages := canvases (service_types V key) (f_pages fileData) in
           do now <- gets (fun s => clock (world s));
           run addToRecentFiles (mkFileData key (f_name fileData) (Some now));
           post (PagesList pages key (JStr (f_name fileData)))
       end)
    (fun error => in_world (postMessage (UiError error))).


End Handlers.

(** ** The earlier version of the script *)

Module Earlier.

Section Transfers.

Variable H : Host.
Variable X : Exporter.

(** [transferWithinCurrentFile] of the earlier version: the clone is
    appended to the target page; page and selection are left alone. *)
Definition transferWithinCurrentFile (node : handle) (msg : TransferRequest)
    : St Session unit :=
  try_catch
    (run in_world loadAllPagesAsync;
     do clonedNode <- in_world (lift (clone H node));
     do targetPage <-
       (if truthy (m_newPageName msg) then
          do p <- in_world (lift (createPage H));
          run in_world (lift (set_prop H p "name" (m_newPageName msg)));
          ret p
        else if truthy (m_pageId msg) then
          do page <- gets (fun s => find_page (m_pageId msg) (doc (world s)));
          match page with
          | None => throw "Target page not found"
          | Some p => ret p
          end
        else throw "No target page specified");
     run in_world (lift (appendChild H targetPage clonedNode));
     do nodeName <- gets (fun s => name_of (doc (world s)) node);
     do pageName <- gets (fun s => name_of (doc (world s)) targetPage);
     run post (Success ("Successfully transferred " +:+ in_quotes (to_string nodeName)
                        +:+ " to page " +:+ in_quotes (to_string pageName)
                        +:+ " (no redirect)"));
     in_world (notify ("✓ Transferred to " +:+ in_quotes (to_string pageName)
                       +:+ " (no redirect)")))
    (fun error => throw error).

(** [clonedNode.exportAsync({ format: "SVG" })], base64-encoded. *)
Definition exportAsync (c : handle) : St Session string :=
  fun s =>
    match export_svg X (doc (world s)) c with
    | Some svg => (Ok svg, s)
    | None => (Thrown "export failed", s)
    end.

(** [transferToOtherFile] of the earlier version: the clone is exported
    and handed to the panel; no request is made here. *)
Definition transferToOtherFile (node : handle) (msg : TransferRequest)
    : St Session unit :=
  try_catch
    (do clonedNode <- in_world (lift (clone H node));
     do exportable <- gets (fun s => has_exportAsync X (doc (world s)) clonedNode);
     do base64Data <-
       (if exportable then exportAsync clonedNode
        else throw "Cannot export this node type");
     do name <- gets (fun s => name_of (doc (world s)) node);
     do type <- in_world (lift (kind_of node));
     run post (CrossFileReady name type base64Data
                 (m_fileKey msg) (m_pageId msg) (m_newPageName msg));
     in_world (lift (remove H clonedNode)))
    (fun error => throw error).

(** [handleTransfer]: the same text in both versions. *)
Definition handleTransfer (msg : TransferRequest) : St Session unit :=
  do selection <- gets (fun s => selection (doc (world s)));
  match selection with
  | [node] =>
      try_catch
        (do key <- gets (fun s => fileKey (world s));
         if is_str key (m_fileKey msg) || bool_decide (m_fileKey msg = "current")
         then transferWithinCurrentFile node msg
         else transferToOtherFile node msg)
        (fun error =>
           in_world (postMessage (UiError ("Failed to transfer: " +:+ error))))
  | _ => in_world (postMessage (UiError bad_selection))
  end.

End Transfers.

End Earlier.

(** ** What the claims speak about *)

(** No [id] entry anywhere in a serialized tree. *)
Fixpoint identity_free (d : NodeData) : Prop :=
  match d with
  | NNull => True
  | NObj fields children =>
      fields !! "id" = None
      ∧ match children with
        | Some cs =>
            (fix all (l : list NodeData) : Prop :=
               match l with
               | [] => True
               | c :: l' => identity_free c ∧ all l'
               end) cs
        | None => True
        end
  end.

(** The serialized tree repeats the shape of the element tree and holds,
    at every position, the element's identifier under [id]. *)
Fixpoint carries_ids (n : BaseNode) (d : NodeData) {struct n} : Prop :=
  match n, d with
  | Element _ id _ children, NObj fields cs =>
      fields !! "id" = Some (JStr id)
      ∧ match children, cs with
        | Some ns, Some ds =>
            (fix all (ns : list BaseNode) (ds : list NodeData) : Prop :=
               match ns, ds with
               | [], [] => True
               | n' :: ns', d' :: ds' => carries_ids n' d' ∧ all ns' ds'
               | _, _ => False
               end) ns ds
        | None, None => True
        | _, _ => False
        end
  | _, NNull => False
  end.

(** The specification's [claimLatest], in the specification's words: the
    pending message with the latest creation time, the later one in feed
    order when times collide.  It is compared with [latestComment], the
    claim step of the script. *)
Definition claimLatest (pending : list Comment) : option Comment :=
  foldl (fun best c =>
           match best with
           | Some b => if (c_created_at b <=? c_created_at c)%Z then Some c else Some b
           | None => Some c
           end) None pending.

(** The children of an element in a document. *)
Definition children_of (d : Doc) (h : handle) : option (list handle) :=
  n ← nodes d !! h; n_children n.

(** A property of an element in a document. *)
Definition prop_of (d : Doc) (h : handle) (k : string) : option jsval :=
  n ← nodes d !! h; n_props n !! k.

Definition type_of (d : Doc) (h : handle) : option string :=
  n_type <$> nodes d !! h.

Definition feed_of (w : World) (key : string) : list Comment :=
  match files (remote w) !! key with
  | Some f => f_comments f
  | None => []
  end.


(** ** Names for the parts of [createNodeFromSerialized] *)

(** The child loop. *)
Definition createChildren (H : Host) (targetPage created : handle)
    : list NodeData -> St World unit :=
  fix each (l : list NodeData) : St World unit :=
    match l with
    | [] => ret tt
    | childData :: l' =>
        do childNode <- createNodeFromSerialized H childData targetPage;
        run adopt H created childNode;
        each l'
    end.

(** Everything before the child loop: the element is created and its
    properties are applied. *)
Definition prepare (H : Host) (fields : gmap string jsval) (targetPage : handle)
    : St World (option handle) :=
  run log "Creating node from serialized data:";
  do createdNode <-
    createByType H (prop fields "type") (prop fields "fontName") targetPage;
  match createdNode with
  | None => ret None
  | Some created =>
      run log "Node created, applying properties...";
      run lift (applyProperties H created fields);
      ret (Some created)
  end.

(** What the recursive calls of the child loop answer, child by child,
    each call running in the world its predecessors left behind. *)
Fixpoint child_outcomes (H : Host) (targetPage created : handle)
    (cs : list NodeData) (w : World) : list (option handle) :=
  match cs with
  | [] => []
  | childData :: cs' =>
      match createNodeFromSerialized H childData targetPage w with
      | (Ok childNode, w1) =>
          childNode
            :: child_outcomes H targetPage created cs'
                 (snd (adopt H created childNode w1))
      | (Thrown _, _) => []
      end
  end.

(** The answers of the recursive calls that
    [createNodeFromSerialized H nodeData targetPage] makes from [w]. *)
Definition child_answers (H : Host) (nodeData : NodeData) (targetPage : handle)
    (w : World) : list (option handle) :=
  match nodeData with
  | NObj fields (Some cs) =>
      match prepare H fields targetPage w with
      | (Ok (Some created), w1) =>
          child_outcomes H targetPage created cs
            (snd (log "Creating children:" w1))
      | _ => []
      end
  | _ => []
  end.

(** The worlds the recursive calls of the child loop leave behind, child
    by child: the state right after each call, before its result is
    adopted. *)
Fixpoint child_worlds (H : Host) (targetPage created : handle)
    (cs : list NodeData) (w : World) : list World :=
  match cs with
  | [] => []
  | childData :: cs' =>
      match createNodeFromSerialized H childData targetPage w with
      | (Ok childNode, w1) =>
          w1 :: child_worlds H targetPage created cs'
                  (snd (adopt H created childNode w1))
      | (Thrown _, _) => []
      end
  end.

(** The worlds the recursive calls that
    [createNodeFromSerialized H nodeData targetPage] makes from [w] leave
    behind. *)
Definition child_states (H : Host) (nodeData : NodeData) (targetPage : handle)
    (w : World) : list World :=
  match nodeData with
  | NObj fields (Some cs) =>
      match prepare H fields targetPage w with
      | (Ok (Some created), w1) =>
          child_worlds H targetPage created cs
            (snd (log "Creating children:" w1))
      | _ => []
      end
  | _ => []
  end.

(** The line the [catch] of [createNodeFromSerialized] writes. *)
Definition error_line : string := "Error creating node from serialized:".

(** ** Documents and elements, for the proofs *)

(** Handles in use lie below [next], and so do the children they list. *)
Definition wf (d : Doc) : Prop :=
  forall h n, nodes d !! h = Some n ->
    h < next d
    ∧ forall cs, n_children n = Some cs -> Forall (fun c => c < next d) cs.

(** The document [d] with element [n] stored under [c]. *)
Definition put (c : handle) (n : HNode) (d : Doc) : Doc :=
  with_nodes (fun ns => <[c := n]> ns) d.

(** [m] succeeds on every document and changes element [c] by [f], and
    nothing else. *)
Definition effect (c : handle) (m : St Doc unit) (f : HNode -> HNode) : Prop :=
  forall n d, m (put c n d) = (Ok tt, put c (f n) d).

Definition write (k : string) (v : jsval) : HNode -> HNode :=
  with_props (fun p => <[k := v]> p).

Definition cond (b : HNode -> bool) (f : HNode -> HNode) : HNode -> HNode :=
  fun n => if b n then f n else n.

(** [f] leaves property [k] of every element as it is. *)
Definition keeps (k : string) (f : HNode -> HNode) : Prop :=
  forall n, n_props (f n) !! k = n_props n !! k.

(** [f] changes nothing but properties. *)
Definition shape_preserving (f : HNode -> HNode) : Prop :=
  forall n, n_type (f n) = n_type n ∧ n_id (f n) = n_id n
            ∧ n_children (f n) = n_children n.

Definition assigned (fields : gmap string jsval) (k : string) : HNode -> HNode :=
  cond (fun n => has (n_props n) k && defined (prop fields k))
       (write k (prop fields k)).
Definition assigned_truthy (fields : gmap string jsval) (k : string) : HNode -> HNode :=
  cond (fun _ => truthy (prop fields k)) (write k (prop fields k)).
Definition assigned_given (fields : gmap string jsval) (k : string) : HNode -> HNode :=
  cond (fun _ => defined (prop fields k)) (write k (prop fields k)).

(** The steps of [applyProperties] on an element whose host accepts every
    write, in order. *)
Definition property_steps (fields : gmap string jsval) : list (HNode -> HNode) :=
  [ write "name" (prop fields "name");
    assigned fields "x";
    assigned fields "y";
    cond (fun n => has (n_props n) "width" && defined (prop fields "width"))
         (with_props (fun p =>
            <["height" := js_or (prop fields "height") (JNum 100)]>
              (<["width" := prop fields "width"]> p)));
    assigned fields "rotation";
    assigned fields "opacity";
    assigned fields "blendMode";
    assigned fields "fills";
    assigned fields "strokes";
    assigned fields "strokeWeight";
    assigned fields "effects";
    assigned fields "cornerRadius";
    cond (fun n => bool_decide (n_type n = "TEXT") && has (n_props n) "characters")
         (fun n => assigned_truthy fields "fontSize"
                     (assigned_truthy fields "characters" n));
    cond (fun n => has (n_props n) "layoutMode" && truthy (prop fields "layoutMode"))
         (fun n =>
            foldl (fun n f => f n) n
              [ write "layoutMode" (prop fields "layoutMode");
                assigned_truthy fields "primaryAxisSizingMode";
                assigned_truthy fields "counterAxisSizingMode";
                assigned_given fields "paddingLeft";
                assigned_given fields "paddingRight";
                assigned_given fields "paddingTop";
                assigned_given fields "paddingBottom";
                assigned_given fields "itemSpacing" ]) ].

Definition applied (fields : gmap string jsval) (n : HNode) : HNode :=
  foldl (fun n f => f n) n (property_steps fields).

(** The properties [applyProperties] copies with the plain guard
    ["k" in createdNode && nodeData.k !== undefined]. *)
Definition plain_keys : list string :=
  [ "x"; "y"; "rotation"; "opacity"; "blendMode"; "fills"; "strokes";
    "strokeWeight"; "effects"; "cornerRadius" ].

(** ** Invariants of a reconstruction *)

Definition container (d : Doc) (h : handle) : Prop := is_Some (children_of d h).

(** [d] is what a reconstruction into [page] can make of [d0]: elements
    may have been added, the target page and the current page may have
    gained or lost children, and every other element of [d0] is as it
    was. *)
Record extends (d0 : Doc) (page : handle) (d : Doc) : Prop := mk_extends {
  ext_wf : wf d;
  ext_next : (next d0 ≤ next d)%nat;
  ext_current : currentPage d = currentPage d0;
  ext_pages : pages d = pages d0;
  ext_selection : selection d = selection d0;
  ext_old : forall h, h < next d0 -> h ≠ page -> h ≠ currentPage d0 ->
                      nodes d !! h = nodes d0 !! h;
  ext_container : forall h, container d0 h -> container d h;
}.

(** [extends], with the handles in [fresh] known to be new and in use. *)
Definition grown (d0 : Doc) (page : handle) (fresh : list handle) (d : Doc) : Prop :=
  extends d0 page d ∧ Forall (fun c => (next d0 ≤ c < next d)%nat) fresh.

(** Everything of the world but document and console. *)
Definition surroundings (w : World)
    : jsval * string * gmap string jsval * Remote * Z
      * list Request * list UiMessage * list string :=
  (fileKey w, rootName w, storage w, remote w, clock w, calls w, ui w, notes w).

Definition grown_world (w0 : World) (page : handle) (fresh : list handle)
    (w : World) : Prop :=
  grown (doc w0) page fresh (doc w) ∧ surroundings w = surroundings w0.

(** Partial correctness with an exceptional postcondition: from a state
    in [P], [m] ends in [Q] when it returns and in [E] when it throws. *)
Definition triple {S A} (P : S -> Prop) (m : St S A)
    (Q : A -> S -> Prop) (E : S -> Prop) : Prop :=
  forall s, P s ->
    match m s with
    | (Ok a, s') => Q a s'
    | (Thrown _, s') => E s'
    end.

(** A reconstruction from a well-formed document never throws and only
    grows the document; the element it answers is new. *)
Definition grows_into (H : Host) (page : handle) (nodeData : NodeData) : Prop :=
  forall w, wf (doc w) ->
    exists r w',
      createNodeFromSerialized H nodeData page w = (Ok r, w')
      ∧ grown_world w page (match r with Some c => [c] | None => [] end) w'.
(** ** Notions for the remaining properties *)

(** The own properties of a serialized node. *)
Definition fields_of (d : NodeData) : gmap string jsval :=
  match d with
  | NObj fields _ => fields
  | NNull => ∅
  end.

Definition same_view (d d' : Doc) : Prop :=
  pages d' = pages d ∧ selection d' = selection d
  ∧ currentPage d' = currentPage d ∧ fonts d' = fonts d.

(** [m] takes every state to a state related to it by [R], whether it
    returns or throws. *)
Definition along {S A} (R : S -> S -> Prop) (m : St S A) : Prop :=
  forall s, R s (snd (m s)).

(** No element that exists in [d] changes its type or its identifier on
    the way to [d'], and none is removed. *)
Definition kinds_kept (d d' : Doc) : Prop :=
  (next d ≤ next d')%nat
  ∧ forall h, (h < next d)%nat ->
      type_of d' h = type_of d h ∧ id_in d' h = id_in d h.

(** [kinds_kept] on the documents, and the console only grows. *)
Definition kept (w w' : World) : Prop :=
  kinds_kept (doc w) (doc w') ∧ console w `prefix_of` console w'.

(** The kind of element the [switch] of [createNodeFromSerialized] creates
    for a payload [type]. *)
Definition created_kind (type : jsval) : string :=
  if is_str type "FRAME" then "FRAME"
  else if is_str type "RECTANGLE" then "RECTANGLE"
  else if is_str type "ELLIPSE" then "ELLIPSE"
  else if is_str type "TEXT" then "TEXT"
  else if is_str type "GROUP" then "GROUP"
  else if is_str type "COMPONENT" then "COMPONENT"
  else "FRAME".

(** What [createNodeFromSerialized] does once the [switch] has created the
    element: properties, children, the final append, and the [catch]. *)
Definition creation_body (H : Host) (fields : gmap string jsval)
    (children : option (list NodeData)) (page created : handle)
    : St World (option handle) :=
  run log "Node created, applying properties...";
  run lift (applyProperties H created fields);
  run (match children with
       | Some cs =>
           do can <- lift (exposes_appendChild created);
           when can
             (run log "Creating children:";
              createChildren H page created cs)
       | None => ret tt
       end);
  run log "Adding node to target page";
  run lift (appendChild H page created);
  ret (Some created).

Definition after_creation (H : Host) (fields : gmap string jsval)
    (children : option (list NodeData)) (page created : handle)
    : St World (option handle) :=
  try_catch (creation_body H fields children page created)
    (fun error => run log "Error creating node from serialized:"; ret None).

(** The page [applyPendingTransfer] accepts for an identifier: the first
    child of the root with that [id], if its type is [PAGE]. *)
Definition target_of (id : jsval) (d : Doc) : option handle :=
  match find_page id d with
  | Some p => if is_page d p then Some p else None
  | None => None
  end.

(** The state one polling cycle leaves, and the state after [n] cycles. *)
Definition cycle (H : Host) (w : World) : World :=
  snd (checkAndApplyPendingTransfers H w).

Definition cycles (H : Host) (n : nat) (w : World) : World :=
  Nat.iter n (cycle H) w.

(** A relay comment the consumer cannot apply in document [d]: its
    envelope does not parse, or its target page is not there. *)
Definition undeliverable (H : Host) (d : Doc) (c : Comment) : Prop :=
  match JSON_parse H (drop_first (marker +:+ newline) (c_message c)) with
  | None => True
  | Some td => target_of (t_targetPageId td) d = None
  end.

(** The entry [handleGetFiles] lists for the current file. *)
Definition current_entry (w : World) : FileData :=
  mkFileData (to_string (js_or (fileKey w) (JStr "current")))
             (rootName w +:+ " (Current File)") (Some (clock w)).

(** The user's place in the document: the current page and the selection. *)
Definition view_kept (d d' : Doc) : Prop :=
  currentPage d' = currentPage d ∧ selection d' = selection d.

(** Nothing but the document's elements and pages, the panel and the
    notifications has changed. *)
Definition quiet (s s' : Session) : Prop :=
  view_kept (doc (world s)) (doc (world s'))
  ∧ calls (world s') = calls (world s)
  ∧ remote (world s') = remote (world s)
  ∧ storage (world s') = storage (world s)
  ∧ probes s' = probes s.

(** A serialized tree without its [id] entries. *)
Fixpoint without_ids (d : NodeData) : NodeData :=
  match d with
  | NNull => NNull
  | NObj fields children =>
      NObj (delete "id" fields)
           (match children with
            | Some cs => Some (map without_ids cs)
            | None => None
            end)
  end.

(** The depth of an object graph, counted as [node_object] spends fuel. *)
Fixpoint height (n : BaseNode) : nat :=
  match n with
  | Element _ _ _ None => 0
  | Element _ _ _ (Some cs) => S (foldr (fun k m => Nat.max (height k) m) 0 cs)
  end.

(** The number of elements of an object graph, and of a list of them. *)
Fixpoint size (n : BaseNode) : nat :=
  match n with
  | Element _ _ _ None => 1
  | Element _ _ _ (Some cs) => S (foldr (fun k m => size k + m) 0 cs)
  end.

Definition sizes (l : list BaseNode) : nat := foldr (fun k m => size k + m) 0 l.
Definition heights (l : list BaseNode) : nat :=
  foldr (fun k m => Nat.max (height k) m) 0 l.

(** Planting [n] lays its elements out on consecutive fresh handles, the
    root first, and touches no other handle. *)
Definition laid_out (n : BaseNode) : Prop :=
  forall d, exists d',
    plant n d = (Ok (next d), d')
    ∧ next d' = (next d + size n)%nat
    ∧ (forall x, (x < next d)%nat ∨ (next d' ≤ x)%nat -> nodes d' !! x = nodes d !! x)
    ∧ forall fuel, (height n ≤ fuel)%nat ->
        subtree fuel d' (next d) = seq (next d) (size n).

(** The store holds, at [c] and with handles in [[lo, hi)], an element
    tree with the types, properties and children of [n]. *)
Fixpoint reads (lo hi : nat) (d : Doc) (c : handle) (n : BaseNode) {struct n} : Prop :=
  match n with
  | Element type _ props children =>
      (lo ≤ c < hi)%nat
      ∧ exists hn, nodes d !! c = Some hn
          ∧ n_type hn = type ∧ n_props hn = props
          ∧ match children with
            | None => n_children hn = None
            | Some cs =>
                exists hs, n_children hn = Some hs
                  ∧ (fix all (cs : list BaseNode) (hs : list handle) {struct cs} : Prop :=
                       match cs, hs with
                       | [], [] => True
                       | k :: cs', h :: hs' => reads lo hi d h k ∧ all cs' hs'
                       | _, _ => False
                       end) cs hs
            end
  end.

(** [reads] on lists, as the definition spells it. *)
Definition reads_all (lo hi : nat) (d : Doc) : list BaseNode -> list handle -> Prop :=
  fix all (cs : list BaseNode) (hs : list handle) {struct cs} : Prop :=
    match cs, hs with
    | [], [] => True
    | k :: cs', h :: hs' => reads lo hi d h k ∧ all cs' hs'
    | _, _ => False
    end.

(** Planting [n] works on every store, uses fresh handles only, and leaves
    a tree that reads back as [n]. *)
Definition planted (n : BaseNode) : Prop :=
  forall d, exists d',
    plant n d = (Ok (next d), d')
    ∧ (next d < next d')%nat
    ∧ (height n + next d ≤ next d')%nat
    ∧ (forall x, (x < next d)%nat -> nodes d' !! x = nodes d !! x)
    ∧ reads (next d) (next d') d' (next d) n.

(** [wf], as a check that can be run. *)
Definition wf_check (d : Doc) : bool :=
  forallb (fun hn : handle * HNode =>
             (fst hn <? next d)%nat
             && match n_children (snd hn) with
                | Some cs => forallb (fun c => (c <? next d)%nat) cs
                | None => true
                end) (map_to_list (nodes d)).

(** ** Further sessions, for the instances below *)
Module Cases.

Import Reference.

Definition H0 : Host := host [] [].

(** The sending session with a readable and with an unreadable
    destination. *)
Definition sending : World :=
  Scenario.sender Scenario.full_access (Scenario.destination true []).
Definition unreadable : World :=
  Scenario.sender Scenario.full_access (Scenario.destination false []).

(** Requests that stay in the current file: to page "0", to a new page,
    and to no page at all. *)
Definition within : TransferRequest :=
  mkTransferRequest "current" (JStr "0") JUndef (JStr "figd_token").
Definition to_new_page : TransferRequest :=
  mkTransferRequest "current" JUndef (JStr "Archive") (JStr "figd_token").

(** A wire form of a kind the switch does not list. *)
Definition vector_fields : gmap string jsval :=
  bag [("type", JStr "VECTOR"); ("name", JStr "Path")].

(** A wire form with a width and no height. *)
Definition wide_fields : gmap string jsval :=
  bag [("type", JStr "FRAME"); ("name", JStr "Wide"); ("width", JNum 320)].

(** A host on which element names are read-only. *)
Definition fixed_names : Host :=
  mkHost defaults container
         (fun _ _ => true) (fun _ _ => true)
         (fun _ font => is_str (field font "family") "Inter")
         (fun _ _ k _ => negb (bool_decide (k = "name")))
         (fun _ _ _ _ => true) (fun _ _ _ => true) (fun _ _ => true)
         (decode []) print_envelope.

(** A host on which nothing can be removed. *)
Definition keeper : Host :=
  mkHost defaults container
         (fun _ _ => true) (fun _ _ => true)
         (fun _ font => is_str (field font "family") "Inter")
         (fun _ _ _ _ => true)
         (fun _ _ _ _ => true) (fun _ _ _ => true) (fun _ _ => false)
         (decode []) print_envelope.

(** A marked comment no codec decodes, and an ordinary comment. *)
Definition garbled : Comment :=
  mkComment "c7" (marker +:+ newline +:+ "{") 200.
Definition remark : Comment := mkComment "c3" "Looks good" 150.

Definition session (w : World) : Session := mkSession w None [] [] [] false.

Definition ada : UserData := mkUserData (JStr "ada") JUndef.

(** A service that knows one token. *)
Definition service : Service :=
  mkService (fun token => if is_str token "figd_token" then Some ada else None)
            (fun _ => [JStr "CANVAS"]).


(** A session whose storage holds a token and no scopes. *)
Definition returning : Session :=
  session (mkWorld Scenario.library (JStr "SRC") "Library"
             (bag [("figmaApiToken", JStr "figd_token")])
             (Scenario.destination true []) 100 [] [] [] []).

End Cases.

Module Relay.

(** An envelope for "Card", the comment that carries it, and a host whose
    codec decodes it. *)
Definition parcel : TransferData := Scenario.envelope Scenario.card "Card" 100.
Definition carrier : Comment := mkComment "c9" (Reference.message_of parcel) 250.
Definition H1 : Host := Reference.host [] [parcel].

End Relay.
Module Desk.

(** A session that has visited two files before. *)
Definition visited : Session :=
  mkSession Cases.sending
            (Some [mkFileData "DEST" "Product" (Some 90%Z);
                   mkFileData "SRC" "Library" (Some 80%Z)])
            [] [] [] false.

Definition product_file : RemoteFile :=
  mkRemoteFile "Product" [("0", "Page 1")] true true [].

End Desk.

(** * Properties *)

(** ** Computations *)

Lemma try_catch_total {S A} (m : St S A) (handler : string -> St S A) :
  (forall e s, exists a s', handler e s = (Ok a, s')) ->
  forall s, exists a s', try_catch m handler s = (Ok a, s').
Proof.
  intros Hh s. unfold try_catch.
  destruct (m s) as [[a|e] s']; [by exists a, s' | apply Hh].
Qed.

Lemma bind_assoc {S A B C} (m : St S A) (k : A -> St S B) (k' : B -> St S C) s :
  bind (bind m k) k' s = bind m (fun a => bind (k a) k') s.
Proof. unfold bind. by destruct (m s) as [[a|e] s']. Qed.

Lemma bind_ext {S A B} (m : St S A) (k k' : A -> St S B) s :
  (forall a s', k a s' = k' a s') -> bind m k s = bind m k' s.
Proof. intros Hk. unfold bind. destruct (m s) as [[a|e] s']; [apply Hk | done]. Qed.

(** ** Triples *)

Lemma triple_conseq {S A} (P P' : S -> Prop) (m : St S A)
    (Q Q' : A -> S -> Prop) (E E' : S -> Prop) :
  triple P' m Q' E' ->
  (forall s, P s -> P' s) ->
  (forall a s, Q' a s -> Q a s) ->
  (forall s, E' s -> E s) ->
  triple P m Q E.
Proof.
  intros Hm HP HQ HE s Hs. specialize (Hm s (HP s Hs)).
  destruct (m s) as [[a|e] s']; auto.
Qed.

Lemma triple_ret {S A} (P : S -> Prop) (a : A) (Q : A -> S -> Prop) E :
  (forall s, P s -> Q a s) -> triple P (ret a) Q E.
Proof. intros HQ s Hs. by apply HQ. Qed.

Lemma triple_throw {S A} (P : S -> Prop) e (Q : A -> S -> Prop) (E : S -> Prop) :
  (forall s, P s -> E s) -> triple P (throw e) Q E.
Proof. intros HE s Hs. by apply HE. Qed.

Lemma triple_gets {S A} (P : S -> Prop) (f : S -> A) (Q : A -> S -> Prop) E :
  (forall s, P s -> Q (f s) s) -> triple P (gets f) Q E.
Proof. intros HQ s Hs. by apply HQ. Qed.

Lemma triple_bind {S A B} (P : S -> Prop) (m : St S A) (k : A -> St S B)
    (Q : A -> S -> Prop) (R : B -> S -> Prop) (E : S -> Prop) :
  triple P m Q E -> (forall a, triple (Q a) (k a) R E) -> triple P (bind m k) R E.
Proof.
  intros Hm Hk s Hs. specialize (Hm s Hs). unfold bind.
  destruct (m s) as [[a|e] s']; [by apply Hk | done].
Qed.

Lemma triple_try_catch {S A} (P : S -> Prop) (m : St S A) handler
    (Q : A -> S -> Prop) (E E' : S -> Prop) :
  triple P m Q E' -> (forall e, triple E' (handler e) Q E) ->
  triple P (try_catch m handler) Q E.
Proof.
  intros Hm Hh s Hs. specialize (Hm s Hs). unfold try_catch.
  destruct (m s) as [[a|e] s']; [done | by apply Hh].
Qed.

Lemma triple_when {S} (P : S -> Prop) b (m : St S unit) E :
  triple P m (fun _ => P) E -> triple P (when b m) (fun _ => P) E.
Proof. intros Hm. destruct b; [done | by apply triple_ret]. Qed.

Lemma triple_lift {A} (PD : Doc -> Prop) (m : St Doc A) QD ED
    (s0 : jsval * string * gmap string jsval * Remote * Z
          * list Request * list UiMessage * list string) :
  triple PD m QD ED ->
  triple (fun w => PD (doc w) ∧ surroundings w = s0) (lift m)
         (fun a w => QD a (doc w) ∧ surroundings w = s0)
         (fun w => ED (doc w) ∧ surroundings w = s0).
Proof.
  intros Hm w [Hd Hs]. specialize (Hm (doc w) Hd). unfold lift.
  destruct (m (doc w)) as [[a|e] d']; by split.
Qed.

Lemma triple_log (P : World -> Prop) s E :
  (forall w, P w -> P (with_console (fun c => c ++ [s]) w)) ->
  triple P (log s) (fun _ => P) E.
Proof. intros HP w Hw. by apply HP. Qed.

(** ** Identifiers on the wire *)

Lemma copy_if_present_other (node : gmap string jsval) k k' s :
  k ≠ k' -> copy_if_present node k s !! k' = s !! k'.
Proof.
  intros Hne. unfold copy_if_present.
  destruct (node !! k); [by rewrite lookup_insert_ne | done].
Qed.

Lemma copies_keep_other (node : gmap string jsval) keys k' s :
  k' ∉ keys ->
  foldl (fun s k => copy_if_present node k s) s keys !! k' = s !! k'.
Proof.
  revert s. induction keys as [|k keys IH]; intros s Hnot; [done|].
  apply not_elem_of_cons in Hnot as [Hne Hnot].
  cbn [foldl]. rewrite IH by done.
  by apply copy_if_present_other.
Qed.

Lemma serialized_id type id props children :
  exists fields cs,
    deepSerializeNode (Element type id props children) = NObj fields cs
    ∧ fields !! "id" = Some (JStr id)
    ∧ cs = (map deepSerializeNode <$> children).
Proof.
  eexists _, _. cbn [deepSerializeNode]. split; [reflexivity|]. split.
  - rewrite copies_keep_other.
    + by rewrite lookup_insert_eq.
    + apply (bool_decide_unpack _). by vm_compute.
  - by destruct children.
Qed.

(** C4, as the script has it: the serialized tree carries the source
    element's identifier under [id], at the root and at every recursively
    serialized child. *)
Theorem deepSerializeNode_carries_ids (node : BaseNode) :
  carries_ids node (deepSerializeNode node).
Proof.
  revert node. fix IH 1. intros [type id props children].
  destruct (serialized_id type id props children) as (fields & cs & -> & Hid & ->).
  cbn [carries_ids]. split; [exact Hid|].
  destruct children as [ns|]; cbn [fmap option_fmap option_map]; [|exact I].
  induction ns as [|n ns IHns]; cbn [map]; [exact I|].
  split; [apply IH | exact IHns].
Qed.

(** C4 as stated fails on the frame "Card": its wire form has an [id]. *)
Lemma serialized_card_has_id :
  ¬ identity_free (deepSerializeNode (node_object 4 Scenario.library 1)).
Proof.
  intros [Hid _]. vm_compute in Hid. discriminate Hid.
Qed.

(** ** The document store *)

Lemma lookup_attach p c (ns : gmap nat HNode) h :
  attach p c ns !! h
  = if decide (p = h) then with_children (fun l => l ++ [c]) <$> ns !! h
    else ns !! h.
Proof.
  unfold attach. rewrite lookup_alter. by destruct (decide (p = h)) as [->|].
Qed.

Lemma lookup_detach c (ns : gmap nat HNode) h :
  detach c ns !! h = with_children (filter (fun x => x ≠ c)) <$> ns !! h.
Proof. unfold detach. apply lookup_fmap. Qed.

Lemma filter_below (m c : nat) (l : list nat) :
  Forall (fun x => (x < m)%nat) l -> (m ≤ c)%nat ->
  filter (fun x => x ≠ c) l = l.
Proof.
  intros Hl Hc. induction Hl as [|x l Hx Hl IH]; [done|].
  rewrite filter_cons_True by lia. by rewrite IH.
Qed.

Lemma filter_above (c : nat) (l : list nat) :
  Forall (fun x => (c < x)%nat) l -> filter (fun x => x ≠ c) l = l.
Proof.
  intros Hl. induction Hl as [|x l Hx Hl IH]; [done|].
  rewrite filter_cons_True by lia. by rewrite IH.
Qed.

Lemma with_children_id f (n : HNode) :
  (forall l, n_children n = Some l -> f l = l) -> with_children f n = n.
Proof.
  intros Hf. destruct n as [t i p [l|]]; unfold with_children; cbn; [|done].
  by rewrite Hf.
Qed.

Lemma children_with_children f n :
  n_children (with_children f n) = f <$> n_children n.
Proof. done. Qed.

Lemma wf_lookup d h n :
  wf d -> nodes d !! h = Some n -> (h < next d)%nat.
Proof. intros Hwf Hn. by destruct (Hwf h n Hn). Qed.

Lemma wf_children d h n l :
  wf d -> nodes d !! h = Some n -> n_children n = Some l ->
  Forall (fun c => (c < next d)%nat) l.
Proof. intros Hwf Hn Hl. destruct (Hwf h n Hn) as [_ Hc]. by apply Hc. Qed.

Lemma wf_fresh d : wf d -> nodes d !! next d = None.
Proof.
  intros Hwf. destruct (nodes d !! next d) as [n|] eqn:E; [|done].
  apply (wf_lookup _ _ _ Hwf) in E. lia.
Qed.

Lemma extends_refl d page : wf d -> extends d page d.
Proof. intros Hwf. by split. Qed.

Lemma extends_trans d0 d1 d2 page :
  extends d0 page d1 -> extends d1 page d2 -> extends d0 page d2.
Proof.
  intros [? ? Hc ? ? Ho Hk] [? ? Hc' ? ? Ho' Hk']. split.
  - done.
  - lia.
  - congruence.
  - congruence.
  - congruence.
  - intros h ? ? ?. rewrite Ho' by (rewrite ?Hc; (lia || done)). by apply Ho.
  - intros h ?. by apply Hk', Hk.
Qed.

Lemma grown_weaken d0 page fresh fresh' d :
  fresh' ⊆ fresh -> grown d0 page fresh d -> grown d0 page fresh' d.
Proof.
  intros Hsub [He Hf]. split; [done|].
  rewrite Forall_forall in *. intros x Hx. apply Hf, Hsub, Hx.
Qed.

Ltac doc_simpl :=
  cbn [nodes next pages currentPage selection fonts
       with_nodes with_next with_fonts put fst snd].

Section Growing.

Variable H : Host.
Variable d0 : Doc.
Variable page : handle.
Hypothesis wf0 : wf d0.

(** Replacing an element by one with the same children. *)
Lemma grown_put fresh d c n n' :
  grown d0 page fresh d ->
  (next d0 ≤ c)%nat ->
  nodes d !! c = Some n ->
  n_children n' = n_children n ->
  grown d0 page fresh (put c n' d).
Proof.
  intros [[Hwf Hn Hcur Hpg Hsel Hold Hcon] Hf] Hc Hlook Hch. split; [split|]; try done.
  - intros h m Hm. cbn in Hm.
    destruct (decide (c = h)) as [->|Hne].
    + rewrite lookup_insert_eq in Hm. injection Hm as <-. split.
      * exact (wf_lookup _ _ _ Hwf Hlook).
      * intros cs Hcs. rewrite Hch in Hcs. exact (wf_children _ _ _ _ Hwf Hlook Hcs).
    + rewrite lookup_insert_ne in Hm by done. exact (Hwf h m Hm).
  - intros h ? ? ?. cbn. rewrite lookup_insert_ne by lia. by apply Hold.
  - intros h Hh. apply Hcon in Hh. unfold container, children_of in *. cbn.
    destruct (decide (c = h)) as [->|Hne].
    + rewrite lookup_insert_eq. cbn. rewrite Hch. by rewrite Hlook in Hh.
    + by rewrite lookup_insert_ne.
Qed.

Lemma grown_set_prop fresh d c k v :
  grown d0 page fresh d -> (next d0 ≤ c)%nat ->
  grown d0 page fresh (snd (set_prop H c k v d)).
Proof.
  intros Hg Hc. unfold set_prop.
  destruct (nodes d !! c) as [n|] eqn:E; [|done].
  destruct (host_accepts H d c k v); [|done].
  by apply (grown_put _ _ _ n).
Qed.

Lemma grown_resize fresh d c a b :
  grown d0 page fresh d -> (next d0 ≤ c)%nat ->
  grown d0 page fresh (snd (resize H c a b d)).
Proof.
  intros Hg Hc. unfold resize.
  destruct (nodes d !! c) as [n|] eqn:E; [|done].
  destruct (host_resizes H d c a b); [|done].
  by apply (grown_put _ _ _ n).
Qed.

Lemma grown_loadFontAsync fresh d font :
  grown d0 page fresh d -> grown d0 page fresh (snd (loadFontAsync H font d)).
Proof.
  intros Hg. unfold loadFontAsync. destruct (host_loads H d font); [|done].
  destruct Hg as [[]]. by split; [split|].
Qed.

Lemma grown_create fresh d kind parent :
  grown d0 page fresh d ->
  parent = page ∨ parent = currentPage d0 ->
  match create H kind parent d with
  | (Ok c, d') => c = next d ∧ grown d0 page (c :: fresh) d'
  | (Thrown _, d') => grown d0 page fresh d'
  end.
Proof.
  intros [[Hwf Hn Hcur Hpg Hsel Hold Hcon] Hf] Hparent. unfold create.
  destruct (host_creates H d kind); [|by split; [split|]].
  split; [done|]. split; [split|]; doc_simpl; try done; try lia.
  - intros h m. doc_simpl. rewrite lookup_attach.
    destruct (decide (next d = h)) as [<-|Hne].
    + rewrite lookup_insert_eq. intros Hm. split; [lia|]. intros cs Hcs.
      destruct (decide (parent = next d)); cbn in Hm; injection Hm as <-;
        destruct (host_container H kind); cbn in Hcs; try done;
        injection Hcs as <-; repeat constructor.
    + rewrite lookup_insert_ne by done. intros Hm.
      assert (exists m0, nodes d !! h = Some m0
              ∧ forall cs, n_children m = Some cs ->
                  exists cs0, n_children m0 = Some cs0
                              ∧ (cs = cs0 ∨ cs = cs0 ++ [next d])) as (m0 & Hm0 & Hcs).
      { destruct (decide (parent = h)).
        - destruct (nodes d !! h) as [m0|]; [|done]. injection Hm as <-.
          exists m0. split; [done|]. intros cs. rewrite children_with_children.
          destruct (n_children m0) as [cs0|]; [|done]. intros [= <-]. eauto.
        - exists m. split; [done|]. eauto. }
      split; [apply (wf_lookup _ _ _ Hwf) in Hm0; lia|].
      intros cs Hc. destruct (Hcs cs Hc) as (cs0 & Hc0 & Heq).
      pose proof (wf_children _ _ _ _ Hwf Hm0 Hc0) as Hall.
      assert (Forall (fun c => (c < S (next d))%nat) cs0)
        by (eapply Forall_impl; [exact Hall | cbn; lia]).
      destruct Heq as [-> | ->]; [done|]. apply Forall_app. split; [done|].
      repeat constructor.
  - intros h ? ? ?. rewrite lookup_attach.
    destruct (decide (parent = h)) as [<-|]; [by destruct Hparent|].
    rewrite lookup_insert_ne by lia. by apply Hold.
  - intros h Hh. apply Hcon in Hh. unfold container, children_of in *. doc_simpl.
    destruct (nodes d !! h) as [m|] eqn:E; [|by destruct Hh].
    pose proof (wf_lookup _ _ _ Hwf E). rewrite lookup_attach.
    rewrite lookup_insert_ne by lia. rewrite E.
    destruct (decide (parent = h)); cbn; [|done].
    cbn in Hh. destruct Hh as [l ->]. by eexists.
  - constructor; [lia|]. eapply Forall_impl; [exact Hf | cbn; lia].
Qed.

Lemma grown_appendChild fresh d p c :
  grown d0 page fresh d ->
  c ∈ fresh ->
  p = page ∨ p ∈ fresh ->
  grown d0 page fresh (snd (appendChild H p c d)).
Proof.
  intros [[Hwf Hn Hcur Hpg Hsel Hold Hcon] Hf] Hc Hp. unfold appendChild.
  destruct (nodes d !! p) as [pn|] eqn:Ep; [|by split; [split|]].
  destruct (n_children pn) as [pl|] eqn:Epl; [|by split; [split|]].
  destruct (host_appends H d p c); [|by split; [split|]].
  rewrite Forall_forall in Hf. pose proof (Hf c Hc) as Hcb.
  split; [split|]; doc_simpl; try done.
  - intros h m. doc_simpl. rewrite lookup_attach, lookup_detach. intros Hm.
    assert (exists m0, nodes d !! h = Some m0
            ∧ forall cs, n_children m = Some cs ->
                exists cs0, n_children m0 = Some cs0
                  ∧ (cs = filter (fun x => x ≠ c) cs0
                     ∨ cs = filter (fun x => x ≠ c) cs0 ++ [c])) as (m0 & Hm0 & Hcs).
    { destruct (nodes d !! h) as [m0|]; [|by destruct (decide (p = h))].
      exists m0. split; [done|]. intros cs.
      destruct (decide (p = h)); cbn in Hm; injection Hm as <-;
        rewrite ?children_with_children;
        destruct (n_children m0) as [cs0|]; cbn; try done; intros [= <-]; eauto. }
    split; [by eapply wf_lookup|].
    intros cs Hc'. destruct (Hcs cs Hc') as (cs0 & Hc0 & Heq).
    pose proof (wf_children _ _ _ _ Hwf Hm0 Hc0) as Hall.
    assert (Forall (fun x => (x < next d)%nat) (filter (fun x => x ≠ c) cs0)).
    { rewrite Forall_forall in *. intros x Hx. apply Hall.
      by apply list_elem_of_filter in Hx as [_ Hx]. }
    destruct Heq as [-> | ->]; [done|]. apply Forall_app. split; [done|].
    repeat constructor. lia.
  - intros h Hh1 Hh2 Hh3. rewrite lookup_attach, lookup_detach.
    assert (p ≠ h) as Hne.
    { destruct Hp as [->|Hp]; [done|]. apply Hf in Hp. lia. }
    destruct (decide (p = h)); [done|]. rewrite Hold by done.
    destruct (nodes d0 !! h) as [m|] eqn:E; [|done]. cbn. f_equal.
    apply with_children_id. intros l Hl.
    apply (filter_below (next d0)); [by eapply wf_children | lia].
  - intros h Hh. apply Hcon in Hh. unfold container, children_of in *. doc_simpl.
    rewrite lookup_attach, lookup_detach.
    destruct (nodes d !! h) as [m|]; [|by destruct Hh]. cbn in Hh.
    destruct Hh as [l Hl].
    destruct (decide (p = h)); cbn; rewrite Hl; cbn; by eexists.
  - by apply Forall_forall.
Qed.

End Growing.

Lemma wf_product : wf Scenario.product.
Proof.
  intros h n Hn. unfold Scenario.product in Hn. cbn [nodes list_to_map foldr] in Hn.
  apply lookup_insert_Some in Hn as [[<- <-]|[_ Hn]].
  - split; [cbn; lia|]. intros cs [= <-]. constructor.
  - by rewrite lookup_empty in Hn.
Qed.

(** ** The effect of applying properties *)

Lemma put_put c n1 n2 d : put c n2 (put c n1 d) = put c n2 d.
Proof. unfold put, with_nodes. cbn. by rewrite insert_insert_eq. Qed.

Lemma nodes_put c n d : nodes (put c n d) !! c = Some n.
Proof. unfold put. cbn. apply lookup_insert_eq. Qed.

Lemma effect_ext c m f g :
  effect c m f -> (forall n, f n = g n) -> effect c m g.
Proof. intros E Hfg n d. rewrite E. by rewrite Hfg. Qed.

Lemma effect_ret c : effect c (ret tt) (fun n => n).
Proof. by intros n d. Qed.

Lemma effect_seq c m m' f g :
  effect c m f -> effect c m' g -> effect c (bind m (fun _ => m')) (fun n => g (f n)).
Proof. intros E E' n d. unfold bind. rewrite E. apply E'. Qed.

Lemma effect_when c b m f :
  effect c m f -> effect c (when b m) (fun n => if b then f n else n).
Proof. intros E n d. destruct b; [apply E | done]. Qed.

Lemma effect_in_node c key (k : bool -> St Doc unit) (f : bool -> HNode -> HNode) :
  (forall b, effect c (k b) (f b)) ->
  effect c (bind (in_node c key) k) (fun n => f (has (n_props n) key) n).
Proof.
  intros E n d. unfold bind, in_node, gets. rewrite nodes_put. apply E.
Qed.

Lemma effect_kind_of c (k : string -> St Doc unit) (f : string -> HNode -> HNode) :
  (forall t, effect c (k t) (f t)) ->
  effect c (bind (kind_of c) k) (fun n => f (n_type n) n).
Proof.
  intros E n d. unfold bind, kind_of, gets. rewrite nodes_put. apply E.
Qed.

Section Accepting.

Variable H : Host.
Variable c : handle.
Hypothesis accepts : forall d k v, host_accepts H d c k v = true.
Hypothesis resizes : forall d a b, host_resizes H d c a b = true.

Lemma effect_set_prop k v : effect c (set_prop H c k v) (write k v).
Proof.
  intros n d. unfold set_prop. rewrite nodes_put, accepts.
  f_equal. apply put_put.
Qed.

Lemma effect_resize a b :
  effect c (resize H c a b)
         (with_props (fun p => <["height" := b]> (<["width" := a]> p))).
Proof.
  intros n d. unfold resize. rewrite nodes_put, resizes.
  f_equal. apply put_put.
Qed.

Lemma effect_assign_if_defined fields k :
  effect c (assign_if_defined H c fields k) (assigned fields k).
Proof.
  unfold assign_if_defined.
  eapply effect_ext.
  - apply effect_in_node. intros b. apply effect_when, effect_set_prop.
  - done.
Qed.

Lemma effect_assign_if_truthy fields k :
  effect c (assign_if_truthy H c fields k) (assigned_truthy fields k).
Proof. unfold assign_if_truthy. eapply effect_ext; [apply effect_when, effect_set_prop | done]. Qed.

Lemma effect_assign_if_given fields k :
  effect c (assign_if_given H c fields k) (assigned_given fields k).
Proof. unfold assign_if_given. eapply effect_ext; [apply effect_when, effect_set_prop | done]. Qed.

Lemma effect_cons m m' f fs :
  effect c m f ->
  effect c m' (fun n => foldl (fun n f => f n) n fs) ->
  effect c (bind m (fun _ => m')) (fun n => foldl (fun n f => f n) n (f :: fs)).
Proof. intros E E' n d. unfold bind. rewrite E. apply E'. Qed.

Lemma effect_last m f :
  effect c m f -> effect c m (fun n => foldl (fun n f => f n) n [f]).
Proof. done. Qed.

Lemma effect_width_block fields :
  effect c
    (bind (in_node c "width")
       (fun present =>
          when (present && defined (prop fields "width"))
            (resize H c (prop fields "width")
               (js_or (prop fields "height") (JNum 100)))))
    (cond (fun n => has (n_props n) "width" && defined (prop fields "width"))
       (with_props (fun p =>
          <["height" := js_or (prop fields "height") (JNum 100)]>
            (<["width" := prop fields "width"]> p)))).
Proof.
  eapply effect_ext.
  - apply effect_in_node. intros b. apply effect_when, effect_resize.
  - done.
Qed.

Lemma effect_text_block fields :
  effect c
    (bind (kind_of c)
       (fun type =>
          bind (in_node c "characters")
            (fun present =>
               when (bool_decide (type = "TEXT") && present)
                 (bind (assign_if_truthy H c fields "characters")
                    (fun _ => assign_if_truthy H c fields "fontSize")))))
    (cond (fun n => bool_decide (n_type n = "TEXT") && has (n_props n) "characters")
       (fun n => assigned_truthy fields "fontSize"
                   (assigned_truthy fields "characters" n))).
Proof.
  eapply effect_ext.
  - apply effect_kind_of. intros t. apply effect_in_node. intros b.
    apply effect_when. apply effect_seq; apply effect_assign_if_truthy.
  - done.
Qed.

Lemma effect_layout_block fields :
  effect c
    (bind (in_node c "layoutMode")
       (fun present =>
          when (present && truthy (prop fields "layoutMode"))
            (bind (set_prop H c "layoutMode" (prop fields "layoutMode")) (fun _ =>
             bind (assign_if_truthy H c fields "primaryAxisSizingMode") (fun _ =>
             bind (assign_if_truthy H c fields "counterAxisSizingMode") (fun _ =>
             bind (assign_if_given H c fields "paddingLeft") (fun _ =>
             bind (assign_if_given H c fields "paddingRight") (fun _ =>
             bind (assign_if_given H c fields "paddingTop") (fun _ =>
             bind (assign_if_given H c fields "paddingBottom") (fun _ =>
             assign_if_given H c fields "itemSpacing"))))))))))
    (cond (fun n => has (n_props n) "layoutMode" && truthy (prop fields "layoutMode"))
         (fun n =>
            foldl (fun n f => f n) n
              [ write "layoutMode" (prop fields "layoutMode");
                assigned_truthy fields "primaryAxisSizingMode";
                assigned_truthy fields "counterAxisSizingMode";
                assigned_given fields "paddingLeft";
                assigned_given fields "paddingRight";
                assigned_given fields "paddingTop";
                assigned_given fields "paddingBottom";
                assigned_given fields "itemSpacing" ])).
Proof.
  eapply effect_ext.
  - apply effect_in_node. intros b. apply effect_when.
    repeat (apply effect_cons;
            [first [apply effect_set_prop | apply effect_assign_if_truthy
                   | apply effect_assign_if_given] |]).
    apply effect_last, effect_assign_if_given.
  - done.
Qed.

Lemma effect_applyProperties fields :
  effect c (applyProperties H c fields) (applied fields).
Proof.
  unfold applyProperties, applied, property_steps.
  repeat (apply effect_cons;
          [first [apply effect_set_prop | apply effect_assign_if_defined
                 | apply effect_width_block | apply effect_text_block] |]).
  apply effect_last, effect_layout_block.
Qed.

End Accepting.

(** ** What [applyProperties] writes *)

Lemma keeps_id k : keeps k (fun n => n).
Proof. done. Qed.

Lemma keeps_write k k' v : k ≠ k' -> keeps k (write k' v).
Proof. intros Hne n. unfold write, with_props. cbn. by rewrite lookup_insert_ne. Qed.

Lemma keeps_cond k b f : keeps k f -> keeps k (cond b f).
Proof. intros Hf n. unfold cond. destruct (b n); [apply Hf | done]. Qed.

Lemma keeps_comp k f g : keeps k f -> keeps k g -> keeps k (fun n => g (f n)).
Proof. intros Hf Hg n. by rewrite Hg, Hf. Qed.

Lemma keeps_foldl k fs :
  Forall (keeps k) fs -> keeps k (fun n => foldl (fun n f => f n) n fs).
Proof.
  induction 1 as [|f fs Hf Hfs IH]; [done|]. intros n. cbn [foldl].
  by rewrite IH, Hf.
Qed.

Lemma keeps_assigned k fields k' : k ≠ k' -> keeps k (assigned fields k').
Proof. intros. by apply keeps_cond, keeps_write. Qed.
Lemma keeps_assigned_truthy k fields k' : k ≠ k' -> keeps k (assigned_truthy fields k').
Proof. intros. by apply keeps_cond, keeps_write. Qed.
Lemma keeps_assigned_given k fields k' : k ≠ k' -> keeps k (assigned_given fields k').
Proof. intros. by apply keeps_cond, keeps_write. Qed.

Lemma keeps_resize k a b :
  k ≠ "width" -> k ≠ "height" ->
  keeps k (with_props (fun p => <["height" := b]> (<["width" := a]> p))).
Proof. intros ? ? n. unfold with_props. cbn. by rewrite !lookup_insert_ne. Qed.

Ltac keeps_tac :=
  repeat lazymatch goal with
  | |- Forall _ [] => apply Forall_nil_2
  | |- Forall _ (_ :: _) => apply Forall_cons_2
  | |- keeps _ (fun n => foldl _ n _) => apply keeps_foldl
  | |- keeps _ (cond _ _) => apply keeps_cond
  | |- keeps _ (assigned _ _) => apply keeps_assigned; discriminate
  | |- keeps _ (assigned_truthy _ _) => apply keeps_assigned_truthy; discriminate
  | |- keeps _ (assigned_given _ _) => apply keeps_assigned_given; discriminate
  | |- keeps _ (write _ _) => apply keeps_write; discriminate
  | |- keeps _ (with_props _) => apply keeps_resize; discriminate
  | |- keeps _ (fun n => ?g (?f n)) => apply (keeps_comp _ f g)
  end.

Lemma shape_write k v : shape_preserving (write k v).
Proof. done. Qed.

Lemma shape_cond b f : shape_preserving f -> shape_preserving (cond b f).
Proof. intros Hf n. unfold cond. destruct (b n); [apply Hf | done]. Qed.

Lemma shape_comp f g :
  shape_preserving f -> shape_preserving g -> shape_preserving (fun n => g (f n)).
Proof.
  intros Hf Hg n. destruct (Hg (f n)) as (-> & -> & ->). apply Hf.
Qed.

Lemma shape_foldl fs :
  Forall shape_preserving fs ->
  shape_preserving (fun n => foldl (fun n f => f n) n fs).
Proof.
  induction 1 as [|f fs Hf Hfs IH]; [done|]. intros n. cbn [foldl].
  destruct (IH (f n)) as (-> & -> & ->). apply Hf.
Qed.

Lemma shape_with_props g : shape_preserving (with_props g).
Proof. done. Qed.

Lemma shape_assigned fields k : shape_preserving (assigned fields k).
Proof. apply shape_cond, shape_write. Qed.
Lemma shape_assigned_truthy fields k : shape_preserving (assigned_truthy fields k).
Proof. apply shape_cond, shape_write. Qed.
Lemma shape_assigned_given fields k : shape_preserving (assigned_given fields k).
Proof. apply shape_cond, shape_write. Qed.

Ltac shape_tac :=
  repeat lazymatch goal with
  | |- Forall _ [] => apply Forall_nil_2
  | |- Forall _ (_ :: _) => apply Forall_cons_2
  | |- shape_preserving (fun n => foldl _ n _) => apply shape_foldl
  | |- shape_preserving (cond _ _) => apply shape_cond
  | |- shape_preserving (assigned _ _) => apply shape_assigned
  | |- shape_preserving (assigned_truthy _ _) => apply shape_assigned_truthy
  | |- shape_preserving (assigned_given _ _) => apply shape_assigned_given
  | |- shape_preserving (write _ _) => apply shape_write
  | |- shape_preserving (with_props _) => apply shape_with_props
  | |- shape_preserving (fun n => ?g (?f n)) => apply (shape_comp f g)
  end.

Lemma property_steps_shape fields : Forall shape_preserving (property_steps fields).
Proof.
  unfold property_steps. shape_tac.
Qed.

Lemma applied_shape fields : shape_preserving (applied fields).
Proof. apply shape_foldl, property_steps_shape. Qed.

Lemma applied_split fields i f n :
  property_steps fields !! i = Some f ->
  applied fields n
  = foldl (fun n f => f n)
          (f (foldl (fun n f => f n) n (take i (property_steps fields))))
          (drop (S i) (property_steps fields)).
Proof.
  intros Hi. unfold applied.
  transitivity (foldl (fun n f => f n) n
                  (take i (property_steps fields)
                   ++ f :: drop (S i) (property_steps fields))).
  - by rewrite take_drop_middle.
  - by rewrite foldl_app.
Qed.

(** The value of [k] after all steps is decided at the one step [f] that
    may write it. *)
Lemma applied_at fields k i f n :
  property_steps fields !! i = Some f ->
  Forall (keeps k) (take i (property_steps fields)) ->
  Forall (keeps k) (drop (S i) (property_steps fields)) ->
  exists n',
    n_props (applied fields n) !! k = n_props (f n') !! k
    ∧ n_props n' !! k = n_props n !! k
    ∧ n_type n' = n_type n.
Proof.
  intros Hi Hpre Hpost.
  exists (foldl (fun n f => f n) n (take i (property_steps fields))).
  split; [|split].
  - rewrite (applied_split _ _ _ _ Hi). apply (keeps_foldl k _ Hpost).
  - apply (keeps_foldl k _ Hpre).
  - apply (shape_foldl (take i (property_steps fields))).
    apply Forall_take, property_steps_shape.
Qed.

Lemma has_congr (p p' : gmap string jsval) k :
  p' !! k = p !! k -> has p' k = has p k.
Proof. unfold has. by intros ->. Qed.

Lemma applied_name fields n :
  n_props (applied fields n) !! "name" = Some (prop fields "name").
Proof.
  destruct (applied_at fields "name" 0 (write "name" (prop fields "name")) n)
    as (n' & -> & _ & _); [done | constructor | |].
  - cbn [drop property_steps]. keeps_tac.
  - unfold write, with_props. cbn. apply lookup_insert_eq.
Qed.

Lemma assigned_lookup fields k n :
  n_props (assigned fields k n) !! k
  = if has (n_props n) k && defined (prop fields k)
    then Some (prop fields k) else n_props n !! k.
Proof.
  unfold assigned, cond, write, with_props.
  destruct (has (n_props n) k && defined (prop fields k)); [|done].
  cbn. apply lookup_insert_eq.
Qed.

Lemma applied_plain fields n k :
  k ∈ plain_keys ->
  n_props (applied fields n) !! k
  = if has (n_props n) k && defined (prop fields k)
    then Some (prop fields k) else n_props n !! k.
Proof.
  intros Hk.
  assert (exists i, property_steps fields !! i = Some (assigned fields k)
            ∧ Forall (keeps k) (take i (property_steps fields))
            ∧ Forall (keeps k) (drop (S i) (property_steps fields)))
    as (i & Hi & Hpre & Hpost).
  { unfold plain_keys in Hk.
    repeat (apply elem_of_cons in Hk as [->|Hk]);
      [exists 1 | exists 2 | exists 4 | exists 5 | exists 6 | exists 7
      | exists 8 | exists 9 | exists 10 | exists 11 | by apply elem_of_nil in Hk];
      (split; [reflexivity|]);
      cbn [take drop property_steps];
      split; keeps_tac. }
  destruct (applied_at fields k i _ n Hi Hpre Hpost) as (n' & -> & Hn' & _).
  rewrite assigned_lookup. by rewrite (has_congr _ _ _ Hn'), Hn'.
Qed.

Lemma applied_keeps fields k :
  k ∉ ["name"; "x"; "y"; "width"; "height"; "rotation"; "opacity"; "blendMode";
       "fills"; "strokes"; "strokeWeight"; "effects"; "cornerRadius";
       "characters"; "fontSize"; "layoutMode"; "primaryAxisSizingMode";
       "counterAxisSizingMode"; "paddingLeft"; "paddingRight"; "paddingTop";
       "paddingBottom"; "itemSpacing"] ->
  keeps k (applied fields).
Proof.
  intros Hk. repeat (apply not_elem_of_cons in Hk as [? Hk]).
  apply keeps_foldl. unfold property_steps, assigned, assigned_truthy, assigned_given.
  repeat lazymatch goal with
  | |- Forall _ [] => apply Forall_nil_2
  | |- Forall _ (_ :: _) => apply Forall_cons_2
  | |- keeps _ (fun n => foldl _ n _) => apply keeps_foldl
  | |- keeps _ (cond _ _) => apply keeps_cond
  | |- keeps _ (write _ _) => apply keeps_write; assumption
  | |- keeps _ (with_props _) => apply keeps_resize; assumption
  | |- keeps _ (fun n => ?g (?f n)) => apply (keeps_comp _ f g)
  end.
Qed.

Lemma applied_text fields n k :
  k = "characters" ∨ k = "fontSize" ->
  n_type n = "TEXT" ->
  is_Some (n_props n !! "characters") ->
  truthy (prop fields k) = true ->
  n_props (applied fields n) !! k = Some (prop fields k).
Proof.
  intros Hk Htype Hchars Htruthy.
  rewrite (applied_split fields 12 _ n eq_refl).
  set (n' := foldl (fun n f => f n) n (take 12 (property_steps fields))).
  assert (n_type n' = "TEXT") as Ht.
  { rewrite <- Htype. apply (shape_foldl (take 12 (property_steps fields))).
    apply Forall_take, property_steps_shape. }
  assert (n_props n' !! "characters" = n_props n !! "characters") as Hc.
  { apply (keeps_foldl "characters"). cbn [take property_steps]. keeps_tac. }
  rewrite (keeps_foldl k).
  2:{ destruct Hk as [-> | ->]; cbn [drop property_steps]; keeps_tac. }
  unfold cond at 1. rewrite Ht.
  replace (has (n_props n') "characters") with true
    by (symmetry; unfold has; apply bool_decide_eq_true_2; by rewrite Hc).
  cbn [bool_decide decide_rel andb].
  rewrite bool_decide_eq_true_2 by done. cbn [andb].
  destruct Hk as [-> | ->].
  - rewrite keeps_assigned_truthy by discriminate.
    unfold assigned_truthy, cond. rewrite Htruthy. apply lookup_insert_eq.
  - unfold assigned_truthy at 1. unfold cond. rewrite Htruthy. apply lookup_insert_eq.
Qed.

(** ** Reconstruction never throws *)

Lemma createNodeFromSerialized_returns
    (H : Host) (nodeData : NodeData) (targetPage : handle) (w : World) :
  exists (r : option handle) (w' : World),
    createNodeFromSerialized H nodeData targetPage w = (Ok r, w').
Proof.
  destruct nodeData as [|fields children]; cbn [createNodeFromSerialized];
    apply try_catch_total; intros e s; by eexists _, _.
Qed.


(** ** What reconstruction never reads *)

Lemma prop_insert_ne (fields : gmap string jsval) k0 v k :
  k0 ≠ k -> prop (<[k0 := v]> fields) k = prop fields k.
Proof. intros Hne. unfold prop. by rewrite lookup_insert_ne. Qed.

(** The [id], [visible], [locked] and [strokeAlign] entries of a payload
    have no influence on the element rebuilt from it. *)
Lemma reconstruction_never_reads (H : Host) (fields : gmap string jsval)
    (children : option (list NodeData)) (page : handle) k0 v :
  k0 ∈ ["id"; "visible"; "locked"; "strokeAlign"] ->
  createNodeFromSerialized H (NObj (<[k0 := v]> fields) children) page
  = createNodeFromSerialized H (NObj fields children) page.
Proof.
  intros Hk.
  assert (forall k, k ∉ ["id"; "visible"; "locked"; "strokeAlign"] ->
            prop (<[k0 := v]> fields) k = prop fields k) as E.
  { intros k Hnot. apply prop_insert_ne. by intros ->. }
  cbn [createNodeFromSerialized].
  unfold applyProperties, assign_if_defined, assign_if_truthy, assign_if_given.
  generalize dependent (prop (<[k0 := v]> fields)). intros nd E.
  by rewrite !E by (apply (bool_decide_unpack _); by vm_compute).
Qed.

(** ** Growth of the document during a reconstruction *)

Lemma grown_trans d0 d1 d2 page fresh fresh' :
  grown d0 page fresh d1 -> grown d1 page fresh' d2 ->
  grown d0 page (fresh' ++ fresh) d2.
Proof.
  intros [He Hf] [He' Hf']. split; [by eapply extends_trans|].
  pose proof (ext_next _ _ _ He). pose proof (ext_next _ _ _ He').
  apply Forall_app. split.
  - eapply Forall_impl; [exact Hf'|]. cbn. lia.
  - eapply Forall_impl; [exact Hf|]. cbn. lia.
Qed.

Lemma grown_world_console w0 page fresh w f :
  grown_world w0 page fresh w -> grown_world w0 page fresh (with_console f w).
Proof. by intros [? ?]. Qed.

Lemma grown_world_weaken w0 page fresh fresh' w :
  fresh' ⊆ fresh -> grown_world w0 page fresh w -> grown_world w0 page fresh' w.
Proof. intros Hsub [Hg Hs]. split; [by eapply grown_weaken | done]. Qed.

Lemma grown_world_trans w0 w1 w2 page fresh fresh' :
  grown_world w0 page fresh w1 -> grown_world w1 page fresh' w2 ->
  grown_world w0 page (fresh' ++ fresh) w2.
Proof.
  intros [Hg Hs] [Hg' Hs']. split; [by eapply grown_trans | congruence].
Qed.

Section GrowingWorld.

Variable H : Host.
Variable w0 : World.
Variable page : handle.
Hypothesis wf0 : wf (doc w0).

Abbreviation G := (grown_world w0 page).
Abbreviation stable P m := (triple P%function m (fun _ => P%function) P%function).

Lemma stable_log fresh s : stable (G fresh) (log s).
Proof. apply triple_log. intros w. apply grown_world_console. Qed.

Lemma stable_lift fresh (m : St Doc unit) :
  stable (grown (doc w0) page fresh) m -> stable (G fresh) (lift m).
Proof. intros Hm. by apply (triple_lift _ _ _ _ (surroundings w0)) in Hm. Qed.

Lemma triple_create fresh kind :
  triple (G fresh) (lift (create H kind page)) (fun c => G (c :: fresh)) (G fresh).
Proof.
  apply (triple_lift (grown (doc w0) page fresh) _
           (fun c => grown (doc w0) page (c :: fresh)) _ (surroundings w0)).
  intros d Hd. pose proof (grown_create H _ page _ _ kind page Hd (or_introl eq_refl)) as Hc.
  destruct (create H kind page d) as [[c|e] d']; [by destruct Hc | done].
Qed.

Lemma triple_createOnCurrentPage fresh kind :
  triple (G fresh) (lift (createOnCurrentPage H kind))
         (fun c => G (c :: fresh)) (G fresh).
Proof.
  apply (triple_lift (grown (doc w0) page fresh) _
           (fun c => grown (doc w0) page (c :: fresh)) _ (surroundings w0)).
  intros d Hd. unfold createOnCurrentPage, bind, gets.
  assert (currentPage d = page ∨ currentPage d = currentPage (doc w0)) as Hp.
  { right. destruct Hd as [He _]. apply He. }
  pose proof (grown_create H _ page _ _ kind _ Hd Hp) as Hc.
  destruct (create H kind (currentPage d) d) as [[c|e] d']; [by destruct Hc | done].
Qed.

Lemma stable_loadFontAsync fresh font :
  stable (G fresh) (lift (loadFontAsync H font)).
Proof.
  apply stable_lift. intros d Hd.
  pose proof (grown_loadFontAsync H _ page _ d font Hd) as Hl.
  by destruct (loadFontAsync H font d) as [[[]|e] d'].
Qed.

Lemma triple_createByType ty font :
  triple (G []) (createByType H ty font page)
         (fun r => G (match r with Some c => [c] | None => [] end)) (G []).
Proof.
  unfold createByType.
  repeat match goal with
         | |- context [if ?b then _ else _] => destruct b
         end;
    try (eapply triple_bind;
         [first [apply triple_createOnCurrentPage | apply triple_create]|];
         intros c; by apply triple_ret).
  - eapply triple_bind; [apply triple_createOnCurrentPage|]. intros c.
    eapply triple_bind with (Q := fun _ => G [c]).
    + apply triple_conseq
        with (P' := G [c]) (Q' := fun _ => G [c]) (E' := G [c]);
        [| done | done | intros w; apply grown_world_weaken; apply list_subseteq_nil].
      apply triple_when. apply triple_try_catch with (E' := G [c]).
      * apply stable_loadFontAsync.
      * intros e. apply stable_log.
    + intros []. by apply triple_ret.
  - eapply triple_bind; [apply stable_log|]. intros [].
    eapply triple_bind; [apply triple_createOnCurrentPage|].
    intros c; by apply triple_ret.
Qed.

End GrowingWorld.

Lemma stable_intro {S A} (P : S -> Prop) (m : St S A) :
  (forall s, P s -> P (snd (m s))) -> triple P m (fun _ => P) P.
Proof. intros Hm s Hs. specialize (Hm s Hs). by destruct (m s) as [[a|e] s']. Qed.

Ltac stable_step :=
  lazymatch goal with
  | |- triple ?P (bind _ _) _ _ =>
      apply (triple_bind P _ _ (fun _ => P)); [|intros ?]
  | |- triple _ (when _ _) _ _ => apply triple_when
  | |- triple _ (in_node _ _) _ _ => by apply triple_gets
  | |- triple _ (kind_of _) _ _ => by apply triple_gets
  | |- triple _ (exposes_appendChild _) _ _ => by apply triple_gets
  | |- triple _ (ret _) _ _ => by apply triple_ret
  end.

Section GrowingDoc.

Variable H : Host.
Variable d0 : Doc.
Variable page : handle.
Hypothesis wf0 : wf d0.
Variable fresh : list handle.
Variable c : handle.
Hypothesis c_fresh : c ∈ fresh.

Abbreviation P := (grown d0 page fresh).

Lemma c_above d : P d -> (next d0 ≤ c)%nat.
Proof. intros [_ Hf]. rewrite Forall_forall in Hf. by destruct (Hf c c_fresh). Qed.

Lemma stable_set_prop k v : triple P (set_prop H c k v) (fun _ => P) P.
Proof.
  apply stable_intro. intros d Hd. apply grown_set_prop; [done|]. by eapply c_above.
Qed.

Lemma stable_resize a b : triple P (resize H c a b) (fun _ => P) P.
Proof.
  apply stable_intro. intros d Hd. apply grown_resize; [done|]. by eapply c_above.
Qed.

Lemma stable_appendChild p :
  p = page ∨ p ∈ fresh -> triple P (appendChild H p c) (fun _ => P) P.
Proof.
  intros Hp. apply stable_intro. intros d Hd. by apply grown_appendChild.
Qed.

Lemma stable_applyProperties fields :
  triple P (applyProperties H c fields) (fun _ => P) P.
Proof.
  unfold applyProperties, assign_if_defined, assign_if_truthy, assign_if_given.
  repeat first [stable_step | apply stable_set_prop | apply stable_resize].
Qed.

End GrowingDoc.

Section Reconstruction.

Variable H : Host.
Variable page : handle.

Abbreviation grows := (grows_into H page).

Lemma stable_lift_doc w0 fresh (m : St Doc unit) :
  triple (grown (doc w0) page fresh) m (fun _ => grown (doc w0) page fresh)
         (grown (doc w0) page fresh) ->
  triple (grown_world w0 page fresh) (lift m)
         (fun _ => grown_world w0 page fresh) (grown_world w0 page fresh).
Proof. intros Hm. by apply (triple_lift _ _ _ _ (surroundings w0)) in Hm. Qed.

Lemma stable_exposes w0 fresh c (k : bool -> St World unit) :
  (forall b, triple (grown_world w0 page fresh) (k b)
                    (fun _ => grown_world w0 page fresh) (grown_world w0 page fresh)) ->
  triple (grown_world w0 page fresh) (bind (lift (exposes_appendChild c)) k)
         (fun _ => grown_world w0 page fresh) (grown_world w0 page fresh).
Proof.
  intros Hk w Hw. unfold bind, lift, exposes_appendChild, gets.
  apply Hk. by destruct Hw.
Qed.

Lemma stable_adopt w0 fresh c r :
  wf (doc w0) ->
  c ∈ fresh ->
  (forall ch, r = Some ch -> ch ∈ fresh) ->
  triple (grown_world w0 page fresh) (adopt H c r)
         (fun _ => grown_world w0 page fresh) (grown_world w0 page fresh).
Proof.
  intros Hwf Hc Hr. destruct r as [ch|]; [|by apply triple_ret].
  apply stable_exposes. intros b. apply triple_when, stable_lift_doc.
  apply stable_appendChild; auto.
Qed.

Lemma stable_createChildren w0 c cs :
  wf (doc w0) ->
  Forall grows cs ->
  triple (grown_world w0 page [c]) (createChildren H page c cs)
         (fun _ => grown_world w0 page [c]) (grown_world w0 page [c]).
Proof.
  intros Hwf Hcs. induction Hcs as [|d cs Hd Hcs IH]; [by apply triple_ret|].
  cbn [createChildren]. intros w Hw. unfold bind at 1.
  destruct (Hd w) as (r & w1 & -> & Hg).
  { destruct Hw as [[He _] _]. apply He. }
  pose proof (grown_world_trans _ _ _ _ _ _ Hw Hg) as Hg1.
  assert (triple (grown_world w0 page (match r with Some ch => [ch] | None => [] end ++ [c]))
                 (adopt H c r)
                 (fun _ => grown_world w0 page [c]) (grown_world w0 page [c])) as Ha.
  { eapply triple_conseq.
    - apply (stable_adopt w0 (match r with Some ch => [ch] | None => [] end ++ [c]) c r);
        [done | apply elem_of_app; right; constructor |].
      intros ch ->. apply elem_of_app; left; constructor.
    - done.
    - intros ? s. by apply grown_world_weaken, list_subseteq_app_r.
    - intros s. by apply grown_world_weaken, list_subseteq_app_r. }
  specialize (Ha w1 Hg1). unfold bind.
  destruct (adopt H c r w1) as [[[]|e] w2]; [by apply IH | done].
Qed.

Lemma grows_node fields children :
  match children with Some cs => Forall grows cs | None => True end ->
  grows (NObj fields children).
Proof.
  intros Hcs w Hwf.
  assert (triple (grown_world w page [])
            (createNodeFromSerialized H (NObj fields children) page)
            (fun r => grown_world w page (match r with Some c => [c] | None => [] end))
            (fun _ => False)) as Ht.
  { cbn [createNodeFromSerialized].
    apply triple_try_catch with (E' := grown_world w page []).
    2:{ intros e. apply (triple_bind _ _ _ (fun _ => grown_world w page []));
          [by apply stable_log|].
        intros []. by apply triple_ret. }
    apply (triple_bind _ _ _ (fun _ => grown_world w page []));
      [by apply stable_log|]. intros [].
    eapply triple_bind; [by apply triple_createByType|].
    intros [c|].
    2:{ apply (triple_bind _ _ _ (fun _ => grown_world w page []));
          [by apply stable_log|].
        intros []. by apply triple_ret. }
    apply triple_conseq
      with (P' := grown_world w page [c])
           (Q' := fun r => grown_world w page (match r with Some c => [c] | None => [] end))
           (E' := grown_world w page [c]);
      [| done | done | intros s; apply grown_world_weaken, list_subseteq_nil].
    apply (triple_bind _ _ _ (fun _ => grown_world w page [c]));
      [by apply stable_log|]. intros [].
    apply (triple_bind _ _ _ (fun _ => grown_world w page [c])).
    { apply stable_lift_doc, stable_applyProperties. constructor. }
    intros []. apply (triple_bind _ _ _ (fun _ => grown_world w page [c])).
    { destruct children as [cs|]; [|by apply triple_ret].
      apply stable_exposes. intros b. apply triple_when.
      apply (triple_bind _ _ _ (fun _ => grown_world w page [c]));
        [by apply stable_log|]. intros [].
      by apply stable_createChildren. }
    intros []. apply (triple_bind _ _ _ (fun _ => grown_world w page [c]));
      [by apply stable_log|]. intros [].
    apply (triple_bind _ _ _ (fun _ => grown_world w page [c])).
    { apply stable_lift_doc, stable_appendChild; [done | constructor | by left]. }
    intros []. by apply triple_ret. }
  assert (grown_world w page [] w) as Hw
    by (split; [split|]; [by apply extends_refl | constructor | done]).
  specialize (Ht w Hw).
  destruct (createNodeFromSerialized H (NObj fields children) page w) as [[r|e] w'].
  - by exists r, w'.
  - done.
Qed.

Lemma grows_all nodeData : grows nodeData.
Proof.
  revert nodeData. fix IH 1. intros [|fields children].
  - intros w Hwf. eexists _, _. split; [reflexivity|].
    split; [split|]; [by apply extends_refl | constructor | done].
  - apply grows_node. destruct children as [cs|]; [|exact I].
    induction cs as [|d cs IHcs]; constructor; [apply IH | exact IHcs].
Qed.

End Reconstruction.

(** ** Children *)

Lemma grown_world_fresh w0 page fresh w c :
  grown_world w0 page fresh w -> c ∈ fresh ->
  (next (doc w0) ≤ c < next (doc w))%nat.
Proof. intros [[_ Hf] _] Hc. rewrite Forall_forall in Hf. by apply Hf. Qed.

Section Children.

Variable H : Host.
Variable page : handle.

(** [createNodeFromSerialized] in terms of its named parts. *)
Lemma createNodeFromSerialized_parts fields children w :
  createNodeFromSerialized H (NObj fields children) page w
  = try_catch
      (bind (prepare H fields page)
         (fun createdNode =>
            match createdNode with
            | None => bind (log "Failed to create node of type:") (fun _ => ret None)
            | Some created =>
                bind (match children with
                      | Some cs =>
                          bind (lift (exposes_appendChild created)) (fun can =>
                            when can
                              (bind (log "Creating children:")
                                 (fun _ => createChildren H page created cs)))
                      | None => ret tt
                      end) (fun _ =>
                bind (log "Adding node to target page") (fun _ =>
                bind (lift (appendChild H page created)) (fun _ =>
                ret (Some created))))
            end))
      (fun error => bind (log "Error creating node from serialized:")
                      (fun _ => ret None)) w.
Proof.
  cbn [createNodeFromSerialized]. unfold try_catch, prepare.
  match goal with
  | |- match ?X w with _ => _ end = match ?Y w with _ => _ end =>
      assert (X w = Y w) as ->; [|done]
  end.
  symmetry. rewrite bind_assoc. apply bind_ext. intros [] s1.
  rewrite bind_assoc. apply bind_ext. intros [c|] s2; [|done].
  rewrite bind_assoc. apply bind_ext. intros [] s3.
  rewrite bind_assoc. apply bind_ext. by intros [] s4.
Qed.

Lemma prepare_grows fields w :
  wf (doc w) ->
  triple (grown_world w page []) (prepare H fields page)
         (fun r => grown_world w page (match r with Some c => [c] | None => [] end))
         (grown_world w page []).
Proof.
  intros Hwf. unfold prepare.
  apply (triple_bind _ _ _ (fun _ => grown_world w page []));
    [by apply stable_log|]. intros [].
  eapply triple_bind; [by apply triple_createByType|].
  intros [c|]; [|by apply triple_ret].
  apply triple_conseq
    with (P' := grown_world w page [c])
         (Q' := fun r => grown_world w page (match r with Some c => [c] | None => [] end))
         (E' := grown_world w page [c]);
    [| done | done | intros s; apply grown_world_weaken, list_subseteq_nil].
  apply (triple_bind _ _ _ (fun _ => grown_world w page [c]));
    [by apply stable_log|]. intros [].
  apply (triple_bind _ _ _ (fun _ => grown_world w page [c])).
  { apply stable_lift_doc, stable_applyProperties. constructor. }
  intros []. by apply triple_ret.
Qed.

Lemma child_outcomes_length c cs w :
  length (child_outcomes H page c cs w) = length cs.
Proof.
  revert w. induction cs as [|d cs IH]; intros w; [done|].
  cbn [child_outcomes].
  destruct (createNodeFromSerialized_returns H d page w) as (r & w1 & ->).
  cbn [length]. by rewrite IH.
Qed.

(** The switch answers an element whenever it returns. *)
Lemma createByType_answers type font w r w' :
  createByType H type font page w = (Ok r, w') -> is_Some r.
Proof.
  unfold createByType, bind, ret, when. intros Hrun.
  repeat case_match; simplify_eq; eauto.
Qed.

(** A call that answers [null] has just written the error line. *)
Lemma null_is_logged d w w' :
  createNodeFromSerialized H d page w = (Ok None, w') ->
  last (console w') = Some error_line.
Proof.
  destruct d as [|fields children].
  { cbn. unfold try_catch, throw, bind, log, modify, ret.
    intros [= <-]. cbn [console with_console]. apply last_snoc. }
  rewrite createNodeFromSerialized_parts. unfold try_catch.
  destruct (bind (prepare H fields page) _ w) as [[r|e] w2] eqn:E.
  - intros [= -> <-]. exfalso. revert E. unfold bind at 1.
    destruct (prepare H fields page w) as [[[c|]|e] w1] eqn:Hprep.
    + unfold bind, ret. repeat case_match; by intros [=].
    + revert Hprep. unfold prepare, bind, ret. intros Hprep.
      repeat case_match; simplify_eq.
      match goal with
      | Hc : createByType _ _ _ _ _ = (Ok None, _) |- _ =>
          by destruct (createByType_answers _ _ _ _ _ Hc)
      end.
    + by intros [=].
  - unfold bind, log, modify, ret. intros [= <-].
    cbn [console with_console]. apply last_snoc.
Qed.

Lemma children_logged c cs w :
  Forall2 (fun r wk => r = None -> last (console wk) = Some error_line)
          (child_outcomes H page c cs w) (child_worlds H page c cs w).
Proof.
  revert w. induction cs as [|d cs IH]; intros w; [constructor|].
  cbn [child_outcomes child_worlds].
  destruct (createNodeFromSerialized H d page w) as [[r|e] w1] eqn:E; [|constructor].
  constructor; [|apply IH]. intros ->. by eapply null_is_logged.
Qed.

Lemma children_of_appendChild d p c acc :
  children_of d p = Some acc ->
  host_appends H d p c = true ->
  appendChild H p c d
  = (Ok tt, with_nodes (fun ns => attach p c (detach c ns)) d)
  ∧ children_of (snd (appendChild H p c d)) p
    = Some (filter (fun x => x ≠ c) acc ++ [c]).
Proof.
  unfold children_of, appendChild. intros Hacc Happ.
  destruct (nodes d !! p) as [n|] eqn:E; [|done]. cbn in Hacc.
  rewrite Hacc, Happ. split; [done|]. doc_simpl.
  rewrite lookup_attach, lookup_detach, E.
  destruct (decide (p = p)); [|done]. cbn. by rewrite Hacc.
Qed.

Lemma children_of_appendChild_other d p c q :
  q ≠ p ->
  children_of (with_nodes (fun ns => attach p c (detach c ns)) d) q
  = (filter (fun x => x ≠ c) <$> children_of d q).
Proof.
  intros Hne. unfold children_of. doc_simpl.
  rewrite lookup_attach, lookup_detach.
  destruct (decide (p = q)); [done|]. by destruct (nodes d !! q).
Qed.

Lemma with_doc_id w : with_doc (fun _ => doc w) w = w.
Proof. by destruct w. Qed.

Lemma adopt_some w c ch acc :
  children_of (doc w) c = Some acc ->
  host_appends H (doc w) c ch = true ->
  exists w2,
    adopt H c (Some ch) w = (Ok tt, w2)
    ∧ children_of (doc w2) c = Some (filter (fun x => x ≠ ch) acc ++ [ch]).
Proof.
  intros Hacc Happ.
  destruct (children_of_appendChild (doc w) c ch acc Hacc Happ) as [Eapp Hkids].
  unfold adopt, bind, lift, exposes_appendChild, gets.
  unfold children_of in Hacc.
  destruct (nodes (doc w) !! c) as [n|] eqn:E; [|done]. cbn in Hacc.
  rewrite Hacc.
  replace (bool_decide (is_Some (Some acc))) with true
    by (symmetry; apply bool_decide_eq_true_2; by eexists).
  rewrite with_doc_id. cbn [when]. rewrite Eapp. eexists. split; [reflexivity|].
  cbn [doc with_doc]. by rewrite Eapp in Hkids.
Qed.

Lemma createChildren_spec w0 c cs :
  wf (doc w0) ->
  (currentPage (doc w0) < next (doc w0))%nat ->
  (page < next (doc w0))%nat ->
  (forall d x, host_appends H d c x = true) ->
  forall w acc,
    grown_world w0 page [c] w ->
    children_of (doc w) c = Some acc ->
    Forall (fun x => (c < x)%nat) acc ->
    exists w2,
      createChildren H page c cs w = (Ok tt, w2)
      ∧ grown_world w0 page [c] w2
      ∧ children_of (doc w2) c
        = Some (acc ++ omap id (child_outcomes H page c cs w))
      ∧ Forall (fun x => (c < x)%nat)
               (acc ++ omap id (child_outcomes H page c cs w)).
Proof.
  intros Hwf0 Hcur Hpage Happ. induction cs as [|d cs IH]; intros w acc Hw Hacc Habove.
  { exists w. cbn. by rewrite app_nil_r. }
  cbn [createChildren child_outcomes]. unfold bind at 1.
  assert (wf (doc w)) as Hwf by (destruct Hw as [[He _] _]; apply He).
  destruct (grows_all H page d w Hwf) as (r & w1 & -> & Hg).
  assert ((next (doc w0) ≤ c < next (doc w))%nat) as Hc.
  { eapply grown_world_fresh; [exact Hw | constructor]. }
  assert (currentPage (doc w) = currentPage (doc w0)) as Hcw
    by (destruct Hw as [[He _] _]; apply He).
  assert (children_of (doc w1) c = Some acc) as Hacc1.
  { unfold children_of. destruct Hg as [[He _] _].
    rewrite (ext_old _ _ _ He) by lia. exact Hacc. }
  assert (Forall (fun x => (x < next (doc w))%nat) acc) as Hbelow.
  { unfold children_of in Hacc.
    destruct (nodes (doc w) !! c) as [n|] eqn:E; [|done].
    by eapply wf_children. }
  pose proof (grown_world_trans _ _ _ _ _ _ Hw Hg) as Hg1.
  destruct r as [ch|].
  - destruct (adopt_some w1 c ch acc Hacc1 (Happ _ _)) as (w2 & Ea & Hkids).
    assert ((next (doc w) ≤ ch)%nat) as Hch.
    { pose proof (grown_world_fresh _ _ _ _ ch Hg ltac:(constructor)). lia. }
    rewrite (filter_below (next (doc w))) in Hkids by done.
    pose proof (stable_adopt H page w0 ([ch] ++ [c]) c (Some ch) Hwf0) as Ha.
    specialize (Ha ltac:(apply elem_of_app; right; constructor)
                   ltac:(intros ? [= <-]; apply elem_of_app; left; constructor)
                   w1 Hg1).
    unfold bind. rewrite Ea in *. cbn [snd].
    destruct (IH w2 (acc ++ [ch])) as (w3 & E3 & Hg3 & Hk3 & Ha3).
    + eapply grown_world_weaken; [|exact Ha]. by apply list_subseteq_app_r.
    + exact Hkids.
    + apply Forall_app. split; [done|]. apply Forall_singleton. lia.
    + exists w3. cbn [omap]. cbn [id]. rewrite <- app_assoc in Hk3, Ha3. by cbn in *.
  - unfold bind. cbn [adopt ret snd].
    destruct (IH w1 acc Hg1 Hacc1 Habove) as (w3 & E3 & Hg3 & Hk3 & Ha3).
    by exists w3.
Qed.

End Children.

Lemma container_below d h : wf d -> container d h -> (h < next d)%nat.
Proof.
  intros Hwf [l Hl]. unfold children_of in Hl.
  destruct (nodes d !! h) as [n|] eqn:E; [|done]. by eapply wf_lookup.
Qed.

Lemma exposes_container w c acc :
  children_of (doc w) c = Some acc ->
  lift (exposes_appendChild c) w = (Ok true, w).
Proof.
  intros Hacc. unfold lift, exposes_appendChild, gets. rewrite with_doc_id.
  unfold children_of in Hacc.
  destruct (nodes (doc w) !! c) as [n|]; [|done]. cbn in Hacc. rewrite Hacc.
  replace (bool_decide (is_Some (Some acc))) with true; [done|].
  symmetry. apply bool_decide_eq_true_2. by eexists.
Qed.

(** C7: once the new element itself is prepared and is a container, the
    call answers it whatever happens to its children, and its children are
    exactly the elements the recursive calls answered, in payload order,
    the calls that answered [null] being skipped; every call that answered
    [null] has written the error line to the console as its last act; the
    element ends as the last child of the target page. *)
Theorem children_are_the_successful_answers
    (H : Host) (fields : gmap string jsval) (cs : list NodeData)
    (page : handle) (w w1 : World) (c : handle) :
  wf (doc w) ->
  container (doc w) page ->
  container (doc w) (currentPage (doc w)) ->
  prepare H fields page w = (Ok (Some c), w1) ->
  children_of (doc w1) c = Some [] ->
  (forall d x, host_appends H d c x = true) ->
  (forall d, host_appends H d page c = true) ->
  exists w',
    createNodeFromSerialized H (NObj fields (Some cs)) page w = (Ok (Some c), w')
    ∧ children_of (doc w') c
      = Some (omap id (child_answers H (NObj fields (Some cs)) page w))
    ∧ length (child_answers H (NObj fields (Some cs)) page w) = length cs
    ∧ Forall2 (fun r wk => r = None -> last (console wk) = Some error_line)
              (child_answers H (NObj fields (Some cs)) page w)
              (child_states H (NObj fields (Some cs)) page w)
    ∧ exists l, children_of (doc w') page = Some (l ++ [c]).
Proof.
  intros Hwf Hpage Hcur Hprep Hempty Happ Happ'.
  pose proof (container_below _ _ Hwf Hpage) as Hpage_lt.
  pose proof (container_below _ _ Hwf Hcur) as Hcur_lt.
  assert (grown_world w page [c] w1) as Hg1.
  { assert (grown_world w page [] w) as Hw
      by (split; [split|]; [by apply extends_refl | constructor | done]).
    pose proof (prepare_grows H page fields w Hwf w Hw) as Ht.
    by rewrite Hprep in Ht. }
  unfold child_answers, child_states. rewrite Hprep.
  rewrite createNodeFromSerialized_parts. unfold try_catch.
  unfold bind at 1. rewrite Hprep.
  unfold bind at 1 2. rewrite (exposes_container _ _ _ Hempty). cbn [when].
  unfold bind at 1. cbn [log modify snd].
  destruct (createChildren_spec H page w c cs Hwf Hcur_lt Hpage_lt Happ
              (with_console (fun c => c ++ ["Creating children:"]) w1) [])
    as (w2 & -> & Hg2 & Hkids & Habove);
    [by apply grown_world_console | done | constructor |].
  cbn [app] in Hkids, Habove.
  unfold bind at 1. cbn [log modify].
  set (w3 := with_console (fun c => c ++ ["Adding node to target page"]) w2).
  assert (container (doc w3) page) as [l Hl].
  { destruct Hg2 as [[He _] _]. by apply (ext_container _ _ _ He). }
  destruct (children_of_appendChild H (doc w3) page c l Hl (Happ' _)) as [Eapp Hlast].
  unfold bind, lift. rewrite Eapp. cbn [ret].
  eexists. split; [reflexivity|]. cbn [doc with_doc]. split; [|split; [|split]].
  - pose proof (grown_world_fresh _ _ _ _ c Hg2 ltac:(constructor)).
    rewrite children_of_appendChild_other by lia.
    change (doc w3) with (doc w2). rewrite Hkids. cbn. f_equal.
    by apply filter_above.
  - apply child_outcomes_length.
  - apply children_logged.
  - rewrite Eapp in Hlast. cbn [snd] in Hlast. by eexists.
Qed.

Lemma children_are_the_successful_answers_witness :
  (exists w',
     createNodeFromSerialized (Reference.host ["GROUP"] []) Scenario.row 0
       (Scenario.receiver [])
     = (Ok (Some 1), w')
     ∧ children_of (doc w') 1 = Some [2; 3]
     ∧ length Scenario.row_children = 3
     ∧ child_answers (Reference.host ["GROUP"] []) Scenario.row 0
         (Scenario.receiver [])
       = [Some 2; None; Some 3]
     ∧ (exists w2,
          child_states (Reference.host ["GROUP"] []) Scenario.row 0
            (Scenario.receiver []) !! 1 = Some w2
          ∧ last (console w2) = Some error_line)
     ∧ error_line ∈ console w')
  ∧ (let r := applyPendingTransfer (Reference.host ["GROUP"] []) Scenario.row
                (JStr "0") (Scenario.receiver []) in
     fst r = Ok tt
     ∧ notes (snd r)
       = ["✓ Transfer applied! Element placed on page " +:+ in_quotes "Page 1"]
     ∧ selection (doc (snd r)) = [1]).
Proof.
  split; [|vm_compute; repeat split; reflexivity].
  destruct (children_are_the_successful_answers
              (Reference.host ["GROUP"] []) Scenario.row_fields
              Scenario.row_children 0 (Scenario.receiver [])
              (snd (prepare (Reference.host ["GROUP"] []) Scenario.row_fields 0
                      (Scenario.receiver []))) 1)
    as (w' & E & Hkids & _ & Hlogged & _).
  - exact wf_product.
  - exists []. reflexivity.
  - exists []. reflexivity.
  - apply injective_projections; [vm_compute; reflexivity | reflexivity].
  - vm_compute. reflexivity.
  - intros d x. reflexivity.
  - intros d. reflexivity.
  - assert (child_answers (Reference.host ["GROUP"] []) Scenario.row 0
              (Scenario.receiver [])
            = [Some 2; None; Some 3]) as Hanswers by (vm_compute; reflexivity).
    change (NObj Scenario.row_fields (Some Scenario.row_children))
      with Scenario.row in Hlogged.
    rewrite Hanswers in Hlogged.
    apply Forall2_cons_inv_l in Hlogged as (s1 & l1 & _ & Hlogged & Hstates).
    apply Forall2_cons_inv_l in Hlogged as (s2 & l2 & Hnull & _ & ->).
    exists w'. split; [exact E|]. split; [rewrite Hkids; vm_compute; reflexivity|].
    split; [reflexivity|]. split; [exact Hanswers|]. split.
    + exists s2. split; [by rewrite Hstates | by apply Hnull].
    + assert (w' = snd (createNodeFromSerialized (Reference.host ["GROUP"] [])
                          (NObj Scenario.row_fields (Some Scenario.row_children)) 0
                          (Scenario.receiver []))) as ->
        by (by rewrite E).
      apply (bool_decide_unpack _). vm_compute. exact I.
Defined.

(** ** Text and fonts *)

Lemma createByType_text H font page :
  createByType H (JStr "TEXT") font page
  = bind (lift (createOnCurrentPage H "TEXT")) (fun c =>
      bind (when (truthy font)
              (try_catch (lift (loadFontAsync H font))
                         (fun e => log "Could not load font:")))
           (fun _ => ret (Some c))).
Proof. reflexivity. Qed.

Lemma create_put H kind parent d :
  host_creates H d kind = true ->
  parent ≠ next d ->
  create H kind parent d
  = (Ok (next d),
     put (next d)
         (mkHNode kind (id_of (next d)) (host_defaults H kind)
                  (if host_container H kind then Some [] else None))
         (with_next (S (next d)) (with_nodes (attach parent (next d)) d))).
Proof.
  intros Hc Hne. unfold create. rewrite Hc. f_equal.
  unfold put, with_next, with_nodes. cbn. f_equal.
  unfold attach. by rewrite alter_insert_ne.
Qed.

Section Text.

Variable H : Host.
Variable fields : gmap string jsval.
Variable page : handle.
Variable w : World.

Abbreviation c := (next (doc w)).
Abbreviation fresh_text :=
  (mkHNode "TEXT" (id_of c) (host_defaults H "TEXT") None).

Hypothesis is_text : prop fields "type" = JStr "TEXT".
Hypothesis has_font : truthy (prop fields "fontName") = true.
Hypothesis font_fails : forall d, host_loads H d (prop fields "fontName") = false.
Hypothesis creates : host_creates H (doc w) "TEXT" = true.
Hypothesis text_is_leaf : host_container H "TEXT" = false.
Hypothesis accepts : forall d k v, host_accepts H d c k v = true.
Hypothesis resizes : forall d a b, host_resizes H d c a b = true.
Hypothesis current_exists : currentPage (doc w) ≠ c.

Lemma prepare_text :
  exists w1,
    prepare H fields page w = (Ok (Some c), w1)
    ∧ nodes (doc w1) !! c = Some (applied fields fresh_text)
    ∧ console w1
      = console w ++ ["Creating node from serialized data:"]
          ++ ["Could not load font:"] ++ ["Node created, applying properties..."].
Proof.
  unfold prepare. unfold bind at 1. cbn [log modify].
  rewrite is_text, createByType_text. unfold bind at 1 2.
  unfold lift at 1, createOnCurrentPage, bind at 1, gets.
  cbn [doc with_console].
  rewrite create_put by done. rewrite text_is_leaf. fold c. rewrite has_font.
  cbn [when]. unfold try_catch, lift at 1.
  unfold bind at 1. cbn beta. cbn [doc with_doc].
  unfold loadFontAsync. rewrite font_fails. cbn [log modify ret].
  unfold bind at 1. cbn [log modify].
  unfold bind at 1. unfold lift. cbn [doc with_doc with_console].
  rewrite (effect_applyProperties H c accepts resizes fields).
  cbn [ret]. eexists. split; [reflexivity|]. split.
  - cbn [doc with_doc]. apply nodes_put.
  - cbn [console with_doc with_console]. by rewrite <- !app_assoc.
Qed.

End Text.

Lemma exposes_leaf w c n :
  nodes (doc w) !! c = Some n -> n_children n = None ->
  lift (exposes_appendChild c) w = (Ok false, w).
Proof.
  intros Hn Hc. unfold lift, exposes_appendChild, gets. rewrite with_doc_id.
  rewrite Hn, Hc. f_equal.
Qed.

Lemma lookup_appended d p c n :
  p ≠ c ->
  nodes d !! c = Some n ->
  nodes (with_nodes (fun ns => attach p c (detach c ns)) d) !! c
  = Some (with_children (filter (fun x => x ≠ c)) n).
Proof.
  intros Hne Hn. doc_simpl. rewrite lookup_attach, lookup_detach, Hn.
  by destruct (decide (p = c)).
Qed.

(** On a host that creates text elements and accepts every write on the
    new element, a text payload whose font cannot be loaded is still
    rebuilt.  The element is created and answered, it keeps the font a
    fresh text element has, and name, characters, font size and the
    plainly copied attributes are applied; it ends as the last child of
    the target page and the load failure is only logged. *)
Theorem font_failure_is_not_fatal
    (H : Host) (fields : gmap string jsval) (children : option (list NodeData))
    (page : handle) (w : World) :
  wf (doc w) ->
  container (doc w) page ->
  container (doc w) (currentPage (doc w)) ->
  prop fields "type" = JStr "TEXT" ->
  truthy (prop fields "fontName") = true ->
  (forall d, host_loads H d (prop fields "fontName") = false) ->
  host_creates H (doc w) "TEXT" = true ->
  host_container H "TEXT" = false ->
  (forall d k v, host_accepts H d (next (doc w)) k v = true) ->
  (forall d a b, host_resizes H d (next (doc w)) a b = true) ->
  (forall d, host_appends H d page (next (doc w)) = true) ->
  exists w',
    createNodeFromSerialized H (NObj fields children) page w
      = (Ok (Some (next (doc w))), w')
    ∧ type_of (doc w') (next (doc w)) = Some "TEXT"
    ∧ prop_of (doc w') (next (doc w)) "fontName"
      = host_defaults H "TEXT" !! "fontName"
    ∧ prop_of (doc w') (next (doc w)) "name" = Some (prop fields "name")
    ∧ (forall k, k = "characters" ∨ k = "fontSize" ->
         is_Some (host_defaults H "TEXT" !! "characters") ->
         truthy (prop fields k) = true ->
         prop_of (doc w') (next (doc w)) k = Some (prop fields k))
    ∧ (forall k, k ∈ plain_keys ->
         is_Some (host_defaults H "TEXT" !! k) ->
         defined (prop fields k) = true ->
         prop_of (doc w') (next (doc w)) k = Some (prop fields k))
    ∧ (exists l, children_of (doc w') page = Some (l ++ [next (doc w)]))
    ∧ "Could not load font:" ∈ console w'
    ∧ surroundings w' = surroundings w.
Proof.
  intros Hwf Hpage Hcur Htype Hfont Hload Hcreate Hleaf Hacc Hres Happ.
  set (c := next (doc w)) in *.
  pose proof (container_below _ _ Hwf Hpage) as Hpage_lt.
  pose proof (container_below _ _ Hwf Hcur) as Hcur_lt.
  destruct (prepare_text H fields page w Htype Hfont Hload Hcreate Hleaf Hacc Hres)
    as (w1 & Hprep & Hnode & Hcons); [fold c; lia|].
  fold c in Hprep, Hnode.
  set (n0 := mkHNode "TEXT" (id_of c) (host_defaults H "TEXT") None) in *.
  destruct (applied_shape fields n0) as (Ht & _ & Hch).
  change (n_type n0) with "TEXT" in Ht.
  change (n_children n0) with (@None (list nat)) in Hch.
  set (n1 := applied fields n0) in *.
  assert (grown_world w page [c] w1) as Hg1.
  { assert (grown_world w page [] w) as Hw
      by (split; [split|]; [by apply extends_refl | constructor | done]).
    pose proof (prepare_grows H page fields w Hwf w Hw) as Hp.
    by rewrite Hprep in Hp. }
  rewrite createNodeFromSerialized_parts. unfold try_catch.
  unfold bind at 1. rewrite Hprep.
  assert (match children with
          | Some cs =>
              bind (lift (exposes_appendChild c)) (fun can =>
                when can (bind (log "Creating children:")
                            (fun _ => createChildren H page c cs)))
          | None => ret tt
          end w1 = (Ok tt, w1)) as Hblock.
  { destruct children as [cs|]; [|done].
    unfold bind at 1. by rewrite (exposes_leaf _ _ _ Hnode Hch). }
  unfold bind at 1. rewrite Hblock.
  unfold bind at 1. cbn [log modify].
  set (w3 := with_console (fun c => c ++ ["Adding node to target page"]) w1).
  assert (container (doc w3) page) as [l Hl].
  { destruct Hg1 as [[He _] _]. by apply (ext_container _ _ _ He). }
  destruct (children_of_appendChild H (doc w3) page c l Hl (Happ _)) as [Eapp Hlast].
  unfold bind, lift. rewrite Eapp. cbn [ret].
  eexists. split; [reflexivity|]. cbn [doc with_doc].
  assert (nodes (with_nodes (fun ns => attach page c (detach c ns)) (doc w3)) !! c
          = Some (with_children (filter (fun x => x ≠ c)) n1)) as Hfinal
    by (apply lookup_appended; [lia | exact Hnode]).
  unfold type_of, prop_of. rewrite Hfinal.
  cbn [fmap option_fmap option_map mbind option_bind].
  change (n_type (with_children (filter (fun x => x ≠ c)) n1)) with (n_type n1).
  change (n_props (with_children (filter (fun x => x ≠ c)) n1)) with (n_props n1).
  repeat split.
  - by rewrite Ht.
  - apply (applied_keeps fields "fontName").
    apply (bool_decide_unpack _). by vm_compute.
  - apply applied_name.
  - intros k Hk Hchars Htruthy. by apply applied_text.
  - intros k Hk Hhas Hdef. subst n1. rewrite applied_plain by done.
    change (n_props n0) with (host_defaults H "TEXT").
    unfold has. rewrite bool_decide_eq_true_2 by done. by rewrite Hdef.
  - rewrite Eapp in Hlast. by eexists.
  - cbn [console with_doc]. subst w3. cbn [console with_console]. rewrite Hcons.
    rewrite !elem_of_app, !list_elem_of_singleton. tauto.
  - destruct Hg1 as [_ Hs]. exact Hs.
Qed.

Lemma font_failure_is_not_fatal_witness :
  exists w',
    createNodeFromSerialized (Reference.host [] []) Scenario.label 0
      (Scenario.receiver [])
    = (Ok (Some 1), w')
    ∧ type_of (doc w') 1 = Some "TEXT"
    ∧ prop_of (doc w') 1 "fontName" = Some Reference.inter
    ∧ prop_of (doc w') 1 "characters" = Some (JStr "Hi")
    ∧ prop_of (doc w') 1 "fontSize" = Some (JNum 14)
    ∧ prop_of (doc w') 1 "x" = Some (JNum 40).
Proof.
  destruct (font_failure_is_not_fatal (Reference.host [] []) Scenario.label_fields
              None 0 (Scenario.receiver []))
    as (w' & E & Htype & Hfont & _ & Htext & Hplain & _).
  - exact wf_product.
  - exists []. reflexivity.
  - exists []. reflexivity.
  - vm_compute. reflexivity.
  - vm_compute. reflexivity.
  - intros d. vm_compute. reflexivity.
  - reflexivity.
  - reflexivity.
  - intros d k v. reflexivity.
  - intros d a b. reflexivity.
  - intros d. reflexivity.
  - change (next (doc (Scenario.receiver []))) with 1 in E, Htype, Hfont, Htext, Hplain.
    exists w'. split; [exact E|]. split; [exact Htype|]. split; [|split; [|split]].
    + rewrite Hfont. vm_compute. reflexivity.
    + rewrite (Htext "characters");
        [vm_compute; reflexivity | by left | eexists; vm_compute; reflexivity
        | vm_compute; reflexivity].
    + rewrite (Htext "fontSize");
        [vm_compute; reflexivity | by right | eexists; vm_compute; reflexivity
        | vm_compute; reflexivity].
    + rewrite (Hplain "x");
        [vm_compute; reflexivity | apply (bool_decide_unpack _); vm_compute; exact I
        | eexists; vm_compute; reflexivity | vm_compute; reflexivity].
Defined.

(** C6 on a host that writes text only in a loaded font.  The font of the
    label cannot be loaded; the failure is caught and logged, but the
    write of [characters] that follows is refused, the outer [catch]
    answers [null], and the text element stays behind on the page, empty.
    Applied as a transfer, the payload gives no element and no
    notification.  The same text in a font that loads is rebuilt, and so
    is the label on a host that accepts every write. *)
Theorem font_failure_fails_the_text :
  let H := Reference.typesetter [] [] in
  let w := Scenario.receiver [] in
  let r := createNodeFromSerialized H Scenario.label 0 w in
  let t := applyPendingTransfer H Scenario.label (JStr "0") w in
  fst r = Ok None
  ∧ console (snd r)
    = ["Creating node from serialized data:"; "Could not load font:";
       "Node created, applying properties..."; error_line]
  ∧ type_of (doc (snd r)) 1 = Some "TEXT"
  ∧ prop_of (doc (snd r)) 1 "characters" = Some (JStr "")
  ∧ children_of (doc (snd r)) 0 = Some [1]
  ∧ fst t = Ok tt
  ∧ selection (doc (snd t)) = []
  ∧ notes (snd t) = []
  ∧ last (console (snd t)) = Some "Failed to create node from serialized data"
  ∧ fst (createNodeFromSerialized H Scenario.plain_label 0 w) = Ok (Some 1)
  ∧ fst (createNodeFromSerialized (Reference.host [] []) Scenario.label 0 w)
    = Ok (Some 1).
Proof. vm_compute. repeat split; reflexivity. Qed.

(** ** The round trip *)

(** C1: on every host, the stroke alignment written into a payload has no
    influence on the element rebuilt from it.  At the frame "Card": it is
    serialized with stroke alignment OUTSIDE and a label set in Roboto
    Bold; the element rebuilt from that wire form has the host's default
    alignment and the host's default font, while name, text and child
    order come back. *)
Theorem round_trip_loses_stroke_alignment :
  (forall (H : Host) fields children page v,
     createNodeFromSerialized H (NObj (<["strokeAlign" := v]> fields) children) page
     = createNodeFromSerialized H (NObj fields children) page)
  ∧
  let H := Reference.host [] [] in
  let source := node_object 4 Scenario.library 1 in
  let r := createNodeFromSerialized H (deepSerializeNode source) 0
             (Scenario.receiver []) in
  fst r = Ok (Some 1)
  ∧ node_type source = "FRAME"
  ∧ node_props source !! "strokeAlign" = Some (JStr "OUTSIDE")
  ∧ prop_of (doc (snd r)) 1 "strokeAlign" = Some (JStr "INSIDE")
  ∧ children_of Scenario.library 1 = Some [2; 3]
  ∧ children_of (doc (snd r)) 1 = Some [2; 3]
  ∧ prop_of Scenario.library 3 "fontName" = Some Reference.roboto
  ∧ prop_of (doc (snd r)) 3 "fontName" = Some Reference.inter
  ∧ prop_of (doc (snd r)) 3 "characters" = Some (JStr "Hi")
  ∧ prop_of (doc (snd r)) 1 "name" = Some (JStr "Card").
Proof.
  split.
  - intros. apply reconstruction_never_reads.
    rewrite !elem_of_cons. tauto.
  - vm_compute. repeat split; reflexivity.
Qed.

(** ** The claim step of a polling cycle *)

Lemma latestComment_last (comments : list Comment) (c : Comment) :
  startsWith marker (c_message c) = true ->
  latestComment (comments ++ [c]) = Some c.
Proof.
  intros Hc. unfold latestComment, transferComments.
  rewrite List.filter_app. cbn [List.filter]. rewrite Hc. apply last_snoc.
Qed.

(** C5 at a feed that lists the newer envelope first: the script claims
    the last marked comment, which is the older one, where [claimLatest]
    names the newer one. *)
Theorem latestComment_ignores_creation_time :
  let newer := mkComment "c2"
                 (Reference.message_of (Scenario.envelope Scenario.card "Card v2" 200)) 200 in
  let older := mkComment "c1"
                 (Reference.message_of (Scenario.envelope Scenario.card "Card v1" 100)) 100 in
  let H := Reference.host []
             [Scenario.envelope Scenario.card "Card v2" 200;
              Scenario.envelope Scenario.card "Card v1" 100] in
  let w' := snd (checkAndApplyPendingTransfers H (Scenario.receiver [newer; older])) in
  transferComments [newer; older] = [newer; older]
  ∧ claimLatest (transferComments [newer; older]) = Some newer
  ∧ latestComment [newer; older] = Some older
  ∧ calls w' = [GetComments "DEST" (JStr "figd_token");
                DeleteComment "DEST" "c1" (JStr "figd_token")]
  ∧ feed_of w' "DEST" = [newer].
Proof. vm_compute. repeat split; reflexivity. Qed.

(** On a feed listed oldest first the script's choice is the spec's. *)
Lemma claimLatest_sorted (pending : list Comment) :
  Sorted (fun a b => (c_created_at a <= c_created_at b)%Z) pending ->
  claimLatest pending = last pending.
Proof.
  intros Hs. unfold claimLatest.
  assert (forall l best,
            Sorted (fun a b => (c_created_at a <= c_created_at b)%Z) (best :: l) ->
            foldl (fun best c =>
                     match best with
                     | Some b =>
                         if (c_created_at b <=? c_created_at c)%Z then Some c else Some b
                     | None => Some c
                     end) (Some best) l
            = last (best :: l)) as Hgen.
  { induction l as [|c l IH]; intros best Hb; [done|].
    apply Sorted_inv in Hb as [Hl Hhd]. apply HdRel_inv in Hhd.
    cbn [foldl]. rewrite (proj2 (Z.leb_le _ _) Hhd). rewrite IH by done.
    by destruct l. }
  destruct pending as [|c l]; [done|]. cbn [foldl]. by apply Hgen.
Qed.

(** ** A reconstruction that fails *)

(** C2 at a feed whose only envelope has no payload: the root cannot be
    created, [applyPendingTransfer] only logs it, and the cycle goes on to
    delete the comment. *)
Theorem failed_reconstruction_is_deleted :
  let lost := Scenario.envelope NNull "Card" 100 in
  let H := Reference.host [] [lost] in
  let c := mkComment "c1" (Reference.message_of lost) 100 in
  let w := Scenario.receiver [c] in
  let w' := snd (checkAndApplyPendingTransfers H w) in
  createNodeFromSerialized H NNull 0 w
    = (Ok None, with_console (fun l => l ++ ["Error creating node from serialized:"]) w)
  ∧ calls w' = [GetComments "DEST" (JStr "figd_token");
                DeleteComment "DEST" "c1" (JStr "figd_token")]
  ∧ feed_of w "DEST" = [c]
  ∧ feed_of w' "DEST" = []
  ∧ children_of (doc w') 0 = Some []
  ∧ ui w' = [] ∧ notes w' = []
  ∧ console w'
    = ["Checking for pending transfers..."; "Total comments:";
       "Transfer comments found:"; "Processing transfer comment:";
       "Transfer data parsed:"; "Applying pending transfer for page:";
       "Target page found:"; "Error creating node from serialized:";
       "Failed to create node from serialized data";
       "Transfer applied and comment deleted"].
Proof. vm_compute. repeat split; reflexivity. Qed.

Lemma surroundings_calls w w' :
  surroundings w' = surroundings w ->
  calls w' = calls w ∧ remote w' = remote w.
Proof. unfold surroundings. by intros [= _ _ _ -> _ -> _ _]. Qed.

(** With the target page found, [applyPendingTransfer] returns normally
    whatever [createNodeFromSerialized] answers, and issues no request. *)
Lemma applyPendingTransfer_returns (H : Host) (nodeData : NodeData)
    (targetPageId : jsval) (page : handle) (w : World) :
  wf (doc w) ->
  find_page targetPageId (doc w) = Some page ->
  is_page (doc w) page = true ->
  exists w',
    applyPendingTransfer H nodeData targetPageId w = (Ok tt, w')
    ∧ calls w' = calls w ∧ remote w' = remote w.
Proof.
  intros Hwf Hfind Hpage. unfold applyPendingTransfer, try_catch.
  unfold bind at 1. cbn [log modify].
  unfold bind at 1, loadAllPagesAsync, ret at 1.
  unfold bind at 1, gets at 1. cbn [doc with_console]. rewrite Hfind.
  unfold bind at 1, gets at 1. cbn [doc with_console]. rewrite Hpage.
  unfold bind at 1. cbn [log modify].
  set (w2 := with_console _ (with_console _ w)).
  destruct (grows_all H page nodeData w2 Hwf) as (r & w3 & E & [_ Hs]).
  apply surroundings_calls in Hs as [Hc Hr].
  unfold bind at 1. rewrite E.
  destruct r as [c|].
  - eexists. split; [reflexivity|]. by split.
  - eexists. split; [reflexivity|]. by split.
Qed.

(** Once a cycle has claimed a comment whose envelope decodes and whose
    target page exists, it deletes that comment, whether or not the
    element could be rebuilt. *)
Lemma cycle_deletes_claimed_comment (H : Host) (w : World) (token : jsval)
    (key : string) (f : RemoteFile) (latest : Comment) (td : TransferData)
    (page : handle) :
  wf (doc w) ->
  prop (storage w) "figmaApiToken" = token ->
  truthy token = true ->
  fileKey w = JStr key ->
  key ≠ "" ->
  online (remote w) = true ->
  files (remote w) !! key = Some f ->
  f_readable f = true ->
  latestComment (f_comments f) = Some latest ->
  JSON_parse H (drop_first (marker +:+ newline) (c_message latest)) = Some td ->
  find_page (t_targetPageId td) (doc w) = Some page ->
  is_page (doc w) page = true ->
  exists w',
    checkAndApplyPendingTransfers H w = (Ok tt, w')
    ∧ calls w'
      = calls w ++ [GetComments key token; DeleteComment key (c_id latest) token].
Proof.
  intros Hwf Htoken Htruthy Hkey Hne Honline Hfile Hread Hlatest Hparse Hfind Hpage.
  unfold checkAndApplyPendingTransfers, try_catch.
  unfold bind at 1, gets at 1. rewrite Htoken.
  unfold bind at 1, gets at 1. rewrite Hkey, Htruthy.
  replace (truthy (JStr key)) with true
    by (cbn; by rewrite bool_decide_eq_false_2).
  cbn [negb orb to_string].
  unfold bind at 1. cbn [log modify].
  unfold bind at 1, fetch_comments, request.
  cbn [remote with_calls with_console]. rewrite Honline, Hfile, Hread.
  unfold bind at 1. cbn [log modify].
  unfold bind at 1. cbn [log modify].
  rewrite Hlatest.
  unfold bind at 1. cbn [log modify]. rewrite Hparse.
  unfold bind at 1. cbn [log modify].
  unfold bind at 1.
  match goal with
  | |- context [applyPendingTransfer H _ _ ?s] =>
      destruct (applyPendingTransfer_returns H (t_nodeData td) (t_targetPageId td)
                  page s Hwf Hfind Hpage) as (w4 & E & Hc & Hr)
  end.
  rewrite E.
  unfold bind at 1, delete_comment, request.
  cbn [remote with_calls]. rewrite Hr. cbn [remote with_remote with_console with_calls].
  rewrite Honline. cbn [log modify].
  eexists. split; [reflexivity|].
  cbn [calls with_console with_remote with_calls]. rewrite Hc.
  cbn [calls with_console with_remote with_calls].
  by rewrite <- app_assoc.
Qed.

(** ** Write scope *)

(** C9: without a cached scope record, or with one that lacks write
    access, [transferToOtherFile] throws the permission error at once: no
    request is issued, the remote and the document are untouched, and the
    panel is told of the failure. *)
Theorem transferToOtherFile_requires_write_scope
    (H : Host) (node : handle) (msg : TransferRequest) (w : World) :
  truthy (prop (storage w) "tokenScopes") = false
  ∨ truthy (field (prop (storage w) "tokenScopes") "hasWriteAccess") = false ->
  transferToOtherFile H node msg w
    = (Thrown no_write_permission,
       with_ui (fun u => u ++ [UiComplete false no_write_permission]) w)
  ∧ calls (snd (transferToOtherFile H node msg w)) = calls w
  ∧ remote (snd (transferToOtherFile H node msg w)) = remote w
  ∧ doc (snd (transferToOtherFile H node msg w)) = doc w.
Proof.
  intros Hscope.
  assert (transferToOtherFile H node msg w
          = (Thrown no_write_permission,
             with_ui (fun u => u ++ [UiComplete false no_write_permission]) w)) as E.
  { unfold transferToOtherFile, try_catch, bind, gets.
    destruct Hscope as [-> | ->]; cbn [negb orb]; [done|].
    by rewrite orb_true_r. }
  rewrite E. done.
Qed.

Lemma transferToOtherFile_requires_write_scope_witness :
  calls (snd (transferToOtherFile (Reference.host [] []) 1 Scenario.to_product
                (Scenario.sender Scenario.read_only (Scenario.destination true []))))
  = [].
Proof.
  apply (transferToOtherFile_requires_write_scope (Reference.host [] []) 1
           Scenario.to_product
           (Scenario.sender Scenario.read_only (Scenario.destination true []))).
  right. reflexivity.
Defined.

(** ** A cross-file transfer that fails after cloning *)

(** C3 at a destination file that cannot be read: the transfer throws
    after the clone was made, and the clone (handle 4, a second "Card")
    stays on the source page. *)
Theorem failed_transfer_leaves_clone :
  let H := Reference.host [] [] in
  let w := Scenario.sender Scenario.full_access (Scenario.destination false []) in
  let r := transferToOtherFile H 1 Scenario.to_product w in
  fst r = Thrown no_destination
  ∧ children_of (doc w) 0 = Some [1]
  ∧ children_of (doc (snd r)) 0 = Some [1; 4]
  ∧ type_of (doc (snd r)) 4 = Some "FRAME"
  ∧ prop_of (doc (snd r)) 4 "name" = Some (JStr "Card")
  ∧ calls (snd r) = [GetFile "DEST" (JStr "figd_token")].
Proof. vm_compute. repeat split; reflexivity. Qed.

(** Whenever [transferToOtherFile] throws after the scope check and the
    clone went through, the document it leaves is the document as it was
    right after [node.clone()]: nothing removed the clone. *)
Lemma throw_after_clone_keeps_document (H : Host) (node : handle)
    (msg : TransferRequest) (w w' : World) (c : handle) (d1 : Doc) (e : string) :
  truthy (prop (storage w) "tokenScopes") = true ->
  truthy (field (prop (storage w) "tokenScopes") "hasWriteAccess") = true ->
  clone H node (doc w) = (Ok c, d1) ->
  transferToOtherFile H node msg w = (Thrown e, w') ->
  doc w' = d1.
Proof.
  intros Hscopes Hwrite Hclone Hrun.
  unfold transferToOtherFile, try_catch in Hrun.
  unfold bind at 1 in Hrun. unfold gets at 1 in Hrun.
  rewrite Hscopes, Hwrite in Hrun. cbn [negb orb] in Hrun.
  unfold bind at 1, progress at 1, postMessage, modify in Hrun.
  unfold bind at 1, lift at 1 in Hrun. cbn [doc with_ui] in Hrun.
  rewrite Hclone in Hrun.
  unfold fetch_file, post_comment, request, progress, postMessage, notify,
    lift, remove in Hrun.
  unfold bind, gets, modify, throw, ret in Hrun.
  cbn [doc with_doc with_ui with_calls with_remote with_notes remote
       storage clock rootName calls ui] in Hrun.
  repeat match type of Hrun with
         | context [if ?b then _ else _] => destruct b
         | context [match ?x with Some _ => _ | None => _ end] => destruct x
         end;
    cbn [doc with_doc with_ui with_calls with_remote with_notes] in Hrun;
    first [discriminate Hrun | by injection Hrun as _ <-].
Qed.

(** Planting a copy uses fresh handles only. *)
Lemma plant_fresh_node type id props children :
  match children with
  | Some cs =>
      Forall (fun n => forall d, exists d',
                plant n d = (Ok (next d), d')
                ∧ (next d < next d')%nat
                ∧ (forall h, (h < next d)%nat -> nodes d' !! h = nodes d !! h)
                ∧ currentPage d' = currentPage d) cs
  | None => True
  end ->
  forall d, exists d',
    plant (Element type id props children) d = (Ok (next d), d')
    ∧ (next d < next d')%nat
    ∧ (forall h, (h < next d)%nat -> nodes d' !! h = nodes d !! h)
    ∧ currentPage d' = currentPage d.
Proof.
  intros Hcs d.
  cbn [plant]. unfold bind at 1, gets at 1. unfold bind at 1, modify at 1.
  set (c := next d).
  set (d1 := with_next (S c) _).
  assert ((c < next d1)%nat) as Hn1 by (cbn; lia).
  assert (forall h, (h < c)%nat -> nodes d1 !! h = nodes d !! h) as Hold1
    by (intros h Hh; cbn; by rewrite lookup_insert_ne by lia).
  assert (currentPage d1 = currentPage d) as Hcur1 by done.
  clearbody d1.
  assert (exists d', match children with
                     | Some cs =>
                         (fix each (l : list BaseNode) : St Doc unit :=
                            match l with
                            | [] => ret tt
                            | k :: l' =>
                                bind (plant k) (fun kc =>
                                  bind (modify (with_nodes (attach c kc)))
                                       (fun _ => each l'))
                            end) cs
                     | None => ret tt
                     end d1 = (Ok tt, d')
                     ∧ (c < next d')%nat
                     ∧ (forall h, (h < c)%nat -> nodes d' !! h = nodes d !! h)
                     ∧ currentPage d' = currentPage d) as (d' & Hrun & Hn & Hold & Hcur).
  { destruct children as [cs|]; [|by exists d1].
    revert d1 Hn1 Hold1 Hcur1.
    induction Hcs as [|k l Hk Hl IHl]; intros d2 Hn Hold Hcur.
    - by exists d2.
    - unfold bind at 1. destruct (Hk d2) as (d3 & -> & Hn3 & Hold3 & Hcur3).
      unfold bind at 1, modify at 1.
      apply IHl.
      + cbn. lia.
      + intros h Hh. cbn [nodes with_nodes]. unfold attach.
        rewrite lookup_alter_ne by lia. rewrite Hold3 by lia. by apply Hold.
      + cbn. congruence. }
  unfold bind at 1. rewrite Hrun. by exists d'.
Qed.

Lemma plant_fresh (n : BaseNode) :
  forall d, exists d',
    plant n d = (Ok (next d), d')
    ∧ (next d < next d')%nat
    ∧ (forall h, (h < next d)%nat -> nodes d' !! h = nodes d !! h)
    ∧ currentPage d' = currentPage d.
Proof.
  revert n. fix IH 1. intros [type id props children].
  apply plant_fresh_node. destruct children as [cs|]; [|exact I].
  induction cs as [|k cs IHcs]; constructor; [apply IH | exact IHcs].
Qed.

(** The clone ends as the last child of the current page. *)
Lemma clone_on_current_page (H : Host) (h : handle) (d : Doc) (l : list handle) :
  wf d ->
  children_of d (currentPage d) = Some l ->
  host_clones H d h = true ->
  exists d1,
    clone H h d = (Ok (next d), d1)
    ∧ children_of d1 (currentPage d) = Some (l ++ [next d]).
Proof.
  intros Hwf Hl Hclone. unfold clone. rewrite Hclone.
  destruct (plant_fresh (node_object (next d) d h) d) as (d' & Hp & Hn & Hold & Hcur).
  unfold bind at 1. rewrite Hp. unfold bind, gets, modify, ret. rewrite Hcur.
  eexists. split; [reflexivity|].
  assert ((currentPage d < next d)%nat) as Hlt
    by (apply container_below; [done | by eexists]).
  unfold children_of in *. cbn [nodes with_nodes]. unfold attach.
  rewrite lookup_alter_eq, Hold by done.
  destruct (nodes d !! currentPage d) as [n|]; [|done]. cbn in *. by rewrite Hl.
Qed.

(** A cross-file transfer that throws after the clone was made leaves the
    clone as the last child of the source page. *)
Lemma throw_after_clone_keeps_clone (H : Host) (node : handle)
    (msg : TransferRequest) (w w' : World) (l : list handle) (e : string) :
  wf (doc w) ->
  children_of (doc w) (currentPage (doc w)) = Some l ->
  truthy (prop (storage w) "tokenScopes") = true ->
  truthy (field (prop (storage w) "tokenScopes") "hasWriteAccess") = true ->
  host_clones H (doc w) node = true ->
  transferToOtherFile H node msg w = (Thrown e, w') ->
  children_of (doc w') (currentPage (doc w)) = Some (l ++ [next (doc w)]).
Proof.
  intros Hwf Hl Hscopes Hwrite Hclone Hrun.
  destruct (clone_on_current_page H node (doc w) l Hwf Hl Hclone) as (d1 & Hc & Hkids).
  by rewrite (throw_after_clone_keeps_document H node msg w w' _ d1 e
                Hscopes Hwrite Hc Hrun).
Qed.

(** ** Selections *)

Lemma handleTransfer_wants_one (H : Host) (msg : TransferRequest) (w : World) :
  length (selection (doc w)) ≠ 1 ->
  handleTransfer H msg w
    = (Ok tt, with_ui (fun u => u ++ [UiError bad_selection]) w).
Proof.
  intros Hlen. unfold handleTransfer, bind, gets.
  destruct (selection (doc w)) as [|n [|n' l]]; cbn in Hlen; try done.
Qed.

(** C8 at a selected rectangle, a kind [handleGetSelection] turns down:
    [handleTransfer] raises no selection error and goes to the network. *)
Theorem handleTransfer_takes_any_kind :
  let H := Reference.host [] [] in
  let w := with_doc (with_selection [2])
             (Scenario.sender Scenario.full_access (Scenario.destination true [])) in
  let r := handleTransfer H Scenario.to_product w in
  type_of (doc w) 2 = Some "RECTANGLE"
  ∧ ("RECTANGLE" ∉ validTypes)
  ∧ fst r = Ok tt
  ∧ map mutating (calls (snd r)) = [false; true]
  ∧ head (calls (snd r)) = Some (GetFile "DEST" (JStr "figd_token"))
  ∧ last (ui (snd r))
    = Some (UiComplete true
              "✓ Element transferred to Product - applying automatically...")
  ∧ length (feed_of (snd r) "DEST") = 1.
Proof.
  vm_compute. repeat split; try reflexivity.
  intros Hin. by repeat (apply elem_of_cons in Hin as [Hin|Hin]; [done|]); inversion Hin.
Qed.
(** * Further properties of the script *)

(** ** Well-formed documents, by computation *)

Lemma wf_checked (d : Doc) : wf_check d = true -> wf d.
Proof.
  intros Hc h n Hn. unfold wf_check in Hc. rewrite forallb_forall in Hc.
  apply elem_of_map_to_list, list_elem_of_In, Hc in Hn. cbn [fst snd] in Hn.
  apply andb_true_iff in Hn as [Hlt Hcs]. apply Nat.ltb_lt in Hlt.
  split; [done|]. intros cs Hk. rewrite Hk in Hcs.
  rewrite forallb_forall in Hcs. apply Forall_forall. intros c Hin.
  apply Nat.ltb_lt, Hcs. by apply list_elem_of_In.
Qed.

Lemma wf_library : wf Scenario.library.
Proof. apply wf_checked. vm_compute. reflexivity. Qed.

(** ** The serialized fields *)

Lemma copies_lookup (node : gmap string jsval) keys k s :
  foldl (fun s k => copy_if_present node k s) s keys !! k
  = if bool_decide (k ∈ keys)
    then match node !! k with Some v => Some v | None => s !! k end
    else s !! k.
Proof.
  revert s. induction keys as [|k' keys IH]; intros s; cbn [foldl].
  - done.
  - rewrite IH.
    destruct (decide (k = k')) as [->|Hne].
    + rewrite (bool_decide_eq_true_2 (k' ∈ k' :: keys)) by constructor.
      unfold copy_if_present.
      destruct (node !! k') as [v|] eqn:E.
      * rewrite lookup_insert_eq. by destruct (bool_decide (k' ∈ keys)).
      * by destruct (bool_decide (k' ∈ keys)).
    + rewrite copy_if_present_other by done.
      destruct (decide (k ∈ keys)) as [Hin|Hnot].
      * rewrite !bool_decide_eq_true_2; [done | by constructor | done].
      * rewrite !bool_decide_eq_false_2; [done | | done].
        rewrite elem_of_cons. tauto.
Qed.

(** X1: [deepSerializeNode], key by key: a key of the copied list is in
    the serialized fields exactly when the element has that property, and
    with the element's value; [id], [name] and [type] are always there;
    no other key is. *)
Theorem deepSerializeNode_fields (node : BaseNode) (k : string) :
  fields_of (deepSerializeNode node) !! k
  = if bool_decide (k ∈ serialized_keys) then node_props node !! k
    else if bool_decide (k = "id") then Some (JStr (node_id node))
    else if bool_decide (k = "name") then Some (prop (node_props node) "name")
    else if bool_decide (k = "type") then Some (JStr (node_type node))
    else None.
Proof.
  destruct node as [type id props children].
  cbn [deepSerializeNode fields_of node_props node_id node_type].
  rewrite copies_lookup.
  destruct (decide (k ∈ serialized_keys)) as [Hin|Hnot].
  - rewrite bool_decide_eq_true_2 by done.
    destruct (props !! k) as [v|]; [done|].
    rewrite !lookup_insert_ne, lookup_empty; [done | | | ];
      intros <-; revert Hin; by apply (bool_decide_unpack _).
  - rewrite bool_decide_eq_false_2 by done.
    repeat case_bool_decide; subst;
      rewrite ?lookup_insert_eq, ?lookup_insert_ne, ?lookup_empty by done; done.
Qed.

Lemma substring_all (s : string) : String.substring 0 (String.length s) s = s.
Proof. induction s as [|a s IH]; [done|]. cbn. by rewrite IH. Qed.

Lemma append_cons a (p s : string) : String a p +:+ s = String a (p +:+ s).
Proof. reflexivity. Qed.

Lemma prefix_append (p s : string) : String.prefix p (p +:+ s) = true.
Proof.
  induction p as [|a p IH].
  - by destruct s.
  - rewrite append_cons. cbn. by destruct (Ascii.ascii_dec a a).
Qed.

Lemma index_append (p s : string) : String.index 0 p (p +:+ s) = Some 0.
Proof.
  destruct (p +:+ s) as [|b t] eqn:E.
  - destruct p; [done | discriminate E].
  - cbn [String.index]. by rewrite <- E, prefix_append.
Qed.

Lemma substring_append (p s : string) n :
  String.substring (String.length p) n (p +:+ s) = String.substring 0 n s.
Proof. induction p as [|a p IH]; [done|]. rewrite append_cons. cbn. apply IH. Qed.

Lemma length_append (p s : string) :
  String.length (p +:+ s) = String.length p + String.length s.
Proof. induction p as [|a p IH]; [done|]. rewrite append_cons. cbn. by rewrite IH. Qed.

Lemma drop_first_append (p s : string) : drop_first p (p +:+ s) = s.
Proof.
  unfold drop_first. rewrite index_append.
  replace (String.substring 0 0 (p +:+ s)) with "" by (by destruct (p +:+ s)).
  rewrite Nat.add_0_l, length_append, substring_append.
  replace (String.length p + String.length s - String.length p)
    with (String.length s) by lia.
  apply substring_all.
Qed.

(** ** Handlers, run by cases *)

Ltac unfold_world_in Hrun :=
  unfold fetch_file, fetch_comments, post_comment, delete_comment, request, progress,
    postMessage, notify, log, lift, remove, setCurrentPage, select,
    loadAllPagesAsync, loadAsync in Hrun;
  unfold bind, gets, modify, throw, ret in Hrun.

Ltac cbn_world_in Hrun :=
  cbn [doc fileKey rootName storage remote clock calls ui notes console
       with_doc with_ui with_calls with_remote with_notes with_console
       fst snd negb orb andb] in Hrun.

Ltac cbn_world :=
  cbn [doc fileKey rootName storage remote clock calls ui notes console
       with_doc with_ui with_calls with_remote with_notes with_console
       fst snd negb orb andb].

Ltac atomic x :=
  lazymatch x with
  | context [match _ with (_, _) => _ end] => fail
  | context [if _ then _ else _] => fail
  | context [match _ with Some _ => _ | None => _ end] => fail
  | context [match _ with Ok _ => _ | Thrown _ => _ end] => fail
  | _ => idtac
  end.

Ltac split_step Hrun :=
  match type of Hrun with
  | context [clone ?H ?n ?d] => destruct (clone H n d) as [[?|?] ?] eqn:?
  | context [match ?x with (_, _) => _ end] =>
      atomic x; destruct x as [[?|?] ?] eqn:?
  | context [if negb ?b then _ else _] => destruct b eqn:?
  | context [if ?b then _ else _] => atomic b; destruct b eqn:?
  | context [match ?x with Some _ => _ | None => _ end] =>
      atomic x; destruct x eqn:?
  end; cbn_world_in Hrun.

Ltac split_run Hrun := repeat split_step Hrun.

Ltac split_goal :=
  repeat (match goal with
          | |- context [match ?x with (_, _) => _ end] =>
              atomic x; destruct x as [[?|?] ?] eqn:?
          | |- context [if ?b then _ else _] => atomic b; destruct b eqn:?
          | |- context [match ?x with Some _ => _ | None => _ end] =>
              atomic x; destruct x eqn:?
          end; cbn_world).

Ltac unfold_world :=
  unfold fetch_file, fetch_comments, post_comment, delete_comment, request, progress,
    postMessage, notify, log, lift, remove, setCurrentPage, select,
    loadAllPagesAsync, loadAsync;
  unfold bind, gets, modify, throw, ret.

(** X3: the comment a successful [transferToOtherFile] posts goes to the
    end of the target file's feed and is the one [latestComment] picks
    there; without its marker line it is the envelope, whose payload is
    the serialization of the clone; the requests made are one file lookup
    and one post, in this order. *)
Theorem posted_envelope_is_claimed_next (H : Host) (node : handle)
    (msg : TransferRequest) (w w' : World) :
  transferToOtherFile H node msg w = (Ok tt, w') ->
  exists (f : RemoteFile) (c : Comment) (td : TransferData) (cl : handle) (d1 : Doc),
    files (remote w) !! m_fileKey msg = Some f
    ∧ feed_of w' (m_fileKey msg) = f_comments f ++ [c]
    ∧ latestComment (feed_of w' (m_fileKey msg)) = Some c
    ∧ drop_first (marker +:+ newline) (c_message c) = JSON_stringify H td
    ∧ clone H node (doc w) = (Ok cl, d1)
    ∧ t_nodeData td = deepSerializeNode (node_object (next d1) d1 cl)
    ∧ t_targetPageId td = m_pageId msg
    ∧ calls w'
      = calls w ++ [GetFile (m_fileKey msg) (m_token msg);
                    PostComment (m_fileKey msg) (m_token msg) (c_message c)].
Proof.
  intros Hrun.
  unfold transferToOtherFile, try_catch in Hrun.
  unfold_world_in Hrun. cbn_world_in Hrun.
  split_run Hrun; try discriminate Hrun.
  injection Hrun as <-.
  unfold feed_of. cbn_world.
  match goal with E : accepts_comment _ _ = true |- _ =>
    rewrite E; unfold accepts_comment in E end.
  destruct (files (remote w) !! m_fileKey msg) as [f|] eqn:Hf; [|done].
  cbn [files]. rewrite lookup_alter_eq, Hf.
  cbn [fmap option_fmap option_map add_comment f_comments].
  eexists f, _, _, _, _.
  split; [done|].
  split; [reflexivity|].
  split; [by apply latestComment_last, prefix_append|].
  split; [exact (drop_first_append (marker +:+ newline) _)|].
  split; [done|].
  split; [reflexivity|].
  split; [reflexivity|].
  cbn [c_message]. by rewrite <- app_assoc.
Qed.

Lemma posted_envelope_is_claimed_next_witness :
  let w' := snd (transferToOtherFile Cases.H0 1 Scenario.to_product Cases.sending) in
  exists (f : RemoteFile) (c : Comment) (td : TransferData) (cl : handle) (d1 : Doc),
    files (remote Cases.sending) !! "DEST" = Some f
    ∧ feed_of w' "DEST" = f_comments f ++ [c]
    ∧ latestComment (feed_of w' "DEST") = Some c
    ∧ drop_first (marker +:+ newline) (c_message c) = Reference.print_envelope td
    ∧ clone Cases.H0 1 (doc Cases.sending) = (Ok cl, d1)
    ∧ t_nodeData td = deepSerializeNode (node_object (next d1) d1 cl)
    ∧ t_targetPageId td = JStr "0"
    ∧ calls w'
      = calls Cases.sending
        ++ [GetFile "DEST" (JStr "figd_token");
            PostComment "DEST" (JStr "figd_token") (c_message c)].
Proof.
  intros w'.
  apply (posted_envelope_is_claimed_next Cases.H0 1 Scenario.to_product
           Cases.sending w').
  vm_compute. reflexivity.
Defined.

(** X5: a [transferToOtherFile] that throws tells the panel so, its last
    message being [transfer-complete] with [success: false] and the text
    of the error; and it has posted no comment (the remote side is
    unchanged) unless what threw was the removal of the clone: then the
    comment is in the feed, and the clone is still in the document. *)
Theorem failed_transfer_posts_only_before_cleanup (H : Host) (node : handle)
    (msg : TransferRequest) (w w' : World) (e : string) :
  transferToOtherFile H node msg w = (Thrown e, w') ->
  last (ui w') = Some (UiComplete false e)
  ∧ (remote w' = remote w
     ∨ exists (f : RemoteFile) (c : Comment) (cl : handle) (d1 : Doc),
         clone H node (doc w) = (Ok cl, d1)
         ∧ host_removes H d1 cl = false
         ∧ doc w' = d1
         ∧ files (remote w) !! m_fileKey msg = Some f
         ∧ feed_of w' (m_fileKey msg) = f_comments f ++ [c]
         ∧ startsWith marker (c_message c) = true).
Proof.
  intros Hrun.
  unfold transferToOtherFile, try_catch in Hrun.
  unfold_world_in Hrun.
  cbn_world_in Hrun.
  all: split_run Hrun.
  all: try discriminate Hrun.
  all: injection Hrun as <- <-; cbn_world.
  all: (split; [by rewrite last_snoc|]).
  all: try (left; done).
  all: try (left;
            match goal with E : accepts_comment _ _ = false |- _ => by rewrite E end).
  right. unfold feed_of. cbn_world.
  match goal with E : accepts_comment _ _ = true |- _ =>
    rewrite E; unfold accepts_comment in E end.
  match goal with E : files (remote w) !! m_fileKey msg = Some ?r |- _ =>
    rename r into f; rename E into Hf end.
  cbn [files]. rewrite lookup_alter_eq, Hf.
  cbn [fmap option_fmap option_map add_comment f_comments].
  eexists f, _, _, _.
  split; [done|]. split; [done|]. split; [done|]. split; [done|].
  split; [reflexivity|]. apply prefix_append.
Qed.

Lemma failed_transfer_posts_only_before_cleanup_witness :
  let w' := snd (transferToOtherFile Cases.keeper 1 Scenario.to_product Cases.sending) in
  (last (ui w') = Some (UiComplete false "cannot remove")
   ∧ (remote w' = remote Cases.sending
      ∨ exists (f : RemoteFile) (c : Comment) (cl : handle) (d1 : Doc),
          clone Cases.keeper 1 (doc Cases.sending) = (Ok cl, d1)
          ∧ host_removes Cases.keeper d1 cl = false
          ∧ doc w' = d1
          ∧ files (remote Cases.sending) !! "DEST" = Some f
          ∧ feed_of w' "DEST" = f_comments f ++ [c]
          ∧ startsWith marker (c_message c) = true))
  ∧ length (feed_of Cases.sending "DEST") = 0
  ∧ length (feed_of w' "DEST") = 1
  ∧ children_of (doc w') 0 = Some [1; 4].
Proof.
  intros w'. split; [|vm_compute; repeat split; reflexivity].
  apply (failed_transfer_posts_only_before_cleanup Cases.keeper 1 Scenario.to_product
           Cases.sending w' "cannot remove").
  vm_compute. reflexivity.
Defined.
(** ** The clone of a cross-file transfer *)

(** What [node.clone()] does to the store: a fresh root, the old elements
    untouched but for the current page, which gains the clone. *)
Lemma clone_spec (H : Host) (h : handle) (d : Doc) :
  (currentPage d < next d)%nat ->
  host_clones H d h = true ->
  exists d1,
    clone H h d = (Ok (next d), d1)
    ∧ (next d < next d1)%nat
    ∧ currentPage d1 = currentPage d
    ∧ forall x, (x < next d)%nat ->
        nodes d1 !! x
        = if decide (currentPage d = x)
          then with_children (fun l => l ++ [next d]) <$> nodes d !! x
          else nodes d !! x.
Proof.
  intros Hlt Hclone. unfold clone. rewrite Hclone.
  destruct (plant_fresh (node_object (next d) d h) d) as (d' & Hp & Hn & Hold & Hcur).
  unfold bind at 1. rewrite Hp. unfold bind, gets, modify, ret. rewrite Hcur.
  eexists. split; [reflexivity|]. split; [done|]. split; [done|].
  intros x Hx. cbn [nodes with_nodes]. rewrite lookup_attach.
  by rewrite Hold.
Qed.

Lemma clone_refused (H : Host) (h : handle) (d : Doc) :
  host_clones H d h = false -> clone H h d = (Thrown "cannot clone", d).
Proof. intros Hclone. unfold clone. by rewrite Hclone. Qed.

(** *** What [node.remove()] takes away *)

Lemma lookup_foldr_delete (m : gmap nat HNode) (l : list nat) (h : nat) :
  foldr delete m l !! h = if decide (h ∈ l) then None else m !! h.
Proof.
  induction l as [|x l IH]; cbn [foldr].
  - rewrite decide_False; [done | apply not_elem_of_nil].
  - destruct (decide (h = x)) as [->|Hne].
    + rewrite lookup_delete_eq. rewrite decide_True; [done | constructor].
    + rewrite lookup_delete_ne by done. rewrite IH.
      destruct (decide (h ∈ l)) as [Hin|Hnot].
      * rewrite decide_True; [done | by constructor].
      * rewrite decide_False; [done|]. rewrite elem_of_cons. tauto.
Qed.

Lemma elem_of_flat_map (f : nat -> list nat) (l : list nat) (x : nat) :
  x ∈ flat_map f l <-> exists h, h ∈ l ∧ x ∈ f h.
Proof.
  rewrite list_elem_of_In, in_flat_map. split.
  - intros (h & Hh & Hx). exists h. by rewrite !list_elem_of_In.
  - intros (h & Hh & Hx). exists h. by rewrite <- !list_elem_of_In.
Qed.

Lemma flat_map_agree (f g : nat -> list nat) (l : list nat) :
  (forall h, h ∈ l -> f h = g h) -> flat_map f l = flat_map g l.
Proof.
  induction l as [|h l IH]; intros Hfg; [done|]. cbn [flat_map].
  rewrite (Hfg h) by constructor. f_equal. apply IH. intros h' Hh'.
  apply Hfg. by constructor.
Qed.

(** The subtree of an element depends on the store only through the
    elements it lists. *)
Lemma subtree_ext (fuel : nat) (d1 d2 : Doc) (h : handle) :
  (forall x, x ∈ subtree fuel d1 h -> nodes d2 !! x = nodes d1 !! x) ->
  subtree fuel d2 h = subtree fuel d1 h.
Proof.
  revert h. induction fuel as [|fuel IH]; intros h Hsame; [done|].
  cbn [subtree] in *. f_equal.
  rewrite (Hsame h) by constructor.
  destruct (nodes d1 !! h) as [n|] eqn:E; [|done].
  apply flat_map_agree. intros ch Hch. apply IH. intros x Hx.
  apply Hsame. constructor. apply elem_of_flat_map. by exists ch.
Qed.

Lemma subtrees_ext (fuel : nat) (d1 d2 : Doc) (hs : list handle) :
  (forall x, x ∈ flat_map (subtree fuel d1) hs -> nodes d2 !! x = nodes d1 !! x) ->
  flat_map (subtree fuel d2) hs = flat_map (subtree fuel d1) hs.
Proof.
  intros Hsame. apply flat_map_agree. intros h Hh. apply subtree_ext.
  intros x Hx. apply Hsame. apply elem_of_flat_map. by exists h.
Qed.

Lemma sizes_app (l1 l2 : list BaseNode) : sizes (l1 ++ l2) = (sizes l1 + sizes l2)%nat.
Proof. unfold sizes. induction l1 as [|k l1 IH]; cbn; [done|]. rewrite IH. lia. Qed.

Lemma heights_app (l1 l2 : list BaseNode) :
  heights (l1 ++ l2) = Nat.max (heights l1) (heights l2).
Proof. unfold heights. induction l1 as [|k l1 IH]; cbn; [done|]. rewrite IH. lia. Qed.

Lemma height_le_size (n : BaseNode) : (height n ≤ size n)%nat.
Proof.
  revert n. fix IH 1. intros [type id props [cs|]]; cbn; [|lia].
  enough (foldr (fun k m => Nat.max (height k) m) 0 cs
          ≤ foldr (fun k m => size k + m) 0 cs)%nat by lia.
  induction cs as [|k cs IHcs]; cbn; [lia|]. pose proof (IH k). lia.
Qed.

Lemma size_pos (n : BaseNode) : (0 < size n)%nat.
Proof. destruct n as [type id props [cs|]]; cbn; lia. Qed.

(** The child loop of [plant], from a state in which the children [done]
    are laid out behind [c]. *)
Lemma laid_out_children (c : handle) (type : string) (props : gmap string jsval)
    (rest : list BaseNode) :
  Forall laid_out rest ->
  forall d1 done hs,
    next d1 = (S c + sizes done)%nat ->
    nodes d1 !! c = Some (mkHNode type (id_of c) props (Some hs)) ->
    (forall fuel, (heights done ≤ fuel)%nat ->
       flat_map (subtree fuel d1) hs = seq (S c) (sizes done)) ->
    exists d2 hs2,
      (fix each (l : list BaseNode) : St Doc unit :=
         match l with
         | [] => ret tt
         | k :: l' =>
             bind (plant k) (fun kc =>
               bind (modify (with_nodes (attach c kc)))
                    (fun _ => each l'))
         end) rest d1 = (Ok tt, d2)
      ∧ next d2 = (S c + sizes (done ++ rest))%nat
      ∧ (forall x, (x < c)%nat ∨ (next d2 ≤ x)%nat -> nodes d2 !! x = nodes d1 !! x)
      ∧ nodes d2 !! c = Some (mkHNode type (id_of c) props (Some hs2))
      ∧ (forall fuel, (heights (done ++ rest) ≤ fuel)%nat ->
           flat_map (subtree fuel d2) hs2 = seq (S c) (sizes (done ++ rest))).
Proof.
  induction 1 as [|k rest Hk _ IH]; intros d1 done hs Hnext Hc Hsub.
  { exists d1, hs. rewrite app_nil_r. by repeat split. }
  unfold bind at 1.
  destruct (Hk d1) as (d3 & -> & Hn3 & Hold3 & Hsub3).
  unfold bind at 1, modify at 1.
  set (kc := next d1) in *.
  set (d4 := with_nodes (attach c kc) d3).
  assert (forall x, x ≠ c -> (x < kc)%nat ∨ (next d3 ≤ x)%nat ->
            nodes d4 !! x = nodes d1 !! x) as Hold4.
  { intros x Hx Hr. subst d4. cbn [nodes with_nodes]. unfold attach.
    rewrite lookup_alter_ne by done. by apply Hold3. }
  destruct (IH d4 (done ++ [k]) (hs ++ [kc])) as (d2 & hs2 & Hrun & Hn2 & Hold2 & Hc2 & Hsub2).
  - subst d4. cbn [next with_nodes]. rewrite Hn3, sizes_app. unfold sizes at 2. cbn. lia.
  - subst d4. cbn [nodes with_nodes]. unfold attach.
    rewrite lookup_alter_eq, Hold3 by (left; lia). by rewrite Hc.
  - intros fuel Hfuel. rewrite heights_app in Hfuel. unfold heights at 2 in Hfuel.
    cbn in Hfuel.
    assert (flat_map (subtree fuel d1) hs = seq (S c) (sizes done)) as Hdone
      by (apply Hsub; lia).
    assert (subtree fuel d3 kc = seq kc (size k)) as Hkid by (apply Hsub3; lia).
    rewrite flat_map_app. cbn [flat_map]. rewrite app_nil_r.
    rewrite (subtrees_ext fuel d1 d4), Hdone.
    + rewrite (subtree_ext fuel d3 d4), Hkid.
      * rewrite sizes_app. unfold sizes at 3. cbn [foldr].
        rewrite Nat.add_0_r, seq_app. f_equal. f_equal. lia.
      * intros x Hx. rewrite Hkid in Hx. apply elem_of_seq in Hx.
        subst d4. cbn [nodes with_nodes]. unfold attach.
        rewrite lookup_alter_ne; [done | lia].
    + intros x Hx. rewrite Hdone in Hx. apply elem_of_seq in Hx.
      apply Hold4; lia.
  - exists d2, hs2. rewrite <- app_assoc in Hn2, Hsub2. cbn [app] in Hn2, Hsub2.
    split; [exact Hrun|]. split; [exact Hn2|]. split; [|by split].
    intros x Hx. rewrite Hold2 by done.
    assert (next d4 ≤ next d2)%nat as Hle.
    { rewrite Hn2. subst d4. cbn [next with_nodes]. rewrite Hn3, Hnext, sizes_app.
      unfold sizes at 3. cbn. lia. }
    apply Hold4; [lia|].
    subst d4. cbn [next with_nodes] in Hle. lia.
Qed.

Lemma laid_out_node type id props children :
  match children with
  | Some cs => Forall laid_out cs
  | None => True
  end ->
  laid_out (Element type id props children).
Proof.
  intros Hcs d.
  cbn [plant]. unfold bind at 1, gets at 1. unfold bind at 1, modify at 1.
  set (c := next d).
  destruct children as [cs|].
  - set (d1 := with_next (S c) _).
    destruct (laid_out_children c type props cs Hcs d1 [] [])
      as (d2 & hs2 & Hrun & Hn2 & Hold2 & Hc2 & Hsub2).
    + subst d1. cbn. lia.
    + subst d1. cbn [nodes with_next with_nodes]. by rewrite lookup_insert_eq.
    + by intros fuel _.
    + cbn [app] in Hn2, Hsub2. unfold bind at 1. rewrite Hrun. cbn [ret].
      exists d2. split; [done|].
      split; [rewrite Hn2; unfold sizes; cbn; lia|]. split.
      * intros x Hx. rewrite Hold2 by lia. subst d1.
        cbn [nodes with_next with_nodes]. rewrite lookup_insert_ne; [done|]. lia.
      * intros [|fuel] Hfuel; [cbn in Hfuel; lia|].
        cbn [subtree]. rewrite Hc2. cbn [n_children default from_option Datatypes.id].
        rewrite Hsub2 by (unfold heights; cbn in Hfuel; lia).
        unfold sizes. by cbn.
  - unfold bind at 1. cbn [ret].
    eexists. split; [reflexivity|]. cbn [next with_next with_nodes nodes size].
    split; [lia|]. split.
    + intros x Hx. rewrite lookup_insert_ne; [done|]. lia.
    + intros [|fuel] _; cbn [subtree seq]; [done|].
      cbn [nodes with_next with_nodes]. by rewrite lookup_insert_eq.
Qed.

Lemma plant_layout (n : BaseNode) : laid_out n.
Proof.
  revert n. fix IH 1. intros [type id props children].
  apply laid_out_node. destruct children as [cs|]; [|exact I].
  induction cs as [|k cs IHcs]; constructor; [apply IH | exact IHcs].
Qed.

(** The clone and its subtree are exactly the handles the clone added. *)
Lemma clone_layout (H : Host) (h : handle) (d : Doc) :
  (currentPage d < next d)%nat ->
  host_clones H d h = true ->
  exists d1,
    clone H h d = (Ok (next d), d1)
    ∧ (next d < next d1)%nat
    ∧ currentPage d1 = currentPage d
    ∧ (forall x, (x < next d)%nat ->
         nodes d1 !! x
         = if decide (currentPage d = x)
           then with_children (fun l => l ++ [next d]) <$> nodes d !! x
           else nodes d !! x)
    ∧ (forall x, (next d1 ≤ x)%nat -> nodes d1 !! x = nodes d !! x)
    ∧ subtree (next d1) d1 (next d) = seq (next d) (next d1 - next d).
Proof.
  intros Hlt Hclone. unfold clone. rewrite Hclone.
  set (n := node_object (next d) d h).
  destruct (plant_layout n d) as (d' & Hp & Hn & Hold & Hsub).
  pose proof (height_le_size n) as Hheight.
  pose proof (size_pos n) as Hsize.
  unfold bind at 1. rewrite Hp. unfold bind, gets, modify, ret.
  assert (currentPage d' = currentPage d) as Hcur.
  { destruct (plant_fresh n d) as (d'' & Hp' & _ & _ & Hcur).
    rewrite Hp in Hp'. by injection Hp' as <-. }
  rewrite Hcur.
  eexists. split; [reflexivity|]. cbn [next with_nodes currentPage nodes].
  split; [lia|]. split; [done|]. split; [|split].
  - intros x Hx. rewrite lookup_attach. by rewrite Hold by (left; lia).
  - intros x Hx. unfold attach. rewrite lookup_alter_ne by lia.
    apply Hold. by right.
  - rewrite (subtree_ext _ d').
    + rewrite Hsub by lia. f_equal. lia.
    + intros x Hx. rewrite Hsub in Hx by lia. apply elem_of_seq in Hx.
      cbn [nodes with_nodes]. unfold attach. rewrite lookup_alter_ne; [done | lia].
Qed.

(** What is left of a store when the clone is removed again. *)
Lemma clone_removed (H : Host) (h : handle) (d d1 : Doc) (c : handle) :
  wf d ->
  (currentPage d < next d)%nat ->
  clone H h d = (Ok c, d1) ->
  forall x,
    foldr delete (detach c (nodes d1)) (subtree (next d1) d1 c) !! x
    = if decide (x < next d)%nat then nodes d !! x else None.
Proof.
  intros Hwf Hlt Hrun x.
  destruct (host_clones H d h) eqn:Hclone;
    [|by rewrite clone_refused in Hrun by done].
  destruct (clone_layout H h d Hlt Hclone) as (d1' & Hc & Hn & Hcur & Hold & Habove & Hsub).
  rewrite Hc in Hrun. injection Hrun as <- <-.
  rewrite lookup_foldr_delete, Hsub.
  destruct (decide (x < next d)%nat) as [Hx|Hx].
  - rewrite decide_False by (rewrite elem_of_seq; lia).
    rewrite lookup_detach, Hold by done.
    destruct (nodes d !! x) as [n|] eqn:Hnode; [|by destruct (decide _)].
    assert (forall l, n_children n = Some l ->
              filter (fun y => y ≠ next d) l = l) as Hsame.
    { intros l Hl. eapply filter_below; [by eapply wf_children | done]. }
    destruct (decide (currentPage d = x)) as [Heq|Hne]; cbn.
    + f_equal. destruct n as [t i ps [l|]]; cbn in *; [|done].
      unfold with_children. cbn. f_equal. f_equal.
      rewrite filter_app, (Hsame l eq_refl), filter_cons_False, filter_nil
        by (by intros ?).
      by rewrite app_nil_r.
    + f_equal. by apply with_children_id.
  - destruct (decide (x ∈ seq (next d) (next d1' - next d))) as [Hin|Hnot]; [done|].
    rewrite elem_of_seq in Hnot.
    rewrite lookup_detach, Habove by lia.
    destruct (nodes d !! x) as [n|] eqn:Hnode; [|done].
    apply Hwf in Hnode as [Hbelow _]. lia.
Qed.

(** X4: a successful [transferToOtherFile] leaves every element of the
    source document as it was, and the clone it worked on is gone with
    everything below it: no element is left under a new handle. *)
Theorem successful_transfer_restores_source (H : Host) (node : handle)
    (msg : TransferRequest) (w w' : World) :
  wf (doc w) ->
  (currentPage (doc w) < next (doc w))%nat ->
  transferToOtherFile H node msg w = (Ok tt, w') ->
  (forall h, (h < next (doc w))%nat -> nodes (doc w') !! h = nodes (doc w) !! h)
  ∧ (forall h, (next (doc w) ≤ h)%nat -> nodes (doc w') !! h = None).
Proof.
  intros Hwf Hlt Hrun.
  unfold transferToOtherFile, try_catch in Hrun.
  unfold_world_in Hrun. cbn_world_in Hrun.
  split_run Hrun; try discriminate Hrun.
  injection Hrun as <-. cbn_world. cbn [nodes with_nodes].
  match goal with
  | Hc : clone H node (doc w) = (Ok _, _) |- _ =>
      pose proof (clone_removed H node (doc w) _ _ Hwf Hlt Hc) as Hgone
  end.
  split; intros h Hh; rewrite Hgone.
  - by rewrite decide_True.
  - rewrite decide_False; [done | lia].
Qed.

Lemma successful_transfer_restores_source_witness :
  let w' := snd (transferToOtherFile Cases.H0 1 Scenario.to_product Cases.sending) in
  (forall h, (h < 4)%nat -> nodes (doc w') !! h = nodes Scenario.library !! h)
  ∧ (forall h, (4 ≤ h)%nat -> nodes (doc w') !! h = None).
Proof.
  intros w'.
  apply (successful_transfer_restores_source Cases.H0 1 Scenario.to_product
           Cases.sending w').
  - exact wf_library.
  - cbn. lia.
  - vm_compute. reflexivity.
Defined.
(** ** Transfers within the file *)

(** X6: when the request names the current file, by its key or as
    ["current"], [handleTransfer] makes no request and leaves the remote
    side and the client storage as they were. *)
Theorem local_transfer_stays_local (H : Host) (msg : TransferRequest) (w : World) :
  is_str (fileKey w) (m_fileKey msg) || bool_decide (m_fileKey msg = "current") = true ->
  calls (snd (handleTransfer H msg w)) = calls w
  ∧ remote (snd (handleTransfer H msg w)) = remote w
  ∧ storage (snd (handleTransfer H msg w)) = storage w.
Proof.
  intros Hlocal.
  unfold handleTransfer, transferWithinCurrentFile, try_catch.
  unfold_world. cbn_world.
  destruct (selection (doc w)) as [|node [|node' l]]; cbn_world; [done| |done].
  rewrite Hlocal.
  split_goal; done.
Qed.

Lemma local_transfer_stays_local_witness :
  let w' := snd (handleTransfer Cases.H0 Cases.within Cases.sending) in
  calls w' = calls Cases.sending
  ∧ remote w' = remote Cases.sending
  ∧ storage w' = storage Cases.sending.
Proof.
  intros w'.
  apply (local_transfer_stays_local Cases.H0 Cases.within Cases.sending).
  reflexivity.
Defined.

Lemma same_view_refl d : same_view d d.
Proof. by repeat split. Qed.

Lemma same_view_trans d1 d2 d3 : same_view d1 d2 -> same_view d2 d3 -> same_view d1 d3.
Proof. intros (?&?&?&?) (?&?&?&?). repeat split; congruence. Qed.

Lemma same_view_nodes f d : same_view d (with_nodes f d).
Proof. by repeat split. Qed.

Lemma plant_view_node type id props children :
  match children with
  | Some cs => Forall (fun n => forall d, same_view d (snd (plant n d))) cs
  | None => True
  end ->
  forall d, same_view d (snd (plant (Element type id props children) d)).
Proof.
  intros Hcs d.
  cbn [plant]. unfold bind at 1, gets at 1. unfold bind at 1, modify at 1.
  set (c := next d).
  set (d1 := with_next (S c) _).
  assert (same_view d d1) as Hv1 by (by repeat split).
  clearbody d1.
  assert (same_view d
            (snd (match children with
                  | Some cs =>
                      (fix each (l : list BaseNode) : St Doc unit :=
                         match l with
                         | [] => ret tt
                         | k :: l' =>
                             bind (plant k) (fun kc =>
                               bind (modify (with_nodes (attach c kc)))
                                    (fun _ => each l'))
                         end) cs
                  | None => ret tt
                  end d1))) as Hloop.
  { destruct children as [cs|]; [|done].
    revert d1 Hv1.
    induction Hcs as [|k l Hk Hl IHl]; intros d2 Hv; [done|].
    unfold bind at 1. specialize (Hk d2).
    destruct (plant k d2) as [[kc|e] d3]; cbn [snd] in Hk.
    - unfold bind at 1, modify at 1. apply IHl.
      eapply same_view_trans; [exact Hv|].
      eapply same_view_trans; [exact Hk|]. apply same_view_nodes.
    - cbn [snd]. by eapply same_view_trans. }
  unfold bind at 1.
  match goal with
  | Hl : same_view d (snd ?x) |- _ => destruct x as [[[]|e] d4]; exact Hl
  end.
Qed.

Lemma plant_view (n : BaseNode) : forall d, same_view d (snd (plant n d)).
Proof.
  revert n. fix IH 1. intros [type id props children].
  apply plant_view_node. destruct children as [cs|]; [|exact I].
  induction cs as [|k cs IHcs]; constructor; [apply IH | exact IHcs].
Qed.

Lemma clone_view (H : Host) (h : handle) (d : Doc) : same_view d (snd (clone H h d)).
Proof.
  unfold clone. destruct (host_clones H d h); [|apply same_view_refl].
  unfold bind at 1. pose proof (plant_view (node_object (next d) d h) d) as Hp.
  destruct (plant (node_object (next d) d h) d) as [[c|e] d1]; [|exact Hp].
  unfold bind, gets, modify, ret. cbn [snd] in *.
  eapply same_view_trans; [exact Hp|]. apply same_view_nodes.
Qed.

Lemma createPage_ok (H : Host) (d d' : Doc) (c : handle) :
  createPage H d = (Ok c, d') ->
  c = next d
  ∧ d' = with_pages (pages d ++ [c])
           (with_next (S c)
              (with_nodes (fun ns =>
                 <[c := mkHNode "PAGE" (id_of c) (host_defaults H "PAGE") (Some [])]> ns) d)).
Proof.
  unfold createPage. destruct (host_creates H d "PAGE"); [|done].
  by intros [= <- <-].
Qed.

Lemma set_prop_ok (H : Host) (c : handle) (k : string) (v : jsval) (d d' : Doc) u :
  set_prop H c k v d = (Ok u, d') ->
  exists n, nodes d !! c = Some n
            ∧ d' = with_nodes (fun ns => <[c := with_props (fun p => <[k := v]> p) n]> ns) d.
Proof.
  unfold set_prop. destruct (nodes d !! c) as [n|]; [|done].
  destruct (host_accepts H d c k v); [|done].
  intros [= _ <-]. by exists n.
Qed.

Lemma appendChild_ok (H : Host) (p c : handle) (d d' : Doc) u :
  appendChild H p c d = (Ok u, d') ->
  exists acc, children_of d p = Some acc
              ∧ d' = with_nodes (fun ns => attach p c (detach c ns)) d
              ∧ children_of d' p = Some (filter (fun x => x ≠ c) acc ++ [c]).
Proof.
  unfold appendChild, children_of.
  destruct (nodes d !! p) as [n|] eqn:Hn; [|done].
  destruct (n_children n) as [acc|] eqn:Hacc; [|done].
  destruct (host_appends H d p c); [|done].
  intros [= _ <-]. exists acc. cbn. rewrite Hacc. split; [done|]. split; [done|].
  rewrite lookup_attach, decide_True by done. rewrite lookup_detach, Hn. cbn.
  by rewrite Hacc.
Qed.

Lemma find_ext {A} (f g : A -> bool) (l : list A) :
  Forall (fun x => f x = g x) l -> List.find f l = List.find g l.
Proof. induction 1 as [|x l Hx _ IH]; [done|]. cbn. by rewrite Hx, IH. Qed.

(** X7: a successful [transferWithinCurrentFile] makes the target page the
    current page, selects the clone, and the clone is the last child of
    the target.  With a new page name the target is a new page, appended
    to the pages and carrying that name; otherwise the pages are unchanged
    and the target is the page found by the requested identifier. *)
Theorem local_transfer_places_clone (H : Host) (node : handle)
    (msg : TransferRequest) (w w' : World) :
  wf (doc w) ->
  (currentPage (doc w) < next (doc w))%nat ->
  Forall (fun p => (p < next (doc w))%nat) (pages (doc w)) ->
  transferWithinCurrentFile H node msg w = (Ok tt, w') ->
  exists (target : handle) (l : list handle),
    currentPage (doc w') = target
    ∧ selection (doc w') = [next (doc w)]
    ∧ children_of (doc w') target = Some (l ++ [next (doc w)])
    ∧ (if truthy (m_newPageName msg)
       then pages (doc w') = pages (doc w) ++ [target]
            ∧ (target ∉ pages (doc w))
            ∧ prop_of (doc w') target "name" = Some (m_newPageName msg)
       else pages (doc w') = pages (doc w)
            ∧ find_page (m_pageId msg) (doc w) = Some target).
Proof.
  intros Hwf Hlt Hpages Hrun.
  unfold transferWithinCurrentFile, try_catch in Hrun.
  unfold_world_in Hrun. cbn_world_in Hrun.
  destruct (host_clones H (doc w) node) eqn:Hclone.
  2: { rewrite clone_refused in Hrun by done. discriminate Hrun. }
  destruct (clone_spec H node (doc w) Hlt Hclone) as (d1 & Hc & Hn & Hcur & Hold).
  pose proof (clone_view H node (doc w)) as (Hvp & Hvs & _ & _).
  rewrite Hc in Hrun, Hvp, Hvs. cbn [snd] in Hvp, Hvs. cbn_world_in Hrun.
  destruct (truthy (m_newPageName msg)) eqn:Hnew.
  - (* a new page *)
    split_run Hrun; try discriminate Hrun.
    injection Hrun as <-. cbn_world.
    match goal with E : createPage _ _ = _ |- _ =>
      apply createPage_ok in E as [-> ->] end.
    match goal with E : set_prop _ _ _ _ _ = _ |- _ =>
      apply set_prop_ok in E as (n & Hnode & ->) end.
    match goal with E : appendChild _ _ _ _ = _ |- _ =>
      apply appendChild_ok in E as (acc & Hacc & -> & Hkids) end.
    exists (next d1), (filter (fun x => x ≠ next (doc w)) acc).
    split; [done|]. split; [done|].
    split; [exact Hkids|].
    split; [by rewrite <- Hvp|].
    split.
    { intros Hin. rewrite Forall_forall in Hpages. specialize (Hpages _ Hin). lia. }
    unfold prop_of. cbn [nodes with_nodes with_selection with_currentPage with_pages with_next].
    rewrite lookup_attach, decide_True by done.
    rewrite lookup_detach, lookup_insert_eq. cbn. by rewrite lookup_insert_eq.
  - (* an existing page *)
    split_run Hrun; try discriminate Hrun.
    injection Hrun as <-. cbn_world.
    match goal with E : appendChild _ _ _ _ = _ |- _ =>
      apply appendChild_ok in E as (acc & Hacc & -> & Hkids) end.
    match goal with E : find_page _ _ = Some ?p |- _ =>
      exists p, (filter (fun x => x ≠ next (doc w)) acc); rename E into Hfind end.
    split; [done|]. split; [done|].
    split; [exact Hkids|].
    split; [done|].
    rewrite <- Hfind. unfold find_page. rewrite Hvp.
    apply find_ext. eapply Forall_impl; [exact Hpages|].
    intros p Hp. cbn beta. rewrite (Hold p Hp).
    destruct (nodes (doc w) !! p) as [pn|]; destruct (decide _); done.
Qed.

Lemma local_transfer_places_clone_witness :
  let w' := snd (transferWithinCurrentFile Cases.H0 1 Cases.to_new_page Cases.sending) in
  exists (target : handle) (l : list handle),
    currentPage (doc w') = target
    ∧ selection (doc w') = [4%nat]
    ∧ children_of (doc w') target = Some (l ++ [4%nat])
    ∧ pages (doc w') = [0%nat] ++ [target]
    ∧ (target ∉ [0%nat])
    ∧ prop_of (doc w') target "name" = Some (JStr "Archive").
Proof.
  intros w'.
  apply (local_transfer_places_clone Cases.H0 1 Cases.to_new_page Cases.sending w').
  - exact wf_library.
  - cbn. lia.
  - repeat constructor.
  - vm_compute. reflexivity.
Defined.






(** X9: [handleTransfer] never throws and only appends to the messages of
    the panel.  Unless exactly one element is selected it posts one error;
    with one element selected the messages end with a successful
    [transfer-complete], or with a failed one followed by the error
    ["Failed to transfer: ..."] with the same text. *)
Theorem handleTransfer_reports (H : Host) (msg : TransferRequest) (w : World) :
  exists w',
    handleTransfer H msg w = (Ok tt, w')
    ∧ ui w `prefix_of` ui w'
    ∧ match selection (doc w) with
      | [_] =>
          (exists u m, ui w' = u ++ [UiComplete true m])
          ∨ (exists u e, ui w' = u ++ [UiComplete false e;
                                       UiError ("Failed to transfer: " +:+ e)])
      | _ => ui w' = ui w ++ [UiError bad_selection]
      end.
Proof.
  destruct (handleTransfer H msg w) as [r w'] eqn:Hrun.
  unfold handleTransfer, transferWithinCurrentFile, transferToOtherFile, try_catch in Hrun.
  unfold_world_in Hrun. cbn_world_in Hrun.
  destruct (selection (doc w)) as [|node [|node' l]]; cbn_world_in Hrun.
  1,3: injection Hrun as <- <-;
       match goal with |- exists w', (_, ?W) = _ ∧ _ => exists W end;
       split; [done|]; cbn_world; split; [by apply prefix_app_r | done].
  split_run Hrun.
  all: injection Hrun as <- <-;
       match goal with |- exists w', (_, ?W) = _ ∧ _ => exists W end;
       (split; [reflexivity|]); cbn_world.
  all: split; [by repeat apply prefix_app_r|].
  all: first [ left; eexists _, _; reflexivity
             | right; rewrite <- app_assoc; eexists _, _; reflexivity ].
Qed.

(** ** What a reconstruction keeps *)

Section Along.

Context {S : Type} (R : S -> S -> Prop) `{!PreOrder R}.

Lemma along_ret {A} (a : A) : along R (ret a).
Proof. intros s. reflexivity. Qed.

Lemma along_throw {A} e : along R (@throw S A e).
Proof. intros s. reflexivity. Qed.

Lemma along_gets {A} (f : S -> A) : along R (gets f).
Proof. intros s. reflexivity. Qed.

Lemma along_bind {A B} (m : St S A) (k : A -> St S B) :
  along R m -> (forall a, along R (k a)) -> along R (bind m k).
Proof.
  intros Hm Hk s. unfold bind. specialize (Hm s).
  destruct (m s) as [[a|e] s1]; cbn [snd] in *; [|done].
  etransitivity; [exact Hm | apply Hk].
Qed.

Lemma along_try_catch {A} (m : St S A) handler :
  along R m -> (forall e, along R (handler e)) -> along R (try_catch m handler).
Proof.
  intros Hm Hh s. unfold try_catch. specialize (Hm s).
  destruct (m s) as [[a|e] s1]; cbn [snd] in *; [done|].
  etransitivity; [exact Hm | apply Hh].
Qed.

Lemma along_when b (m : St S unit) : along R m -> along R (when b m).
Proof. intros Hm. destruct b; [done | apply along_ret]. Qed.

End Along.

Global Instance kinds_kept_preorder : PreOrder kinds_kept.
Proof.
  split.
  - by intros d.
  - intros d1 d2 d3 [Hn1 H1] [Hn2 H2]. split; [lia|].
    intros h Hh. destruct (H1 h Hh) as [<- <-]. apply H2. lia.
Qed.

Global Instance kept_preorder : PreOrder kept.
Proof.
  split.
  - intros w. split; reflexivity.
  - intros w1 w2 w3 [? ?] [? ?]. split; etransitivity; eauto.
Qed.

Lemma along_log s : along kept (log s).
Proof. intros w. split; [reflexivity | by apply prefix_app_r]. Qed.

Lemma along_lift {A} (m : St Doc A) : along kinds_kept m -> along kept (lift m).
Proof.
  intros Hm w. unfold lift. specialize (Hm (doc w)).
  destruct (m (doc w)) as [r d]. by split.
Qed.

Lemma kinds_kept_nodes (f : gmap nat HNode -> gmap nat HNode) d :
  (forall h, (h < next d)%nat ->
     n_type <$> f (nodes d) !! h = n_type <$> nodes d !! h
     ∧ n_id <$> f (nodes d) !! h = n_id <$> nodes d !! h) ->
  kinds_kept d (with_nodes f d).
Proof.
  intros Hf. split; [done|]. intros h Hh. destruct (Hf h Hh) as [Ht Hi].
  unfold type_of, id_in. cbn [nodes with_nodes]. split; [done|].
  destruct (f (nodes d) !! h), (nodes d !! h); cbn in *; congruence.
Qed.

Lemma along_set_prop H c k v : along kinds_kept (set_prop H c k v).
Proof.
  intros d. unfold set_prop.
  destruct (nodes d !! c) as [n|] eqn:Hn; [|reflexivity].
  destruct (host_accepts H d c k v); [|reflexivity].
  apply kinds_kept_nodes. intros h _.
  destruct (decide (h = c)) as [->|Hne].
  - by rewrite lookup_insert_eq, Hn.
  - by rewrite lookup_insert_ne.
Qed.

Lemma along_resize H c a b : along kinds_kept (resize H c a b).
Proof.
  intros d. unfold resize.
  destruct (nodes d !! c) as [n|] eqn:Hn; [|reflexivity].
  destruct (host_resizes H d c a b); [|reflexivity].
  apply kinds_kept_nodes. intros h _.
  destruct (decide (h = c)) as [->|Hne].
  - by rewrite lookup_insert_eq, Hn.
  - by rewrite lookup_insert_ne.
Qed.

Lemma attach_kinds p c (ns : gmap nat HNode) h :
  n_type <$> attach p c ns !! h = n_type <$> ns !! h
  ∧ n_id <$> attach p c ns !! h = n_id <$> ns !! h.
Proof.
  rewrite lookup_attach. destruct (decide (p = h)); [|done].
  by destruct (ns !! h).
Qed.

Lemma detach_kinds c (ns : gmap nat HNode) h :
  n_type <$> detach c ns !! h = n_type <$> ns !! h
  ∧ n_id <$> detach c ns !! h = n_id <$> ns !! h.
Proof. rewrite lookup_detach. by destruct (ns !! h). Qed.

Lemma along_appendChild H p c : along kinds_kept (appendChild H p c).
Proof.
  intros d. unfold appendChild.
  destruct (nodes d !! p) as [n|]; [|reflexivity].
  destruct (n_children n); [|reflexivity].
  destruct (host_appends H d p c); [|reflexivity].
  apply kinds_kept_nodes. intros h _.
  destruct (attach_kinds p c (detach c (nodes d)) h) as [-> ->].
  apply detach_kinds.
Qed.

Lemma along_loadFontAsync H font : along kinds_kept (loadFontAsync H font).
Proof.
  intros d. unfold loadFontAsync. destruct (host_loads H d font); [|reflexivity].
  by split.
Qed.

Lemma along_create H kind parent : along kinds_kept (create H kind parent).
Proof.
  intros d. unfold create. destruct (host_creates H d kind); [|reflexivity].
  split; [cbn; lia|]. intros h Hh.
  unfold type_of, id_in. cbn [snd nodes with_nodes with_next].
  pose proof (attach_kinds parent (next d)
                (<[next d := mkHNode kind (id_of (next d)) (host_defaults H kind)
                                (if host_container H kind then Some [] else None)]>
                   (nodes d)) h) as [Ht Hi].
  rewrite lookup_insert_ne in Ht, Hi by lia.
  split; [done|].
  destruct (attach _ _ _ !! h), (nodes d !! h); cbn in *; congruence.
Qed.

Lemma along_createOnCurrentPage H kind : along kinds_kept (createOnCurrentPage H kind).
Proof.
  unfold createOnCurrentPage. apply along_bind; [apply _ | apply along_gets; apply _|].
  intros p. apply along_create.
Qed.

Ltac along_step :=
  lazymatch goal with
  | |- along _ (bind _ _) => apply along_bind; [apply _ | | intros ?]
  | |- along _ (try_catch _ _) => apply along_try_catch; [apply _ | | intros ?]
  | |- along _ (when _ _) => apply along_when; [apply _ |]
  | |- along _ (ret _) => apply along_ret; apply _
  | |- along _ (throw _) => apply along_throw; apply _
  | |- along _ (gets _) => apply along_gets; apply _
  | |- along _ (in_node _ _) => apply along_gets; apply _
  | |- along _ (kind_of _) => apply along_gets; apply _
  | |- along _ (exposes_appendChild _) => apply along_gets; apply _
  | |- along _ (log _) => apply along_log
  | |- along _ (lift _) => apply along_lift
  | |- along _ (set_prop _ _ _ _) => apply along_set_prop
  | |- along _ (resize _ _ _ _) => apply along_resize
  | |- along _ (appendChild _ _ _) => apply along_appendChild
  | |- along _ (loadFontAsync _ _) => apply along_loadFontAsync
  | |- along _ (create _ _ _) => apply along_create
  | |- along _ (createOnCurrentPage _ _) => apply along_createOnCurrentPage
  | |- along _ (if ?b then _ else _) => destruct b
  | |- along _ (match ?x with Some _ => _ | None => _ end) => destruct x
  end.

Lemma along_applyProperties H c fields : along kinds_kept (applyProperties H c fields).
Proof.
  unfold applyProperties, assign_if_defined, assign_if_truthy, assign_if_given.
  repeat along_step.
Qed.

Lemma along_createByType H type font page : along kept (createByType H type font page).
Proof. unfold createByType. repeat along_step. Qed.

Lemma along_adopt H c r : along kept (adopt H c r).
Proof. unfold adopt. repeat along_step. Qed.

Lemma along_createChildren H page c cs :
  Forall (fun n => along kept (createNodeFromSerialized H n page)) cs ->
  along kept (createChildren H page c cs).
Proof.
  induction 1 as [|n cs Hn _ IH]; cbn [createChildren].
  - along_step.
  - along_step; [exact Hn|]. along_step; [apply along_adopt | exact IH].
Qed.

Lemma along_node H page fields children :
  match children with
  | Some cs => Forall (fun n => along kept (createNodeFromSerialized H n page)) cs
  | None => True
  end ->
  along kept (createNodeFromSerialized H (NObj fields children) page).
Proof.
  intros Hcs w. rewrite createNodeFromSerialized_parts. revert w.
  change (along kept
    (try_catch
       (bind (prepare H fields page)
          (fun createdNode =>
             match createdNode with
             | None => bind (log "Failed to create node of type:") (fun _ => ret None)
             | Some created =>
                 bind (match children with
                       | Some cs =>
                           bind (lift (exposes_appendChild created)) (fun can =>
                             when can
                               (bind (log "Creating children:")
                                  (fun _ => createChildren H page created cs)))
                       | None => ret tt
                       end) (fun _ =>
                 bind (log "Adding node to target page") (fun _ =>
                 bind (lift (appendChild H page created)) (fun _ =>
                 ret (Some created))))
             end))
       (fun error => bind (log "Error creating node from serialized:")
                       (fun _ => ret None)))).
  unfold prepare.
  destruct children as [cs|];
    repeat first [ along_step | apply along_applyProperties
                 | apply along_createByType | by apply along_createChildren ].
Qed.

Lemma along_createNodeFromSerialized H nodeData page :
  along kept (createNodeFromSerialized H nodeData page).
Proof.
  revert nodeData. fix IH 1. intros [|fields children].
  - cbn [createNodeFromSerialized]. repeat along_step.
  - apply along_node. destruct children as [cs|]; [|exact I].
    induction cs as [|k cs IHcs]; constructor; [apply IH | exact IHcs].
Qed.

Lemma create_kind H kind parent d c d' :
  create H kind parent d = (Ok c, d') ->
  c = next d ∧ type_of d' c = Some kind ∧ next d' = S c.
Proof.
  unfold create. destruct (host_creates H d kind); [|done].
  intros [= <- <-]. split; [done|]. split; [|done].
  unfold type_of. cbn [nodes with_nodes with_next].
  pose proof (attach_kinds parent (next d)
                (<[next d := mkHNode kind (id_of (next d)) (host_defaults H kind)
                                (if host_container H kind then Some [] else None)]>
                   (nodes d)) (next d)) as [Ht _].
  rewrite Ht. by rewrite lookup_insert_eq.
Qed.

Lemma createByType_kind H type font page w c w' :
  createByType H type font page w = (Ok (Some c), w') ->
  c = next (doc w)
  ∧ type_of (doc w') c = Some (created_kind type)
  ∧ next (doc w') = S c.
Proof.
  unfold createByType, created_kind, createOnCurrentPage.
  intros Hrun.
  repeat match type of Hrun with
         | context [if is_str type ?k then _ else _] => destruct (is_str type k)
         end.
  all: unfold lift, log, loadFontAsync, when, try_catch in Hrun;
       unfold bind, gets, modify, ret in Hrun; cbn_world_in Hrun.
  all: match type of Hrun with
       | context [create ?h ?k ?p ?d] =>
           destruct (create h k p d) as [[c0|e] d1] eqn:Hc; [|discriminate Hrun];
           apply create_kind in Hc as (-> & Ht & Hn)
       end.
  all: split_run Hrun; injection Hrun as <- <-; cbn_world; done.
Qed.

Lemma is_str_false (v : jsval) (k : string) : v ≠ JStr k -> is_str v k = false.
Proof.
  intros Hne. destruct v; try done. cbn. apply bool_decide_eq_false_2. congruence.
Qed.

Lemma createByType_unknown H type font page w :
  (forall k, k ∈ ["FRAME"; "RECTANGLE"; "ELLIPSE"; "TEXT"; "GROUP"; "COMPONENT"] ->
     type ≠ JStr k) ->
  created_kind type = "FRAME"
  ∧ createByType H type font page w
    = bind (lift (createOnCurrentPage H "FRAME")) (fun c => ret (Some c))
        (with_console (fun l => l ++ ["Unknown node type, creating frame:"]) w).
Proof.
  intros Hnot. unfold createByType, created_kind.
  rewrite !is_str_false by (apply Hnot; rewrite !elem_of_cons; tauto).
  done.
Qed.

Lemma bind_answer {S A B} (m : St S A) (k : A -> St S B) (P : B -> Prop) s r s' :
  (forall a s1, match k a s1 with (Ok r, _) => P r | _ => True end) ->
  bind m k s = (Ok r, s') -> P r.
Proof.
  unfold bind. destruct (m s) as [[a|e] s1]; [|done].
  intros Hk E. specialize (Hk a s1). by rewrite E in Hk.
Qed.

(** The part of [createNodeFromSerialized] that follows the creation of
    the element keeps the kinds of the elements. *)
Lemma along_finish H page created children :
  along kept
    (bind (match children with
           | Some cs =>
               bind (lift (exposes_appendChild created)) (fun can =>
                 when can
                   (bind (log "Creating children:")
                      (fun _ => createChildren H page created cs)))
           | None => ret tt
           end) (fun _ =>
     bind (log "Adding node to target page") (fun _ =>
     bind (lift (appendChild H page created)) (fun _ =>
     ret (Some created))))).
Proof.
  destruct children as [cs|];
    repeat first [ along_step | apply along_createChildren ].
  apply Forall_forall. intros n _. apply along_createNodeFromSerialized.
Qed.

(** X10: the element [createNodeFromSerialized] answers is the first fresh
    handle, and its type is the one the switch creates for the wire type.
    A wire type the switch does not list gives a frame, and the console
    says so. *)
Theorem rebuilt_kind_follows_the_switch (H : Host) (fields : gmap string jsval)
    (children : option (list NodeData)) (page : handle) (w w' : World) (c : handle) :
  createNodeFromSerialized H (NObj fields children) page w = (Ok (Some c), w') ->
  c = next (doc w)
  ∧ type_of (doc w') c = Some (created_kind (prop fields "type"))
  ∧ ((forall k, k ∈ ["FRAME"; "RECTANGLE"; "ELLIPSE"; "TEXT"; "GROUP"; "COMPONENT"] ->
        prop fields "type" ≠ JStr k) ->
     type_of (doc w') c = Some "FRAME"
     ∧ "Unknown node type, creating frame:" ∈ console w').
Proof.
  rewrite createNodeFromSerialized_parts. unfold try_catch, prepare.
  rewrite !bind_assoc. unfold bind at 1. cbn [log modify].
  set (w0 := with_console _ w).
  rewrite bind_assoc. unfold bind at 1.
  destruct (createByType H (prop fields "type") (prop fields "fontName") page w0)
    as [[[c0|]|e] w1] eqn:Hcreate.
  2: { unfold bind, log, modify, ret. cbn. discriminate. }
  2: { unfold bind, log, modify, ret. cbn. discriminate. }
  pose proof (along_createByType H (prop fields "type") (prop fields "fontName") page w0)
    as [_ Hcons1].
  rewrite Hcreate in Hcons1. cbn [snd] in Hcons1.
  pose proof Hcreate as Hkind.
  apply createByType_kind in Hkind as (-> & Hkind & Hnext).
  rewrite !bind_assoc. unfold bind at 1. cbn [log modify].
  set (w2 := with_console _ w1).
  rewrite !bind_assoc. unfold bind at 1.
  pose proof (along_lift _ (along_applyProperties H (next (doc w0)) fields) w2) as Happ.
  destruct (lift (applyProperties H (next (doc w0)) fields) w2) as [[[]|e] w3].
  2: { unfold bind, log, modify, ret. cbn. discriminate. }
  cbn [snd] in Happ.
  unfold bind at 1, ret at 1.
  pose proof (along_finish H page (next (doc w0)) children w3) as Hfin.
  match goal with
  | |- match ?body with _ => _ end = _ -> _ => destruct body as [[r|e] w4] eqn:Hrun
  end.
  2: { unfold bind, log, modify, ret. cbn. discriminate. }
  cbn [snd] in Hfin.
  intros [= -> ->].
  assert (Some c = Some (next (doc w0))) as [= ->].
  { revert Hrun. apply (bind_answer _ _ (fun r => r = Some (next (doc w0)))).
    intros a s1. unfold bind at 1. cbn [log modify]. unfold bind at 1.
    by destruct (lift _ _) as [[[]|e] w6]. }
  assert (type_of (doc w') (next (doc w0)) = Some (created_kind (prop fields "type")))
    as Htype.
  { destruct Happ as [[Hn3 Hk3] _]. destruct Hfin as [[Hn4 Hk4] _].
    subst w2. cbn [doc with_console] in *.
    destruct (Hk4 (next (doc w0))) as [-> _]; [lia|].
    destruct (Hk3 (next (doc w0))) as [-> _]; [lia|]. done. }
  split; [done|]. split; [done|].
  intros Hunknown.
  destruct (createByType_unknown H (prop fields "type") (prop fields "fontName")
              page w0 Hunknown) as [Hframe Hform].
  split; [by rewrite <- Hframe|].
  assert ("Unknown node type, creating frame:" ∈ console w1) as Hin.
  { rewrite Hform in Hcreate. revert Hcreate.
    unfold bind at 1, lift.
    destruct (createOnCurrentPage H "FRAME" _) as [[c1|e] d1]; [|done].
    unfold ret. intros [= _ <-]. cbn. apply elem_of_app. right. constructor. }
  destruct Happ as [_ Hp3]. destruct Hfin as [_ Hp4].
  subst w2. cbn [console with_console] in *.
  assert (console w1 `prefix_of` console w') as [k ->].
  { etransitivity; [|exact Hp4]. etransitivity; [|exact Hp3]. by apply prefix_app_r. }
  apply elem_of_app. by left.
Qed.

Lemma rebuilt_kind_follows_the_switch_witness :
  let w' := snd (createNodeFromSerialized Cases.H0 (NObj Cases.vector_fields None) 0
                   (Scenario.receiver [])) in
  type_of (doc w') 1%nat = Some "FRAME"
  ∧ "Unknown node type, creating frame:" ∈ console w'.
Proof.
  intros w'.
  destruct (rebuilt_kind_follows_the_switch Cases.H0 Cases.vector_fields None 0
              (Scenario.receiver []) w' 1)
    as (_ & _ & Hunknown).
  - vm_compute. reflexivity.
  - apply Hunknown. intros k Hk.
    repeat (apply elem_of_cons in Hk as [->|Hk]; [discriminate|]).
    by apply elem_of_nil in Hk.
Defined.

Lemma createNodeFromSerialized_after H fields children page w c w1 :
  createByType H (prop fields "type") (prop fields "fontName") page
    (with_console (fun l => l ++ ["Creating node from serialized data:"]) w)
  = (Ok (Some c), w1) ->
  createNodeFromSerialized H (NObj fields children) page w
  = after_creation H fields children page c w1.
Proof.
  intros Hcreate.
  rewrite createNodeFromSerialized_parts.
  unfold after_creation, creation_body, try_catch, prepare.
  rewrite !bind_assoc. unfold bind at 1. cbn [log modify].
  rewrite bind_assoc. unfold bind at 1. rewrite Hcreate.
  rewrite !bind_assoc.
  erewrite bind_ext; [reflexivity|]. intros [] s1.
  rewrite !bind_assoc.
  erewrite bind_ext; [reflexivity|]. intros [] s2.
  by unfold bind at 1, ret at 1.
Qed.

Lemma along_after_creation H fields children page c :
  along kept (after_creation H fields children page c).
Proof.
  unfold after_creation, creation_body.
  destruct children as [cs|];
    repeat first [ along_step | apply along_applyProperties | apply along_createChildren ].
  apply Forall_forall. intros n _. apply along_createNodeFromSerialized.
Qed.

Lemma createByType_creates H type font page w :
  host_creates H (doc w) (created_kind type) = true ->
  exists w1, createByType H type font page w = (Ok (Some (next (doc w))), w1).
Proof.
  unfold createByType, created_kind, createOnCurrentPage. intros Hc.
  repeat match goal with
         | |- context [if is_str type ?k then _ else _] => destruct (is_str type k)
         end.
  all: unfold lift, log, loadFontAsync, when, try_catch, create;
       unfold bind, gets, modify, ret; cbn_world; rewrite Hc; cbn_world.
  all: split_goal; by eexists.
Qed.

Lemma creation_body_answer H fields children page c w r w' :
  creation_body H fields children page c w = (Ok r, w') -> r = Some c.
Proof.
  unfold creation_body.
  apply (bind_answer _ _ (fun r => r = Some c)). intros a1 s1.
  match goal with |- match ?body with _ => _ end =>
    destruct body as [[r1|e1] s1'] eqn:E1; [|done] end.
  revert E1. apply (bind_answer _ _ (fun r => r = Some c)). intros a2 s2.
  match goal with |- match ?body with _ => _ end =>
    destruct body as [[r2|e2] s2'] eqn:E2; [|done] end.
  revert E2. apply (bind_answer _ _ (fun r => r = Some c)). intros a3 s3.
  unfold bind at 1. cbn [log modify]. unfold bind at 1.
  by destruct (lift _ _) as [[[]|e] w6].
Qed.

(** X12: when the host creates the element and [createNodeFromSerialized]
    still answers [null], the element it created is in the document, under
    the first fresh handle and of the kind the switch chose, and the
    console holds the error line. *)
Theorem failed_reconstruction_leaves_its_element (H : Host)
    (fields : gmap string jsval) (children : option (list NodeData))
    (page : handle) (w w' : World) :
  host_creates H (doc w) (created_kind (prop fields "type")) = true ->
  createNodeFromSerialized H (NObj fields children) page w = (Ok None, w') ->
  type_of (doc w') (next (doc w)) = Some (created_kind (prop fields "type"))
  ∧ "Error creating node from serialized:" ∈ console w'.
Proof.
  intros Hcreates Hrun.
  destruct (createByType_creates H (prop fields "type") (prop fields "fontName") page
              (with_console (fun l => l ++ ["Creating node from serialized data:"]) w)
              Hcreates) as (w1 & Hcreate).
  cbn [doc with_console] in Hcreate.
  pose proof (createByType_kind _ _ _ _ _ _ _ Hcreate) as (_ & Hkind & Hnext).
  rewrite (createNodeFromSerialized_after _ _ _ _ _ _ _ Hcreate) in Hrun.
  pose proof (along_after_creation H fields children page (next (doc w)) w1) as Hkept.
  rewrite Hrun in Hkept. cbn [snd] in Hkept. destruct Hkept as [[_ Hk] _].
  split.
  - destruct (Hk (next (doc w))) as [-> _]; [lia | done].
  - revert Hrun. unfold after_creation, try_catch.
    destruct (creation_body H fields children page (next (doc w)) w1)
      as [[r|e] w2] eqn:Hbody.
    + apply creation_body_answer in Hbody as ->. discriminate.
    + unfold bind, log, modify, ret. intros [= <-]. cbn.
      apply elem_of_app. right. constructor.
Qed.

Lemma failed_reconstruction_leaves_its_element_witness :
  let w' := snd (createNodeFromSerialized Cases.fixed_names
                   (NObj Scenario.row_fields None) 0 (Scenario.receiver [])) in
  type_of (doc w') 1%nat = Some "FRAME"
  ∧ "Error creating node from serialized:" ∈ console w'.
Proof.
  intros w'.
  apply (failed_reconstruction_leaves_its_element Cases.fixed_names
           Scenario.row_fields None 0 (Scenario.receiver []) w').
  - reflexivity.
  - vm_compute. reflexivity.
Defined.

(** X13: from a well-formed document [createNodeFromSerialized] never
    throws; it changes nothing of the world but document and console;
    pages, current page and selection stay; every element that was there
    keeps its type and identifier, and is unchanged altogether unless it
    is the target page or the current page; the element answered is
    new. *)
Theorem reconstruction_only_adds (H : Host) (nodeData : NodeData)
    (page : handle) (w : World) :
  wf (doc w) ->
  exists (r : option handle) (w' : World),
    createNodeFromSerialized H nodeData page w = (Ok r, w')
    ∧ surroundings w' = surroundings w
    ∧ wf (doc w')
    ∧ pages (doc w') = pages (doc w)
    ∧ currentPage (doc w') = currentPage (doc w)
    ∧ selection (doc w') = selection (doc w)
    ∧ (forall h, (h < next (doc w))%nat ->
         type_of (doc w') h = type_of (doc w) h ∧ id_in (doc w') h = id_in (doc w) h)
    ∧ (forall h, (h < next (doc w))%nat -> h ≠ page -> h ≠ currentPage (doc w) ->
         nodes (doc w') !! h = nodes (doc w) !! h)
    ∧ match r with
      | Some c => (next (doc w) ≤ c < next (doc w'))%nat
      | None => True
      end.
Proof.
  intros Hwf.
  destruct (grows_all H page nodeData w Hwf) as (r & w' & E & [[Hext Hfresh] Hs]).
  pose proof (along_createNodeFromSerialized H nodeData page w) as [[_ Hk] _].
  rewrite E in Hk. cbn [snd] in Hk.
  exists r, w'. destruct Hext.
  do 6 (split; [done|]).
  split; [exact Hk|]. split; [done|].
  destruct r as [c|]; [|done].
  rewrite Forall_forall in Hfresh. apply Hfresh. constructor.
Qed.

Lemma reconstruction_only_adds_witness :
  let w := Scenario.receiver [] in
  exists (r : option handle) (w' : World),
    createNodeFromSerialized Cases.H0 Scenario.card 0 w = (Ok r, w')
    ∧ surroundings w' = surroundings w
    ∧ wf (doc w')
    ∧ pages (doc w') = pages (doc w)
    ∧ currentPage (doc w') = currentPage (doc w)
    ∧ selection (doc w') = selection (doc w)
    ∧ (forall h, (h < next (doc w))%nat ->
         type_of (doc w') h = type_of (doc w) h ∧ id_in (doc w') h = id_in (doc w) h)
    ∧ (forall h, (h < next (doc w))%nat -> h ≠ 0%nat -> h ≠ currentPage (doc w) ->
         nodes (doc w') !! h = nodes (doc w) !! h)
    ∧ match r with
      | Some c => (next (doc w) ≤ c < next (doc w'))%nat
      | None => True
      end.
Proof.
  intros w.
  apply (reconstruction_only_adds Cases.H0 Scenario.card 0 w).
  exact wf_product.
Defined.

(** X11: on a host that accepts writes and resizes, for an element with a
    width and a wire form with a width and a missing, zero or otherwise
    falsy height, [applyProperties] succeeds and leaves the wire width
    and the height 100. *)
Theorem missing_height_becomes_100 (H : Host) (c : handle)
    (fields : gmap string jsval) (n : HNode) (d : Doc) :
  (forall d k v, host_accepts H d c k v = true) ->
  (forall d a b, host_resizes H d c a b = true) ->
  has (n_props n) "width" = true ->
  defined (prop fields "width") = true ->
  truthy (prop fields "height") = false ->
  exists d',
    applyProperties H c fields (put c n d) = (Ok tt, d')
    ∧ prop_of d' c "width" = Some (prop fields "width")
    ∧ prop_of d' c "height" = Some (JNum 100).
Proof.
  intros Hacc Hres Hhas Hdef Hfalsy.
  rewrite (effect_applyProperties H c Hacc Hres fields n d).
  eexists. split; [reflexivity|].
  unfold prop_of. rewrite nodes_put. cbn [mbind option_bind].
  rewrite (applied_split fields 3 _ n eq_refl).
  set (n' := foldl (fun n f => f n) n (take 3 (property_steps fields))).
  assert (has (n_props n') "width" = true) as Hhas'.
  { transitivity (has (n_props n) "width"); [|exact Hhas]. apply has_congr.
    apply (keeps_foldl "width" (take 3 (property_steps fields))).
    cbn [take property_steps]. keeps_tac. }
  split.
  - rewrite (keeps_foldl "width" (drop 4 (property_steps fields)))
      by (cbn [drop property_steps]; keeps_tac).
    unfold cond. rewrite Hhas', Hdef. cbn.
    by rewrite lookup_insert_ne, lookup_insert_eq.
  - rewrite (keeps_foldl "height" (drop 4 (property_steps fields)))
      by (cbn [drop property_steps]; keeps_tac).
    unfold cond. rewrite Hhas', Hdef. cbn.
    rewrite lookup_insert_eq. unfold js_or. by rewrite Hfalsy.
Qed.

Lemma missing_height_becomes_100_witness :
  exists d',
    applyProperties Cases.H0 1 Cases.wide_fields
      (put 1 (Scenario.element "FRAME" "1" [] (Some [])) Scenario.product)
    = (Ok tt, d')
    ∧ prop_of d' 1%nat "width" = Some (JNum 320)
    ∧ prop_of d' 1%nat "height" = Some (JNum 100).
Proof.
  apply (missing_height_becomes_100 Cases.H0 1 Cases.wide_fields
           (Scenario.element "FRAME" "1" [] (Some [])) Scenario.product).
  - intros d k v. reflexivity.
  - intros d a b. reflexivity.
  - vm_compute. reflexivity.
  - vm_compute. reflexivity.
  - vm_compute. reflexivity.
Defined.

(** ** Polling *)

Lemma surroundings_eq w w' :
  surroundings w' = surroundings w ->
  fileKey w' = fileKey w ∧ rootName w' = rootName w ∧ storage w' = storage w
  ∧ remote w' = remote w ∧ clock w' = clock w ∧ calls w' = calls w
  ∧ ui w' = ui w ∧ notes w' = notes w.
Proof. unfold surroundings. intros [= -> -> -> -> -> -> -> ->]. done. Qed.

(** What [applyPendingTransfer] does, by whether the target page is
    found. *)
Lemma applyPendingTransfer_cases (H : Host) (nodeData : NodeData)
    (targetPageId : jsval) (w : World) :
  wf (doc w) ->
  match target_of targetPageId (doc w) with
  | None =>
      applyPendingTransfer H nodeData targetPageId w
      = (Thrown ("Target page not found: " +:+ to_string targetPageId),
         with_console (fun l => (l ++ ["Applying pending transfer for page:"])
                                ++ ["Error applying transfer:"]) w)
  | Some page =>
      exists w1,
        applyPendingTransfer H nodeData targetPageId w = (Ok tt, w1)
        ∧ ui w1 = ui w ∧ calls w1 = calls w ∧ remote w1 = remote w
        ∧ storage w1 = storage w ∧ fileKey w1 = fileKey w
        ∧ wf (doc w1)
        ∧ ((exists c, (next (doc w) ≤ c)%nat
                      ∧ selection (doc w1) = [c]
                      ∧ currentPage (doc w1) = page
                      ∧ notes w1 = notes w
                          ++ ["✓ Transfer applied! Element placed on page "
                              +:+ in_quotes (to_string (name_of (doc w1) page))])
           ∨ (selection (doc w1) = selection (doc w)
              ∧ currentPage (doc w1) = currentPage (doc w)
              ∧ notes w1 = notes w
              ∧ "Failed to create node from serialized data" ∈ console w1))
  end.
Proof.
  intros Hwf. unfold target_of, applyPendingTransfer, try_catch.
  unfold_world. cbn_world.
  destruct (find_page targetPageId (doc w)) as [page|] eqn:Hfind; [|done].
  destruct (is_page (doc w) page) eqn:Hpage; [|done].
  match goal with
  | |- context [createNodeFromSerialized H nodeData page ?s] => set (w2 := s)
  end.
  destruct (grows_all H page nodeData w2 Hwf) as (r & w3 & E & [[Hext Hfresh] Hs]).
  apply surroundings_eq in Hs as (Hk & _ & Hst & Hr & _ & Hc & Hu & Hn).
  rewrite E. destruct Hext.
  destruct r as [c|]; cbn_world.
  - eexists. split; [reflexivity|]. cbn_world.
    do 5 (split; [done|]). split; [done|]. left. exists c.
    split; [rewrite Forall_forall in Hfresh; apply Hfresh; constructor|].
    split; [done|]. split; [done|]. by rewrite Hn.
  - eexists. split; [reflexivity|]. cbn_world.
    do 5 (split; [done|]). split; [done|]. right.
    do 3 (split; [done|]). apply elem_of_app. right. constructor.
Qed.

Lemma applyPendingTransfer_frame (H : Host) (nodeData : NodeData)
    (targetPageId : jsval) (w : World) :
  wf (doc w) ->
  ui (snd (applyPendingTransfer H nodeData targetPageId w)) = ui w
  ∧ calls (snd (applyPendingTransfer H nodeData targetPageId w)) = calls w
  ∧ remote (snd (applyPendingTransfer H nodeData targetPageId w)) = remote w
  ∧ storage (snd (applyPendingTransfer H nodeData targetPageId w)) = storage w
  ∧ fileKey (snd (applyPendingTransfer H nodeData targetPageId w)) = fileKey w
  ∧ wf (doc (snd (applyPendingTransfer H nodeData targetPageId w)))
  ∧ (forall e w1, applyPendingTransfer H nodeData targetPageId w = (Thrown e, w1) ->
       doc w1 = doc w).
Proof.
  intros Hwf. pose proof (applyPendingTransfer_cases H nodeData targetPageId w Hwf) as Hc.
  destruct (target_of targetPageId (doc w)).
  - destruct Hc as (w1 & -> & ? & ? & ? & ? & ? & ? & _). cbn [snd].
    do 6 (split; [done|]). by intros e w2 [=].
  - rewrite Hc. cbn [snd]. do 5 (split; [done|]). split; [done|].
    by intros e w1 [= _ <-].
Qed.





Lemma cycle_undeliverable (H : Host) (w : World) (c : Comment) :
  wf (doc w) ->
  latestComment (feed_of w (to_string (fileKey w))) = Some c ->
  undeliverable H (doc w) c ->
  remote (cycle H w) = remote w ∧ doc (cycle H w) = doc w
  ∧ fileKey (cycle H w) = fileKey w.
Proof.
  intros Hwf Hlatest Hstuck. unfold cycle.
  destruct (checkAndApplyPendingTransfers H w) as [r w1] eqn:Hrun.
  unfold checkAndApplyPendingTransfers, try_catch in Hrun.
  unfold_world_in Hrun. cbn_world_in Hrun.
  unfold feed_of in Hlatest. unfold undeliverable in Hstuck.
  repeat first
    [ match type of Hrun with
      | context [applyPendingTransfer ?h ?n ?i ?s] =>
          pose proof (applyPendingTransfer_cases h n i s Hwf) as Hcases;
          destruct (applyPendingTransfer h n i s) as [[[]|?] ?] eqn:Happly;
          cbn_world_in Hrun
      end
    | split_step Hrun ].
  all: injection Hrun as <- <-; cbn_world.
  all: try done.
  all: injection Hlatest as ->.
  all: match goal with
       | E : JSON_parse _ _ = Some _ |- _ => rewrite E in Hstuck
       end.
  all: cbn [doc with_console with_remote with_calls] in Hcases; rewrite Hstuck in Hcases.
  all: try discriminate Hcases.
  all: injection Hcases as _ ->; by cbn_world.
Qed.

(** X16: when the latest transfer comment cannot be delivered (its
    envelope does not parse, or its target page is not in the document),
    any number of polling cycles leave the remote side and the document
    unchanged: the comment is never deleted and stays the latest. *)
Theorem undeliverable_comment_blocks_the_feed (H : Host) (w : World) (c : Comment) :
  wf (doc w) ->
  latestComment (feed_of w (to_string (fileKey w))) = Some c ->
  undeliverable H (doc w) c ->
  forall n,
    remote (cycles H n w) = remote w
    ∧ doc (cycles H n w) = doc w
    ∧ latestComment (feed_of (cycles H n w) (to_string (fileKey w))) = Some c.
Proof.
  intros Hwf Hlatest Hstuck n.
  assert (remote (cycles H n w) = remote w ∧ doc (cycles H n w) = doc w
          ∧ fileKey (cycles H n w) = fileKey w) as (Hr & Hd & Hk).
  { induction n as [|n (Hr & Hd & Hk)]; [done|].
    change (cycles H (S n) w) with (cycle H (cycles H n w)).
    destruct (cycle_undeliverable H (cycles H n w) c) as (Hr' & Hd' & Hk').
    - by rewrite Hd.
    - unfold feed_of. by rewrite Hk, Hr.
    - by rewrite Hd.
    - rewrite Hr', Hd', Hk'. done. }
  split; [done|]. split; [done|]. unfold feed_of in *. by rewrite Hr.
Qed.

Lemma undeliverable_comment_blocks_the_feed_witness :
  let w := Scenario.receiver [Cases.garbled] in
  remote (cycles Cases.H0 3 w) = remote w
  ∧ doc (cycles Cases.H0 3 w) = doc w
  ∧ latestComment (feed_of (cycles Cases.H0 3 w) "DEST") = Some Cases.garbled.
Proof.
  intros w.
  apply (undeliverable_comment_blocks_the_feed Cases.H0 w Cases.garbled).
  - exact wf_product.
  - vm_compute. reflexivity.
  - vm_compute. exact I.
Defined.

(** X17: a polling cycle deletes no comment but the one it
    claims: a comment of any file whose identifier differs from the latest
    transfer comment's is still in its feed afterwards. *)
Theorem cycle_spares_other_comments (H : Host) (w : World) (key : string) (c : Comment) :
  wf (doc w) ->
  c ∈ feed_of w key ->
  (forall claimed,
     latestComment (feed_of w (to_string (fileKey w))) = Some claimed ->
     c_id c ≠ c_id claimed) ->
  c ∈ feed_of (cycle H w) key.
Proof.
  intros Hwf Hin Hother. unfold cycle.
  destruct (checkAndApplyPendingTransfers H w) as [r w1] eqn:Hrun.
  unfold checkAndApplyPendingTransfers, try_catch in Hrun.
  unfold_world_in Hrun. cbn_world_in Hrun.
  repeat first
    [ match type of Hrun with
      | context [applyPendingTransfer ?h ?n ?i ?s] =>
          pose proof (applyPendingTransfer_frame h n i s Hwf)
            as (_ & _ & Hr & _ & _ & _ & _);
          destruct (applyPendingTransfer h n i s) as [[[]|?] ?] eqn:Happly;
          cbn [snd] in Hr; cbn_world_in Hr; cbn_world_in Hrun
      end
    | split_step Hrun ].
  all: injection Hrun as <- <-; cbn_world.
  all: try exact Hin.
  all: unfold feed_of in *; cbn_world; rewrite ?Hr; try exact Hin.
  all: cbn [files].
  all: destruct (decide (key = to_string (fileKey w))) as [->|Hne];
       [|by rewrite lookup_alter_ne].
  all: rewrite lookup_alter_eq.
  all: match goal with
       | E : files (remote _) !! _ = Some _ |- _ => rewrite E in Hin, Hother |- *
       end.
  all: cbn [fmap option_fmap option_map drop_comment f_comments].
  all: apply list_elem_of_In, filter_In; split; [by apply list_elem_of_In|].
  all: apply negb_true_iff, bool_decide_eq_false_2; by apply Hother.
Qed.

Lemma cycle_spares_other_comments_witness :
  Cases.remark
  ∈ feed_of (cycle Relay.H1 (Scenario.receiver [Cases.remark; Relay.carrier])) "DEST".
Proof.
  apply (cycle_spares_other_comments Relay.H1
           (Scenario.receiver [Cases.remark; Relay.carrier]) "DEST" Cases.remark).
  - exact wf_product.
  - constructor.
  - intros claimed Hlatest. vm_compute in Hlatest.
    injection Hlatest as <-. discriminate.
Defined.

(** ** The handlers of the panel *)

Ltac cbn_session :=
  cbn [world recentFiles probes panel thumbnails closed
       with_world with_recentFiles with_probes with_panel with_thumbnails with_closed
       with_storage
       doc fileKey rootName storage remote clock calls ui notes console
       with_doc with_ui with_calls with_remote with_notes with_console
       fst snd negb orb andb].

Ltac cbn_session_in Hrun :=
  cbn [world recentFiles probes panel thumbnails closed
       with_world with_recentFiles with_probes with_panel with_thumbnails with_closed
       with_storage
       doc fileKey rootName storage remote clock calls ui notes console
       with_doc with_ui with_calls with_remote with_notes with_console
       fst snd negb orb andb] in Hrun.

Ltac unfold_session :=
  unfold post, setAsync, fetch_me; unfold in_world, when, try_catch;
  unfold_world.


(** The list [addToRecentFiles] stores. *)
Lemma addToRecentFiles_run (file : FileData) (s : Session) :
  addToRecentFiles file s
  = (Ok tt,
     with_recentFiles
       (fun _ => Some (take 20 (file :: filter (fun f => fd_key f ≠ fd_key file)
                                         (default [] (recentFiles s))))) s).
Proof. reflexivity. Qed.

(** X18: after [addToRecentFiles] the stored list starts with the file and
    has at most 20 entries; the rest is a sublist of the old list and
    holds no entry with the file's key; distinct keys stay distinct; the
    world is untouched. *)
Theorem addToRecentFiles_keeps_the_list_in_shape (file : FileData) (s : Session) :
  exists l,
    recentFiles (snd (addToRecentFiles file s)) = Some (file :: l)
    ∧ (length (file :: l) ≤ 20)%nat
    ∧ l `sublist_of` default [] (recentFiles s)
    ∧ Forall (fun f => fd_key f ≠ fd_key file) l
    ∧ (NoDup (map fd_key (default [] (recentFiles s))) ->
       NoDup (map fd_key (file :: l)))
    ∧ world (snd (addToRecentFiles file s)) = world s.
Proof.
  rewrite addToRecentFiles_run. cbn [snd recentFiles with_recentFiles world].
  set (old := default [] (recentFiles s)).
  set (rest := filter (fun f => fd_key f ≠ fd_key file) old).
  exists (take 19 rest).
  split; [done|].
  split; [cbn; rewrite length_take; lia|].
  assert (take 19 rest `sublist_of` old) as Hsub.
  { etransitivity; [apply sublist_take | apply sublist_filter]. }
  assert (Forall (fun f => fd_key f ≠ fd_key file) (take 19 rest)) as Hne.
  { apply Forall_take. unfold rest. apply Forall_forall.
    intros f Hf. by apply list_elem_of_filter in Hf as [? _]. }
  split; [done|]. split; [done|]. split; [|done].
  intros Hnodup. cbn [map]. apply NoDup_cons. split.
  - rewrite list_elem_of_fmap. intros (f & Hk & Hf).
    rewrite Forall_forall in Hne. by apply (Hne f Hf).
  - eapply sublist_NoDup; [exact Hnodup|]. by apply fmap_sublist.
Qed.

Lemma filter_id {A} (P : A -> Prop) `{!forall x, Decision (P x)} (l : list A) :
  Forall P l -> filter P l = l.
Proof.
  induction 1 as [|x l Hx _ IH]; [done|].
  by rewrite filter_cons_True, IH.
Qed.

(** X19: adding the same file twice leaves what adding it once leaves. *)
Theorem addToRecentFiles_twice (file : FileData) (s : Session) :
  snd (addToRecentFiles file (snd (addToRecentFiles file s)))
  = snd (addToRecentFiles file s).
Proof.
  rewrite !addToRecentFiles_run. cbn [snd recentFiles with_recentFiles default].
  unfold with_recentFiles. cbn [world recentFiles probes panel thumbnails closed].
  f_equal. f_equal.
  set (rest := filter (fun f => fd_key f ≠ fd_key file) (default [] (recentFiles s))).
  cbn [take id]. rewrite filter_cons_False by (by intros ?).
  rewrite filter_id.
  - f_equal. apply take_idemp.
  - apply Forall_take, Forall_forall. intros f Hf.
    by apply list_elem_of_filter in Hf as [? _].
Qed.

Lemma existsb_key (k : string) (files : list FileData) :
  existsb (fun f => bool_decide (fd_key f = k)) files = true
  <-> k ∈ map fd_key files.
Proof.
  rewrite existsb_exists, list_elem_of_fmap. split.
  - intros (f & Hf & Hk). exists f. apply bool_decide_eq_true in Hk.
    split; [done | by apply list_elem_of_In].
  - intros (f & -> & Hf). exists f. split; [by apply list_elem_of_In|].
    by apply bool_decide_eq_true.
Qed.

Lemma merge_recent_spec (recent files : list FileData) :
  files `prefix_of` merge_recent files recent
  ∧ (NoDup (map fd_key files) -> NoDup (map fd_key (merge_recent files recent)))
  ∧ (forall f, f ∈ recent -> fd_key f ∈ map fd_key (merge_recent files recent))
  ∧ (forall f, f ∈ merge_recent files recent -> f ∈ files ∨ f ∈ recent).
Proof.
  revert files. induction recent as [|file recent IH]; intros files.
  - cbn. split; [done|]. split; [done|]. split; [by intros f Hf; inversion Hf|].
    intros f Hf. by left.
  - unfold merge_recent. cbn [foldl]. fold (merge_recent).
    destruct (existsb (fun f => bool_decide (fd_key f = fd_key file)) files) eqn:Hex.
    + destruct (IH files) as (Hpre & Hnd & Hall & Hfrom).
      change (foldl _ files recent) with (merge_recent files recent).
      split; [done|]. split; [done|]. split.
      * intros f Hf. apply elem_of_cons in Hf as [->|Hf]; [|by apply Hall].
        apply existsb_key in Hex. destruct Hpre as [k ->].
        rewrite fmap_app. apply elem_of_app. by left.
      * intros f Hf. destruct (Hfrom f Hf); [by left|]. right. by constructor.
    + destruct (IH (files ++ [file])) as (Hpre & Hnd & Hall & Hfrom).
      change (foldl _ (files ++ [file]) recent)
        with (merge_recent (files ++ [file]) recent).
      split; [etransitivity; [by apply prefix_app_r|exact Hpre]|].
      split.
      * intros Hfiles. apply Hnd. rewrite fmap_app. apply NoDup_app.
        split; [done|]. split; [|apply NoDup_singleton].
        intros k Hk Hk'. apply list_elem_of_singleton in Hk' as ->.
        apply existsb_key in Hk. congruence.
      * split.
        -- intros f Hf. apply elem_of_cons in Hf as [->|Hf]; [|by apply Hall].
           destruct Hpre as [k ->]. rewrite !fmap_app, !elem_of_app.
           left. right. constructor.
        -- intros f Hf. destruct (Hfrom f Hf) as [Hin|Hin]; [|right; by constructor].
           apply elem_of_app in Hin as [Hin|Hin]; [by left|].
           apply list_elem_of_singleton in Hin as ->. right. constructor.
Qed.

Lemma handleGetFiles_run (V : Service) (token : jsval) (s : Session) (u : UserData) :
  online (remote (world s)) = true ->
  service_me V token = Some u ->
  handleGetFiles V token s
  = (Ok tt,
     with_panel (fun p => p ++ [FilesList
                                  (merge_recent [current_entry (world s)]
                                                (default [] (recentFiles s)))
                                  (fileKey (world s))])
       (with_probes (fun l => l ++ [token]) s)).
Proof.
  intros Honline Hme. unfold handleGetFiles. unfold_session. cbn_session.
  by rewrite Honline, Hme.
Qed.

(** X20: online and with a token the service accepts, [handleGetFiles]
    posts one list: the current file comes first, the keys are pairwise
    distinct, the key of every recent file is listed, and every entry is
    the current file or a recent file. *)
Theorem handleGetFiles_lists_each_file_once (V : Service) (token : jsval)
    (s : Session) (u : UserData) :
  online (remote (world s)) = true ->
  service_me V token = Some u ->
  exists files,
    handleGetFiles V token s
    = (Ok tt, with_panel (fun p => p ++ [FilesList files (fileKey (world s))])
                (with_probes (fun l => l ++ [token]) s))
    ∧ head files = Some (current_entry (world s))
    ∧ NoDup (map fd_key files)
    ∧ (forall f, f ∈ default [] (recentFiles s) -> fd_key f ∈ map fd_key files)
    ∧ (forall f, f ∈ files ->
         f = current_entry (world s) ∨ f ∈ default [] (recentFiles s)).
Proof.
  intros Honline Hme.
  destruct (merge_recent_spec (default [] (recentFiles s)) [current_entry (world s)])
    as (Hpre & Hnd & Hall & Hfrom).
  exists (merge_recent [current_entry (world s)] (default [] (recentFiles s))).
  split.
  - by apply (handleGetFiles_run V token s u).
  - split; [by destruct Hpre as [k ->]|].
    split; [apply Hnd; cbn; apply NoDup_singleton|].
    split; [done|].
    intros f Hf. destruct (Hfrom f Hf) as [Hin|Hin]; [|by right].
    left. by apply list_elem_of_singleton in Hin.
Qed.

Lemma handleGetFiles_lists_each_file_once_witness :
  let s := Desk.visited in
  exists files,
    handleGetFiles Cases.service (JStr "figd_token") s
    = (Ok tt, with_panel (fun p => p ++ [FilesList files (fileKey (world s))])
                (with_probes (fun l => l ++ [JStr "figd_token"]) s))
    ∧ head files = Some (current_entry (world s))
    ∧ NoDup (map fd_key files)
    ∧ (forall f, f ∈ default [] (recentFiles s) -> fd_key f ∈ map fd_key files)
    ∧ (forall f, f ∈ files ->
         f = current_entry (world s) ∨ f ∈ default [] (recentFiles s)).
Proof.
  intros s.
  apply (handleGetFiles_lists_each_file_once Cases.service (JStr "figd_token") s
           Cases.ada).
  - reflexivity.
  - reflexivity.
Defined.

Lemma handleGetPages_remote (V : Service) (key : string) (token : jsval)
    (s : Session) (f : RemoteFile) :
  is_str (fileKey (world s)) key = false ->
  key ≠ "current" ->
  online (remote (world s)) = true ->
  files (remote (world s)) !! key = Some f ->
  f_readable f = true ->
  handleGetPages V key token s
  = (Ok tt,
     with_panel (fun p => p ++ [PagesList (canvases (service_types V key) (f_pages f))
                                          key (JStr (f_name f))])
       (with_recentFiles
          (fun _ => Some (take 20 (mkFileData key (f_name f) (Some (clock (world s)))
                                   :: filter (fun x => fd_key x ≠ key)
                                        (default [] (recentFiles s)))))
          (with_world (with_calls (fun c => c ++ [GetFile key token])) s))).
Proof.
  intros Hother Hcur Honline Hfile Hread.
  unfold handleGetPages, addToRecentFiles. unfold_session. cbn_session.
  rewrite Hother, (bool_decide_eq_false_2 _ Hcur). cbn_session.
  rewrite Honline, Hfile, Hread. cbn_session.
  destruct s as [w rf pr pa th cl]. destruct w. reflexivity.
Qed.

(** X21: after [handleGetPages] has read another file, the next
    [handleGetFiles] lists that file second, right after the current file,
    with the file's name and the time of the read. *)
Theorem fetched_file_is_listed_next (V : Service) (key : string)
    (token token' : jsval) (s : Session) (f : RemoteFile) (u : UserData) :
  is_str (fileKey (world s)) key = false ->
  key ≠ "current" ->
  fd_key (current_entry (world s)) ≠ key ->
  online (remote (world s)) = true ->
  files (remote (world s)) !! key = Some f ->
  f_readable f = true ->
  service_me V token' = Some u ->
  exists s1 s2 files,
    handleGetPages V key token s = (Ok tt, s1)
    ∧ handleGetFiles V token' s1 = (Ok tt, s2)
    ∧ last (panel s2) = Some (FilesList files (fileKey (world s)))
    ∧ files !! 0%nat = Some (current_entry (world s))
    ∧ files !! 1%nat = Some (mkFileData key (f_name f) (Some (clock (world s)))).
Proof.
  intros Hother Hcur Hne Honline Hfile Hread Hme.
  rewrite (handleGetPages_remote V key token s f Hother Hcur Honline Hfile Hread).
  match goal with |- exists s1 s2 files, (_, ?st) = _ ∧ _ => exists st end.
  eexists _, _. split; [reflexivity|].
  split; [apply (handleGetFiles_run V token' _ u); [exact Honline | exact Hme]|].
  cbn [snd panel with_panel]. rewrite last_snoc. split; [reflexivity|].
  cbn_session.
  cbn [take default from_option id merge_recent foldl existsb fd_key].
  unfold current_entry in Hne. cbn [fd_key] in Hne.
  rewrite (bool_decide_eq_false_2 _ Hne). cbn [orb app].
  match goal with |- context [foldl ?g ?b ?l] =>
    destruct (merge_recent_spec l b) as ([k Hk] & _);
    change (foldl g b l) with (merge_recent b l)
  end.
  rewrite Hk. done.
Qed.

Lemma fetched_file_is_listed_next_witness :
  let s := Cases.session Cases.sending in
  exists s1 s2 files,
    handleGetPages Cases.service "DEST" (JStr "figd_token") s = (Ok tt, s1)
    ∧ handleGetFiles Cases.service (JStr "figd_token") s1 = (Ok tt, s2)
    ∧ last (panel s2) = Some (FilesList files (JStr "SRC"))
    ∧ files !! 0%nat = Some (current_entry (world s))
    ∧ files !! 1%nat = Some (mkFileData "DEST" "Product" (Some 100%Z)).
Proof.
  intros s.
  apply (fetched_file_is_listed_next Cases.service "DEST" (JStr "figd_token")
           (JStr "figd_token") s Desk.product_file Cases.ada).
  - reflexivity.
  - discriminate.
  - vm_compute. discriminate.
  - reflexivity.
  - reflexivity.
  - reflexivity.
  - reflexivity.
Defined.


(** X23: [handleValidateToken] never throws, asks the service once about
    the token and makes no other request.  When the token is accepted it
    stores the token and full scopes and reports the user's name with read
    and write access; otherwise it leaves the world and reports a
    rejection. *)
Theorem handleValidateToken_outcomes (V : Service) (token : jsval) (s : Session) :
  exists s1,
    handleValidateToken V token s = (Ok tt, s1)
    ∧ probes s1 = probes s ++ [token]
    ∧ calls (world s1) = calls (world s)
    ∧ match (if online (remote (world s)) then service_me V token else None) with
      | Some u =>
          storage (world s1)
          = <["tokenScopes" := full_scopes]>
              (<["figmaApiToken" := token]> (storage (world s)))
          ∧ panel s1 = panel s ++ [TokenValidated (userName u) true true scopeMessage]
      | None =>
          world s1 = world s
          ∧ exists e, panel s1 = panel s ++ [TokenRejected e]
      end.
Proof.
  unfold handleValidateToken. unfold_session. cbn_session.
  destruct (online (remote (world s))); cbn_session;
    [destruct (service_me V token) as [u|]|]; cbn_session.
  all: eexists; (split; [reflexivity|]); cbn_session.
  all: do 2 (split; [done|]).
  - done.
  - split; [by destruct (world s) | by eexists].
  - split; [by destruct (world s) | by eexists].
Qed.

(** X24: after a validation the service accepted, a cross-file transfer
    passes the permission check: its first message to the panel is the
    progress ["Starting cross-file transfer..."]. *)
Theorem validated_token_opens_cross_file_transfer (H : Host) (V : Service)
    (token : jsval) (s : Session) (u : UserData)
    (node : handle) (msg : TransferRequest) :
  online (remote (world s)) = true ->
  service_me V token = Some u ->
  let s1 := snd (handleValidateToken V token s) in
  exists rest,
    ui (snd (transferToOtherFile H node msg (world s1)))
    = ui (world s) ++ UiProgress 5 "Starting cross-file transfer..." :: rest.
Proof.
  intros Honline Hme.
  unfold handleValidateToken. unfold_session. cbn_session.
  rewrite Honline, Hme. cbn_session.
  match goal with |- context [transferToOtherFile H node msg ?w0] => set (w1 := w0) end.
  destruct (transferToOtherFile H node msg w1) as [r w2] eqn:Hrun.
  unfold transferToOtherFile, try_catch in Hrun.
  unfold_world_in Hrun. subst w1. cbn_session_in Hrun.
  match type of Hrun with
  | context [prop ?m "tokenScopes"] =>
      replace (prop m "tokenScopes") with full_scopes in Hrun
        by (unfold prop; by rewrite lookup_insert_eq)
  end.
  change (truthy full_scopes) with true in Hrun.
  change (truthy (field full_scopes "hasWriteAccess")) with true in Hrun.
  cbn_session_in Hrun.
  split_run Hrun.
  all: injection Hrun as <- <-; cbn_session.
  all: rewrite <- ?app_assoc; by eexists.
Qed.

Lemma validated_token_opens_cross_file_transfer_witness :
  let s1 := snd (handleValidateToken Cases.service (JStr "figd_token") Cases.returning) in
  exists rest,
    ui (snd (transferToOtherFile Cases.H0 1 Scenario.to_product (world s1)))
    = ui (world Cases.returning)
      ++ UiProgress 5 "Starting cross-file transfer..." :: rest.
Proof.
  intros s1.
  apply (validated_token_opens_cross_file_transfer Cases.H0 Cases.service
           (JStr "figd_token") Cases.returning Cases.ada 1 Scenario.to_product).
  - reflexivity.
  - reflexivity.
Defined.

(** X25: [handleCheckStoredToken] never throws, leaves the world and the
    recent files, and posts exactly one message; it asks the service only
    when a token is stored.  The message is [stored-token-valid], with the
    token and the user's name, when the service accepts the token, and
    [no-stored-token] otherwise. *)
Theorem handleCheckStoredToken_outcomes (V : Service) (s : Session) :
  let token := prop (storage (world s)) "figmaApiToken" in
  exists s1 m,
    handleCheckStoredToken V s = (Ok tt, s1)
    ∧ world s1 = world s
    ∧ recentFiles s1 = recentFiles s
    ∧ panel s1 = panel s ++ [m]
    ∧ probes s1 = probes s ++ (if truthy token then [token] else [])
    ∧ m = match (if truthy token && online (remote (world s))
                 then service_me V token else None) with
          | Some u => StoredTokenValid token (userName u)
          | None => NoStoredToken
          end.
Proof.
  unfold handleCheckStoredToken. unfold_session. cbn_session.
  destruct (truthy (prop (storage (world s)) "figmaApiToken")); cbn_session;
    [destruct (online (remote (world s))); cbn_session;
     [destruct (service_me V _) as [u|]|]|]; cbn_session.
  all: eexists _, _; (split; [reflexivity|]); cbn_session.
  all: rewrite ?app_nil_r; by destruct s.
Qed.

(** X26: with an accepted token in storage and no stored scopes,
    [handleCheckStoredToken] reports the token as valid, and yet a
    cross-file transfer throws the missing-write-permission error without
    making a request. *)
Theorem stored_token_alone_does_not_open_transfers (H : Host) (V : Service)
    (s : Session) (u : UserData) (node : handle) (msg : TransferRequest) :
  let token := prop (storage (world s)) "figmaApiToken" in
  truthy token = true ->
  online (remote (world s)) = true ->
  service_me V token = Some u ->
  truthy (prop (storage (world s)) "tokenScopes") = false ->
  let s1 := snd (handleCheckStoredToken V s) in
  last (panel s1) = Some (StoredTokenValid token (userName u))
  ∧ fst (transferToOtherFile H node msg (world s1)) = Thrown no_write_permission
  ∧ calls (snd (transferToOtherFile H node msg (world s1))) = calls (world s).
Proof.
  intros token Htoken Honline Hme Hscopes s1. subst token s1.
  unfold handleCheckStoredToken. unfold_session. cbn_session.
  rewrite Htoken. cbn_session. rewrite Honline, Hme. cbn_session.
  split; [by rewrite last_snoc|].
  unfold transferToOtherFile, try_catch. unfold_world. cbn_session.
  by rewrite Hscopes.
Qed.

Lemma stored_token_alone_does_not_open_transfers_witness :
  let s1 := snd (handleCheckStoredToken Cases.service Cases.returning) in
  last (panel s1) = Some (StoredTokenValid (JStr "figd_token") (JStr "ada"))
  ∧ fst (transferToOtherFile Cases.H0 1 Scenario.to_product (world s1))
    = Thrown no_write_permission
  ∧ calls (snd (transferToOtherFile Cases.H0 1 Scenario.to_product (world s1)))
    = calls (world Cases.returning).
Proof.
  intros s1.
  apply (stored_token_alone_does_not_open_transfers Cases.H0 Cases.service
           Cases.returning Cases.ada 1 Scenario.to_product).
  - vm_compute. reflexivity.
  - reflexivity.
  - vm_compute. reflexivity.
  - vm_compute. reflexivity.
Defined.

(** X27: [handleGetSelection] leaves the world and posts exactly one
    message: the name, type and identifier of the selected element when
    exactly one element of the five accepted types is selected, and the
    matching [no-selection] text otherwise; a thumbnail export is started
    only in the first case, and only for an element that has
    [exportAsync]. *)
Theorem handleGetSelection_reports (X : Exporter) (s : Session) :
  exists s1 m,
    handleGetSelection X s = (Ok tt, s1)
    ∧ world s1 = world s
    ∧ panel s1 = panel s ++ [m]
    ∧ match selection (doc (world s)) with
      | [node] =>
          if bool_decide (type_of (doc (world s)) node = Some "FRAME"
                          ∨ type_of (doc (world s)) node = Some "COMPONENT"
                          ∨ type_of (doc (world s)) node = Some "COMPONENT_SET"
                          ∨ type_of (doc (world s)) node = Some "INSTANCE"
                          ∨ type_of (doc (world s)) node = Some "GROUP")
          then exists kind,
                 type_of (doc (world s)) node = Some kind
                 ∧ m = SelectionInfo (name_of (doc (world s)) node) kind
                                     (id_in (doc (world s)) node)
                 ∧ thumbnails s1
                   = thumbnails s
                     ++ (if has_exportAsync X (doc (world s)) node then [node] else [])
          else m = NoSelection "Please select a frame, component, or group"
               ∧ thumbnails s1 = thumbnails s
      | [] => m = NoSelection "No frame or component selected"
              ∧ thumbnails s1 = thumbnails s
      | _ => m = NoSelection "Please select only one frame or component"
             ∧ thumbnails s1 = thumbnails s
      end.
Proof.
  unfold handleGetSelection. unfold_session. unfold kind_of. unfold_session.
  cbn_session.
  destruct (selection (doc (world s))) as [|node [|node' l]]; cbn_session.
  1,3: eexists _, _; (split; [reflexivity|]); cbn_session;
       split; [first [done | apply with_doc_id]|]; done.
  unfold type_of, validTypes.
  destruct (nodes (doc (world s)) !! node) as [n|] eqn:Hn; cbn [fmap option_fmap option_map].
  - destruct (decide (n_type n ∈ ["FRAME"; "COMPONENT"; "COMPONENT_SET"; "INSTANCE"; "GROUP"]))
      as [Hin|Hnot].
    + rewrite (bool_decide_eq_true_2 _ Hin). cbn_session.
      rewrite bool_decide_eq_true_2
        by (rewrite !elem_of_cons in Hin; destruct Hin as [->|[->|[->|[->|[->|Hin]]]]];
            [tauto..|by inversion Hin]).
      destruct (has_exportAsync X (doc (world s)) node); cbn_session.
      all: eexists _, _; (split; [reflexivity|]); cbn_session.
      all: split; [first [done | apply with_doc_id]|]; split; [done|].
      all: exists (n_type n); rewrite ?app_nil_r; done.
    + rewrite (bool_decide_eq_false_2 _ Hnot). cbn_session.
      rewrite bool_decide_eq_false_2
        by (intros Hor; apply Hnot; rewrite !elem_of_cons;
            destruct Hor as [[= ->]|[[= ->]|[[= ->]|[[= ->]|[= ->]]]]]; tauto).
      eexists _, _. split; [reflexivity|]. cbn_session.
      split; [first [done | apply with_doc_id]|]. done.
  - rewrite bool_decide_eq_false_2
      by (rewrite !elem_of_cons; intros [?|[?|[?|[?|[?|Hin]]]]]; try done; inversion Hin).
    cbn_session.
    rewrite bool_decide_eq_false_2 by (intros [?|[?|[?|[?|?]]]]; done).
    eexists _, _. split; [reflexivity|]. cbn_session.
    split; [first [done | apply with_doc_id]|]. done.
Qed.



(** ** The earlier version of the script *)

Global Instance view_kept_preorder : PreOrder view_kept.
Proof.
  split.
  - by intros d.
  - intros d1 d2 d3 [? ?] [? ?]. split; congruence.
Qed.

Global Instance quiet_preorder : PreOrder quiet.
Proof.
  split.
  - intros s. by repeat split.
  - intros s1 s2 s3 (V1 & ? & ? & ? & ?) (V2 & ? & ? & ? & ?).
    split; [by etransitivity|]. repeat split; congruence.
Qed.

Lemma along_quiet_doc {A} (m : St Doc A) :
  along view_kept m -> along quiet (in_world (lift m)).
Proof.
  intros Hm s. unfold in_world, lift. specialize (Hm (doc (world s))).
  destruct (m (doc (world s))) as [r d]. cbn [snd] in *.
  split; [exact Hm | done].
Qed.

Lemma along_quiet_post m : along quiet (post m).
Proof. intros s. by repeat split. Qed.

Lemma along_quiet_notify line : along quiet (in_world (notify line)).
Proof. intros s. by repeat split. Qed.

Lemma along_quiet_postMessage m : along quiet (in_world (postMessage m)).
Proof. intros s. by repeat split. Qed.

Lemma along_quiet_loadAllPagesAsync : along quiet (in_world loadAllPagesAsync).
Proof. intros s. by repeat split. Qed.

Lemma along_view_clone H h : along view_kept (clone H h).
Proof. intros d. destruct (clone_view H h d) as (_ & ? & ? & _). by split. Qed.

Lemma along_view_createPage H : along view_kept (createPage H).
Proof. intros d. unfold createPage. by destruct (host_creates H d "PAGE"). Qed.

Lemma along_view_set_prop H c k v : along view_kept (set_prop H c k v).
Proof.
  intros d. unfold set_prop. destruct (nodes d !! c); [|done].
  by destruct (host_accepts H d c k v).
Qed.

Lemma along_view_appendChild H p c : along view_kept (appendChild H p c).
Proof.
  intros d. unfold appendChild. destruct (nodes d !! p) as [n|]; [|done].
  destruct (n_children n); [|done]. by destruct (host_appends H d p c).
Qed.

Lemma along_view_remove H c : along view_kept (remove H c).
Proof. intros d. unfold remove. by destruct (host_removes H d c). Qed.

Lemma along_view_kind_of c : along view_kept (kind_of c).
Proof. by intros d. Qed.

Ltac quiet_step :=
  lazymatch goal with
  | |- along _ (bind _ _) => apply along_bind; [apply _ | | intros ?]
  | |- along _ (try_catch _ _) => apply along_try_catch; [apply _ | | intros ?]
  | |- along _ (when _ _) => apply along_when; [apply _ |]
  | |- along _ (ret _) => apply along_ret; apply _
  | |- along _ (throw _) => apply along_throw; apply _
  | |- along _ (gets _) => apply along_gets; apply _
  | |- along _ (post _) => apply along_quiet_post
  | |- along _ (in_world loadAllPagesAsync) => apply along_quiet_loadAllPagesAsync
  | |- along _ (in_world (notify _)) => apply along_quiet_notify
  | |- along _ (in_world (postMessage _)) => apply along_quiet_postMessage
  | |- along _ (in_world (lift _)) => apply along_quiet_doc
  | |- along _ (clone _ _) => apply along_view_clone
  | |- along _ (createPage _) => apply along_view_createPage
  | |- along _ (set_prop _ _ _ _) => apply along_view_set_prop
  | |- along _ (appendChild _ _ _) => apply along_view_appendChild
  | |- along _ (remove _ _) => apply along_view_remove
  | |- along _ (kind_of _) => apply along_view_kind_of
  | |- along _ (if ?b then _ else _) => destruct b
  | |- along _ (match ?x with Some _ => _ | None => _ end) => destruct x
  | |- along _ (match ?x with [] => _ | _ :: _ => _ end) => destruct x
  end.

Lemma along_quiet_exportAsync X c : along quiet (Earlier.exportAsync X c).
Proof.
  intros s. unfold Earlier.exportAsync.
  destruct (export_svg X (doc (world s)) c); by repeat split.
Qed.

(** X29: in the earlier version of the script [handleTransfer] never
    changes the current page or the selection, makes no request and leaves
    the remote side. *)
Theorem earlier_transfers_do_not_redirect (H : Host) (X : Exporter)
    (msg : TransferRequest) (s : Session) :
  let s1 := snd (Earlier.handleTransfer H X msg s) in
  currentPage (doc (world s1)) = currentPage (doc (world s))
  ∧ selection (doc (world s1)) = selection (doc (world s))
  ∧ calls (world s1) = calls (world s)
  ∧ remote (world s1) = remote (world s)
  ∧ probes s1 = probes s.
Proof.
  assert (along quiet (Earlier.handleTransfer H X msg)) as Hq.
  { unfold Earlier.handleTransfer, Earlier.transferWithinCurrentFile,
      Earlier.transferToOtherFile.
    repeat first [ quiet_step | apply along_quiet_exportAsync ]. }
  destruct (Hq s) as ([? ?] & ? & ? & ? & ?). by repeat split.
Qed.



(** ** The payload of a cross-file transfer *)

Lemma reads_unfold lo hi d c type id props children :
  reads lo hi d c (Element type id props children)
  = ((lo ≤ c < hi)%nat
     ∧ exists hn, nodes d !! c = Some hn
         ∧ n_type hn = type ∧ n_props hn = props
         ∧ match children with
           | None => n_children hn = None
           | Some cs => exists hs, n_children hn = Some hs ∧ reads_all lo hi d cs hs
           end).
Proof. reflexivity. Qed.

Lemma reads_all_app lo hi d hs1 cs1 hs2 cs2 :
  reads_all lo hi d cs1 hs1 -> reads_all lo hi d cs2 hs2 ->
  reads_all lo hi d (cs1 ++ cs2) (hs1 ++ hs2).
Proof.
  revert hs1. induction cs1 as [|k cs1 IH]; intros [|h hs1]; cbn; try done.
  intros [? ?] ?. split; [done|]. by apply IH.
Qed.

(** [reads] depends on the store only through the handles of its range. *)
Lemma reads_stable_node lo hi lo' hi' d d' type id props children :
  (lo' ≤ lo)%nat -> (hi ≤ hi')%nat ->
  (forall x, (lo ≤ x < hi)%nat -> nodes d' !! x = nodes d !! x) ->
  match children with
  | Some cs => Forall (fun k => forall c, reads lo hi d c k -> reads lo' hi' d' c k) cs
  | None => True
  end ->
  forall c, reads lo hi d c (Element type id props children) ->
            reads lo' hi' d' c (Element type id props children).
Proof.
  intros Hlo Hhi Hsame Hcs c. rewrite !reads_unfold.
  intros (Hc & hn & Hn & Ht & Hp & Hkids).
  split; [lia|]. exists hn. rewrite Hsame by done.
  do 3 (split; [done|]).
  destruct children as [cs|]; [|done].
  destruct Hkids as (hs & Hhs & Hall). exists hs. split; [done|].
  clear Hhs. revert hs Hall.
  induction Hcs as [|k cs Hk _ IH]; intros [|h hs]; cbn; try done.
  intros [? ?]. split; [by apply Hk | by apply IH].
Qed.

Lemma reads_stable lo hi lo' hi' d d' (n : BaseNode) :
  (lo' ≤ lo)%nat -> (hi ≤ hi')%nat ->
  (forall x, (lo ≤ x < hi)%nat -> nodes d' !! x = nodes d !! x) ->
  forall c, reads lo hi d c n -> reads lo' hi' d' c n.
Proof.
  intros Hlo Hhi Hsame. revert n. fix IH 1. intros [type id props children].
  apply reads_stable_node; try done.
  destruct children as [cs|]; [|exact I].
  induction cs as [|k cs IHcs]; constructor; [apply IH | exact IHcs].
Qed.

Lemma foldr_max_app (l1 l2 : list BaseNode) :
  foldr (fun k m => Nat.max (height k) m) 0 (l1 ++ l2)
  = Nat.max (foldr (fun k m => Nat.max (height k) m) 0 l1)
            (foldr (fun k m => Nat.max (height k) m) 0 l2).
Proof. induction l1 as [|k l1 IH]; cbn; [done|]. rewrite IH. lia. Qed.

Lemma planted_children c type props (rest : list BaseNode) :
  Forall planted rest ->
  forall d1 done hs,
    (S c ≤ next d1)%nat ->
    nodes d1 !! c = Some (mkHNode type (id_of c) props (Some hs)) ->
    reads_all (S c) (next d1) d1 done hs ->
    (foldr (fun k m => Nat.max (height k) m) 0 done + S c ≤ next d1)%nat ->
    exists d2 hs2,
      (fix each (l : list BaseNode) : St Doc unit :=
         match l with
         | [] => ret tt
         | k :: l' =>
             bind (plant k) (fun kc =>
               bind (modify (with_nodes (attach c kc)))
                    (fun _ => each l'))
         end) rest d1 = (Ok tt, d2)
      ∧ (next d1 ≤ next d2)%nat
      ∧ (forall x, (x < c)%nat -> nodes d2 !! x = nodes d1 !! x)
      ∧ nodes d2 !! c = Some (mkHNode type (id_of c) props (Some hs2))
      ∧ reads_all (S c) (next d2) d2 (done ++ rest) hs2
      ∧ (foldr (fun k m => Nat.max (height k) m) 0 (done ++ rest) + S c ≤ next d2)%nat.
Proof.
  induction 1 as [|k rest Hk _ IH]; intros d1 done hs Hn1 Hc1 Hall1 Hh1.
  - exists d1, hs. rewrite app_nil_r. by repeat split.
  - destruct (Hk d1) as (d' & Hp & Hn' & Hh' & Hold' & Hreads').
    unfold bind at 1. rewrite Hp. unfold bind at 1, modify at 1.
    set (d'' := with_nodes (attach c (next d1)) d').
    assert (forall x, x ≠ c -> nodes d'' !! x = nodes d' !! x) as Hother.
    { intros x Hx. cbn [d'' nodes with_nodes]. rewrite lookup_attach.
      by rewrite decide_False by done. }
    destruct (IH d'' (done ++ [k]) (hs ++ [next d1])) as
      (d2 & hs2 & Hrun & Hn2 & Hold2 & Hc2 & Hall2 & Hh2).
    + cbn. lia.
    + cbn [d'' nodes with_nodes]. rewrite lookup_attach, decide_True by done.
      rewrite Hold' by lia. by rewrite Hc1.
    + apply reads_all_app.
      * clear IH Hh1. revert hs Hall1 Hc1.
        assert (forall ks hs, reads_all (S c) (next d1) d1 ks hs ->
                              reads_all (S c) (next d'') d'' ks hs) as Hst.
        { induction ks as [|k0 ks IHks]; intros [|h0 hs0]; cbn; try done.
          intros [Hr Hrs]. split; [|by apply IHks].
          eapply (reads_stable (S c) (next d1)); [| |  |exact Hr]; [lia|cbn; lia|].
          intros x Hx. rewrite Hother by lia. apply Hold'. lia. }
        intros hs Hall1 _. by apply Hst.
      * cbn. split; [|done].
        eapply (reads_stable (next d1) (next d')); [| | |exact Hreads']; [lia|done|].
        intros x Hx. apply Hother. lia.
    + rewrite foldr_max_app. cbn [foldr next d'' with_nodes]. lia.
    + exists d2, hs2. rewrite <- app_assoc in Hall2, Hh2. cbn [app] in Hall2, Hh2.
      split; [exact Hrun|]. split; [cbn in Hn2; lia|].
      split; [|by split].
      intros x Hx. rewrite Hold2 by done. rewrite Hother by lia. apply Hold'. lia.
Qed.

Lemma planted_node type id props children :
  match children with
  | Some cs => Forall planted cs
  | None => True
  end ->
  planted (Element type id props children).
Proof.
  intros Hcs d.
  cbn [plant]. unfold bind at 1, gets at 1. unfold bind at 1, modify at 1.
  set (c := next d).
  destruct children as [cs|].
  2: { unfold bind, ret. eexists. split; [reflexivity|].
       cbn [next with_next nodes with_nodes height].
       split; [lia|]. split; [lia|].
       split; [intros x Hx; by rewrite lookup_insert_ne by lia|].
       rewrite reads_unfold. split; [cbn; lia|].
       eexists. cbn [nodes with_nodes with_next]. rewrite lookup_insert_eq.
       by repeat split. }
  set (d1 := with_next (S c) _).
  destruct (planted_children c type props cs Hcs d1 [] [])
    as (d2 & hs & Hrun & Hn2 & Hold2 & Hc2 & Hall2 & Hh2).
  { cbn. lia. }
  { cbn. by rewrite lookup_insert_eq. }
  { done. }
  { cbn. lia. }
  unfold bind at 1. rewrite Hrun. unfold ret.
  exists d2. split; [reflexivity|].
  cbn [app] in Hall2, Hh2. cbn [next d1 with_next] in Hn2.
  split; [lia|]. split; [cbn [height]; lia|].
  split.
  - intros x Hx. rewrite Hold2 by done. cbn. by rewrite lookup_insert_ne by lia.
  - rewrite reads_unfold. split; [lia|].
    eexists. split; [exact Hc2|]. do 2 (split; [done|]).
    exists hs. split; [done|].
    assert (forall ks hs0, reads_all (S c) (next d2) d2 ks hs0 ->
                           reads_all c (next d2) d2 ks hs0) as Hw.
    { induction ks as [|k0 ks IHks]; intros [|h0 hs0]; cbn; try done.
      intros [Hr Hrs]. split; [|by apply IHks].
      eapply (reads_stable (S c) (next d2)); [| | |exact Hr]; [lia|lia|done]. }
    by apply Hw.
Qed.

Lemma plant_reads (n : BaseNode) : planted n.
Proof.
  revert n. fix IH 1. intros [type id props children].
  apply planted_node. destruct children as [cs|]; [|exact I].
  induction cs as [|k cs IHcs]; constructor; [apply IH | exact IHcs].
Qed.

Lemma without_ids_fields type id id' props children children' :
  delete "id" (fields_of (deepSerializeNode (Element type id props children)))
  = delete "id" (fields_of (deepSerializeNode (Element type id' props children'))).
Proof.
  apply map_eq. intros k.
  destruct (decide (k = "id")) as [->|Hne]; [by rewrite !lookup_delete_eq|].
  rewrite !lookup_delete_ne by done.
  cbn [deepSerializeNode fields_of]. rewrite !copies_lookup.
  destruct (bool_decide (k ∈ serialized_keys)).
  - destruct (props !! k); [done|]. by rewrite !(lookup_insert_ne _ "id").
  - by rewrite !(lookup_insert_ne _ "id").
Qed.

Lemma without_ids_node type id id' props children children' :
  match children, children' with
  | Some cs, Some cs' =>
      map without_ids (map deepSerializeNode cs)
      = map without_ids (map deepSerializeNode cs')
  | None, None => True
  | _, _ => False
  end ->
  without_ids (deepSerializeNode (Element type id props children))
  = without_ids (deepSerializeNode (Element type id' props children')).
Proof.
  intros Hcs.
  pose proof (without_ids_fields type id id' props children children') as Hf.
  cbn [deepSerializeNode fields_of without_ids] in *. rewrite Hf. f_equal.
  destruct children as [cs|], children' as [cs'|]; try done. by f_equal.
Qed.

Lemma max_le_foldr (k : BaseNode) (cs : list BaseNode) :
  k ∈ cs -> (height k ≤ foldr (fun k m => Nat.max (height k) m) 0 cs)%nat.
Proof.
  induction 1 as [k cs|k k' cs _ IH]; cbn; lia.
Qed.

Lemma reads_serialized_node lo hi d type id props children :
  match children with
  | Some cs =>
      Forall (fun k => forall c fuel,
                reads lo hi d c k -> (height k ≤ fuel)%nat ->
                without_ids (deepSerializeNode (node_object fuel d c))
                = without_ids (deepSerializeNode k)) cs
  | None => True
  end ->
  forall c fuel,
    reads lo hi d c (Element type id props children) ->
    (height (Element type id props children) ≤ fuel)%nat ->
    without_ids (deepSerializeNode (node_object fuel d c))
    = without_ids (deepSerializeNode (Element type id props children)).
Proof.
  intros Hcs c fuel. rewrite reads_unfold.
  intros (_ & hn & Hn & <- & <- & Hkids) Hfuel.
  destruct fuel as [|fuel]; cbn [node_object]; rewrite Hn.
  - destruct children as [cs|]; [cbn in Hfuel; lia|].
    by apply without_ids_node.
  - apply without_ids_node.
    destruct children as [cs|].
    + destruct Hkids as (hs & -> & Hall). cbn [fmap option_fmap option_map].
      cbn [height] in Hfuel.
      assert (foldr (fun k m => Nat.max (height k) m) 0 cs ≤ fuel)%nat as Hmax by lia.
      clear Hfuel Hn. revert hs Hall Hmax.
      induction Hcs as [|k cs Hk _ IH]; intros [|h hs]; cbn; try done.
      intros [Hr Hrs] Hmax. f_equal.
      * apply Hk; [done | lia].
      * apply IH; [done | lia].
    + by rewrite Hkids.
Qed.

Lemma reads_serialized lo hi d (n : BaseNode) :
  forall c fuel,
    reads lo hi d c n -> (height n ≤ fuel)%nat ->
    without_ids (deepSerializeNode (node_object fuel d c))
    = without_ids (deepSerializeNode n).
Proof.
  revert n. fix IH 1. intros [type id props children].
  apply reads_serialized_node. destruct children as [cs|]; [|exact I].
  induction cs as [|k cs IHcs]; constructor; [apply IH | exact IHcs].
Qed.

(** The clone serializes as the original does, identifiers aside. *)
Lemma clone_serialized (H : Host) (h : handle) (d d1 : Doc) (c : handle) :
  (currentPage d < next d)%nat ->
  clone H h d = (Ok c, d1) ->
  without_ids (deepSerializeNode (node_object (next d1) d1 c))
  = without_ids (deepSerializeNode (node_object (next d) d h)).
Proof.
  intros Hlt. unfold clone. destruct (host_clones H d h); [|done].
  destruct (plant_reads (node_object (next d) d h) d)
    as (d' & Hp & Hn & Hh & Hold & Hreads).
  destruct (plant_fresh (node_object (next d) d h) d) as (d'' & Hp' & _ & _ & Hcur).
  rewrite Hp in Hp'. injection Hp' as <-.
  unfold bind at 1. rewrite Hp. unfold bind, gets, modify, ret.
  intros [= <- <-]. cbn [next with_nodes].
  eapply reads_serialized; [|lia].
  eapply (reads_stable (next d) (next d')); [| | |exact Hreads]; [done|done|].
  intros x Hx. cbn [nodes with_nodes]. rewrite lookup_attach.
  rewrite decide_False by lia. done.
Qed.

(** X2: after a successful [transferToOtherFile] the last comment of the
    target file's feed is the marker, a line break and the envelope.  The
    envelope carries the time of the clock in ISO form, names the source
    file and the
    requested page, and its payload is, identifiers aside, the
    serialization of the selected element as it stood before the
    transfer. *)
Theorem payload_is_the_selection (H : Host) (node : handle)
    (msg : TransferRequest) (w w' : World) :
  (currentPage (doc w) < next (doc w))%nat ->
  transferToOtherFile H node msg w = (Ok tt, w') ->
  exists (c : Comment) (td : TransferData),
    last (feed_of w' (m_fileKey msg)) = Some c
    ∧ c_message c = marker +:+ newline +:+ JSON_stringify H td
    ∧ c_created_at c = clock w
    ∧ t_type td = JStr "DESIGN_TRANSFER"
    ∧ t_sourceFile td = JStr (rootName w)
    ∧ t_targetPageId td = m_pageId msg
    ∧ t_timestamp td = JStr (toISOString (clock w))
    ∧ without_ids (t_nodeData td)
      = without_ids (deepSerializeNode (node_object (next (doc w)) (doc w) node)).
Proof.
  intros Hlt Hrun.
  unfold transferToOtherFile, try_catch in Hrun.
  unfold_world_in Hrun. cbn_world_in Hrun.
  split_run Hrun; try discriminate Hrun.
  injection Hrun as <-.
  unfold feed_of. cbn_world.
  match goal with E : accepts_comment _ _ = true |- _ =>
    rewrite E; unfold accepts_comment in E end.
  destruct (files (remote w) !! m_fileKey msg) as [f|] eqn:Hf; [|done].
  cbn [files]. rewrite lookup_alter_eq, Hf.
  cbn [fmap option_fmap option_map add_comment f_comments].
  rewrite last_snoc.
  eexists _, _. split; [reflexivity|]. cbn [c_message c_created_at].
  split; [reflexivity|]. split; [reflexivity|].
  cbn [t_type t_sourceFile t_targetPageId t_timestamp t_nodeData].
  do 4 (split; [reflexivity|]).
  by eapply clone_serialized.
Qed.

Lemma payload_is_the_selection_witness :
  let w := Cases.sending in
  let w' := snd (transferToOtherFile Cases.H0 1 Scenario.to_product w) in
  exists (c : Comment) (td : TransferData),
    last (feed_of w' "DEST") = Some c
    ∧ c_message c = marker +:+ newline +:+ Reference.print_envelope td
    ∧ c_created_at c = clock w
    ∧ t_type td = JStr "DESIGN_TRANSFER"
    ∧ t_sourceFile td = JStr "Library"
    ∧ t_targetPageId td = JStr "0"
    ∧ t_timestamp td = JStr (toISOString (clock w))
    ∧ without_ids (t_nodeData td) = without_ids Scenario.card.
Proof.
  intros w w'.
  apply (payload_is_the_selection Cases.H0 1 Scenario.to_product w w').
  - cbn. lia.
  - vm_compute. reflexivity.
Defined.
